(** * Particle demo: the per-frame pipeline of [sample.py] and
      [sample_readable.py]

    Both programs animate a population of point particles inside a
    rectangle: add the velocity to the position, bounce off the edges and
    draw one pixel per particle.  [sample_readable.py] does it one particle
    at a time on Python floats (IEEE-754 binary64); [sample.py] does it on
    NumPy [float32] columns (IEEE-754 binary32).

    Numbers are modelled as the code has them: a float is a [spec_float] of
    the standard library's executable IEEE-754 specification, rounded to
    nearest even at the precision of the format that the variant computes
    in.  Python integers are [Z].  A [spec_float] has one NaN: the sign and
    the payload bits of a NaN are not part of the model, so an equation
    between floats says nothing about them. *)

From Stdlib Require Import ZArith List Bool Lia Reals Lra.
From Stdlib Require Import Floats.SpecFloat.
From Stdlib Require Import Permutation.
Import ListNotations.
Local Open Scope Z_scope.

(** ** Floating-point formats *)

(** [fprec] bits of mantissa (the implicit one included); [femax] is the
    exponent of the infinities. *)
Record format : Set := Format { fprec : Z; femax : Z }.

(** CPython's [float]. *)
Definition binary64 : format := Format 53 1024.

(** NumPy's [float32]. *)
Definition binary32 : format := Format 24 128.

Abbreviation float := spec_float.

Definition fzero : float := S754_zero false.

Definition is_nan (a : float) : bool :=
  match a with S754_nan => true | _ => false end.

Definition is_finite (a : float) : bool :=
  match a with S754_zero _ | S754_finite _ _ _ => true | _ => false end.

(** A value of the format: a finite one has the canonical mantissa and
    exponent. *)
Definition is_float (F : format) (a : float) : bool :=
  valid_binary (fprec F) (femax F) a.

(** [a + b], rounded in [F]. *)
Definition fadd (F : format) (a b : float) : float :=
  SFadd (fprec F) (femax F) a b.

Definition fsub (F : format) (a b : float) : float :=
  SFsub (fprec F) (femax F) a b.

Definition fmul (F : format) (a b : float) : float :=
  SFmul (fprec F) (femax F) a b.

Definition fdiv (F : format) (a b : float) : float :=
  SFdiv (fprec F) (femax F) a b.

(** [a < b] and [a > b]; both are false when an operand is NaN. *)
Definition flt (a b : float) : bool := SFltb a b.
Definition fgt (a b : float) : bool := SFltb b a.
Definition fle (a b : float) : bool := SFleb a b.

(** [a *= -1]: the product with -1 is exact in IEEE-754, it flips the sign
    and nothing else (NaN stays NaN). *)
Definition fneg (a : float) : float := SFopp a.

(** [abs(a)]. *)
Definition fabs (a : float) : float := SFabs a.

(** The float of an integer, as in [float(n)] or in a comparison or an
    assignment that mixes an integer with floats: the nearest value of
    the format (exact up to [2 ^ fprec F]). *)
Definition of_int (F : format) (n : Z) : float :=
  binary_normalize (fprec F) (femax F) n 0 false.

(** A float re-rounded to the format [F], as [astype] does. *)
Definition convert (F : format) (a : float) : float :=
  match a with
  | S754_finite s m e => binary_round (fprec F) (femax F) s m e
  | _ => a
  end.

(** The decimal literal [n / 10 ^ k] as a float of [F]: the operands are
    exact and the division rounds once, so this is the float nearest to
    the literal. *)
Definition literal (F : format) (n : Z) (k : nat) : float :=
  fdiv F (of_int F n) (of_int F (10 ^ Z.of_nat k)).

(** ** Exceptions *)

Inductive exn : Set :=
| ValueError
| OverflowError
| IndexError.

Definition result (A : Type) : Type := (exn + A)%type.

Definition ok {A : Type} (a : A) : result A := inr a.
Definition raise {A : Type} (e : exn) : result A := inl e.

Definition bind {A B : Type} (c : result A) (k : A -> result B) : result B :=
  match c with
  | inl e => inl e
  | inr a => k a
  end.

Notation "x <- c ;; k" := (bind c (fun x => k))
  (at level 61, c at next level, right associativity).

(** [int(a)]: truncation toward zero.  Python raises [ValueError] on NaN and
    [OverflowError] on an infinity. *)
Definition py_int (a : float) : result Z :=
  match a with
  | S754_zero _ => ok 0
  | S754_finite s m e =>
      let n := match e with
               | Zneg k => Z.shiftr (Zpos m) (Zpos k)
               | _ => Z.shiftl (Zpos m) e
               end in
      ok (if s then - n else n)
  | S754_nan => raise ValueError
  | S754_infinity _ => raise OverflowError
  end.

(** ** Domain ([sample_readable.py]) *)

Module Vector2.
Record t : Set := mk { x : float; y : float }.

Definition add (F : format) (self other : t) : t :=
  mk (fadd F (x self) (x other)) (fadd F (y self) (y other)).

Definition scale (F : format) (self : t) (factor : float) : t :=
  mk (fmul F (x self) factor) (fmul F (y self) factor).
End Vector2.

Module Color.
Record t : Set := mk { r : Z; g : Z; b : Z }.

Definition as_tuple (self : t) : Z * Z * Z := (r self, g self, b self).
End Color.

Module Bounds.
Record t : Set := mk { width : Z; height : Z }.

(** Python compares the float [x] with the integer [width - 1] exactly and
    assigns the integer itself; the model compares with, and stores, the
    float of that integer.  The two are the same while the float format
    holds [width - 1] and [height - 1] exactly, that is for sizes up to
    [2 ^ fprec F] ([2 ^ 53] for Python's floats, far beyond any window):
    there the integers [0] and [width - 1] behave in every later use
    ([+], [<], [>], [int]) as the float of the same value.  Beyond that
    size the model is not the code, and the theorems about the edge carry
    the bound. *)
Definition clamp_and_reflect (F : format) (self : t)
    (position velocity : Vector2.t) : Vector2.t * Vector2.t :=
  let x := Vector2.x position in
  let y := Vector2.y position in
  let vx := Vector2.x velocity in
  let vy := Vector2.y velocity in
  let '(x, vx) :=
    if flt x fzero then (fzero, fneg vx)
    else if fgt x (of_int F (width self - 1))
         then (of_int F (width self - 1), fneg vx)
         else (x, vx) in
  let '(y, vy) :=
    if flt y fzero then (fzero, fneg vy)
    else if fgt y (of_int F (height self - 1))
         then (of_int F (height self - 1), fneg vy)
         else (y, vy) in
  (Vector2.mk x y, Vector2.mk vx vy).
End Bounds.

Module Particle.
Record t : Set :=
  mk { position : Vector2.t; velocity : Vector2.t; color : Color.t }.

Definition step (F : format) (self : t) (bounds : Bounds.t) : t :=
  let next_pos := Vector2.add F (position self) (velocity self) in
  let '(bounded_pos, bounded_vel) :=
    Bounds.clamp_and_reflect F bounds next_pos (velocity self) in
  mk bounded_pos bounded_vel (color self).
End Particle.

Module ParticleSystem.
Record t : Set := mk { particles : list Particle.t; bounds : Bounds.t }.

Definition update (F : format) (self : t) : t :=
  mk (map (fun p => Particle.step F p (bounds self)) (particles self))
     (bounds self).
End ParticleSystem.

Module ParticleSimulation.
Definition tick (F : format) (system : ParticleSystem.t)
  : ParticleSystem.t :=
  ParticleSystem.update F system.

(** [n] calls of [tick], one per frame of the game loop. *)
Fixpoint run (F : format) (n : nat) (system : ParticleSystem.t)
  : ParticleSystem.t :=
  match n with
  | O => system
  | S k => run F k (tick F system)
  end.
End ParticleSimulation.

(** ** Infrastructure: the pygame surface *)

(** The range of a C [int] and of [np.int32]. *)
Definition c_int (n : Z) : bool := (- 2 ^ 31 <=? n) && (n <? 2 ^ 31).

(** An RGB triple of 8-bit channels. *)
Definition is_color (c : Z * Z * Z) : bool :=
  let '(r, g, b) := c in
  (0 <=? r) && (r <=? 255) && (0 <=? g) && (g <=? 255)
  && (0 <=? b) && (b <=? 255).

Module Surface.
(** A [w] by [h] grid of RGB triples; [pixel] is the backing memory. *)
Record t : Type := mk { w : Z; h : Z; pixel : Z -> Z -> Z * Z * Z }.

Definition inside (self : t) (x y : Z) : bool :=
  (0 <=? x) && (x <? w self) && (0 <=? y) && (y <? h self).

(** [Surface.fill(color)]. *)
Definition fill (self : t) (c : Z * Z * Z) : t :=
  mk (w self) (h self) (fun _ _ => c).

(** The raw store into the backing memory. *)
Definition store (self : t) (x y : Z) (c : Z * Z * Z) : t :=
  mk (w self) (h self)
     (fun i j => if (i =? x) && (j =? y) then c else pixel self i j).

(** [Surface.set_at((x, y), color)].  pygame takes the coordinates as C
    integers, returns without writing when the position is outside the
    surface's clip area (the whole surface here), and otherwise stores the
    colour, whose channels must be 8-bit. *)
Definition set_at (self : t) (pos : Z * Z) (c : Z * Z * Z) : result t :=
  let '(x, y) := pos in
  if c_int x && c_int y then
    if inside self x y then
      if is_color c then ok (store self x y c) else raise ValueError
    else ok self
  else raise OverflowError.
End Surface.

Definition black : Z * Z * Z := (0, 0, 0).

Module PygameRenderer.
Definition clear (screen : Surface.t) : Surface.t :=
  Surface.fill screen black.

(** The position of the pixel that [draw] passes to [set_at]. *)
Definition pixel_of (p : Particle.t) : result (Z * Z) :=
  xi <- py_int (Vector2.x (Particle.position p)) ;;
  yi <- py_int (Vector2.y (Particle.position p)) ;;
  ok (xi, yi).

Fixpoint draw (screen : Surface.t) (particles : list Particle.t)
  : result Surface.t :=
  match particles with
  | [] => ok screen
  | p :: rest =>
      pos <- pixel_of p ;;
      screen' <- Surface.set_at screen pos
                   (Color.as_tuple (Particle.color p)) ;;
      draw screen' rest
  end.
End PygameRenderer.

Module GameLoop.
(** [clear] then [draw]: what one frame renders. *)
Definition render (screen : Surface.t) (particles : list Particle.t)
  : result Surface.t :=
  PygameRenderer.draw (PygameRenderer.clear screen) particles.

(** The body of the [while running] loop, the event poll, [present] and
    the clock aside. *)
Definition frame (F : format) (st : ParticleSystem.t * Surface.t)
  : result (ParticleSystem.t * Surface.t) :=
  let system := ParticleSimulation.tick F (fst st) in
  screen <- render (snd st) (ParticleSystem.particles system) ;;
  ok (system, screen).

(** [n] turns of the loop; an exception ends it. *)
Fixpoint run (F : format) (n : nat) (st : ParticleSystem.t * Surface.t)
  : result (ParticleSystem.t * Surface.t) :=
  match n with
  | O => ok st
  | S k => st' <- frame F st ;; run F k st'
  end.
End GameLoop.

(** ** Composition root ([sample_readable.py]) *)

(** The integer operand of [float * int]: Python converts it to the nearest
    float and raises [OverflowError] when it is beyond the floats. *)
Definition float_of_int (n : Z) : result float :=
  let a := of_int binary64 n in
  if is_finite a then ok a else raise OverflowError.

Section CompositionRoot.
(** The state of Python's [random] module and its two draws. *)
Context {rng : Type}.
Variable random : rng -> float * rng.
Variable randrange : Z -> rng -> Z * rng.

Definition random_particle (bounds : Bounds.t) (g : rng)
  : result (Particle.t * rng) :=
  let F := binary64 in
  let '(u1, g) := random g in
  w <- float_of_int (Bounds.width bounds) ;;
  let '(u2, g) := random g in
  h <- float_of_int (Bounds.height bounds) ;;
  let position := Vector2.mk (fmul F u1 w) (fmul F u2 h) in
  let '(u3, g) := random g in
  let '(u4, g) := random g in
  let velocity :=
    Vector2.mk (fmul F (fsub F u3 (literal F 5 1)) (literal F 42 1))
               (fmul F (fsub F u4 (literal F 5 1)) (literal F 42 1)) in
  let '(c1, g) := randrange 256 g in
  let '(c2, g) := randrange 256 g in
  let '(c3, g) := randrange 256 g in
  ok (Particle.mk position velocity (Color.mk c1 c2 c3), g).

(** [random_particle(bounds) for _ in range(n)], consumed by [list]. *)
Fixpoint random_particles (n : nat) (bounds : Bounds.t) (g : rng)
  : result (list Particle.t * rng) :=
  match n with
  | O => ok ([], g)
  | S k =>
      first <- random_particle bounds g ;;
      rest <- random_particles k bounds (snd first) ;;
      ok (fst first :: fst rest, snd rest)
  end.

(** [range(count)] is empty for a negative [count].  Neither
    [build_system] nor [Bounds] nor [ParticleSystem] checks its
    arguments. *)
Definition build_system (count : Z) (bounds : Bounds.t) (g : rng)
  : result (ParticleSystem.t * rng) :=
  built <- random_particles (Z.to_nat count) bounds g ;;
  ok (ParticleSystem.mk (fst built) bounds, snd built).
End CompositionRoot.

(** ** [sample.py]: structure of arrays *)

(** The program computes on [float32] columns, that is at [binary32]; the
    operations below take the format as a parameter so that the same
    update can be compared with the one of [sample_readable.py]. *)

(** A NumPy operation on two arrays of one shape, element by element. *)
Fixpoint zip_with {A B C : Type} (f : A -> B -> C) (a : list A) (b : list B)
  : list C :=
  match a, b with
  | u :: a', v :: b' => f u v :: zip_with f a' b'
  | _, _ => []
  end.

(** The float's integer part, when it has one. *)
Definition truncate (a : float) : option Z :=
  match py_int a with
  | inr n => Some n
  | inl _ => None
  end.

Module Sample.
Definition COUNT : Z := 50000.
Definition W : Z := 960.
Definition H : Z := 540.

Record state : Set :=
  mk { P_X : list float; P_Y : list float;
       V_X : list float; V_Y : list float;
       COLOR : list (Z * Z * Z) }.

(** [a < n] and [a > n] for an array [a] and a Python integer [n]. *)
Definition np_lt (F : format) (a : list float) (n : Z) : list bool :=
  map (fun p => flt p (of_int F n)) a.

Definition np_gt (F : format) (a : list float) (n : Z) : list bool :=
  map (fun p => fgt p (of_int F n)) a.

(** [a[mask] *= -1]. *)
Definition negate_where (mask : list bool) (a : list float) : list float :=
  zip_with (fun (m : bool) v => if m then fneg v else v) mask a.

(** [np.clip(a, lo, hi)]: values smaller than [lo] become [lo], values
    larger than [hi] become [hi]. *)
Definition np_clip (F : format) (a : list float) (lo hi : Z) : list float :=
  map (fun p => if flt p (of_int F lo) then of_int F lo
                else if fgt p (of_int F hi) then of_int F hi
                else p) a.

(** Lines 33 and 34 of the main loop: the positions advance. *)
Definition integrate (F : format) (st : state) : state :=
  let P_X := zip_with (fadd F) (P_X st) (V_X st) in
  let P_Y := zip_with (fadd F) (P_Y st) (V_Y st) in
  mk P_X P_Y (V_X st) (V_Y st) (COLOR st).

(** Lines 37 to 45: the boundary bounce, for the window size [(W, H)]. *)
Definition bounce (F : format) (W H : Z) (st : state) : state :=
  let mask_x_low := np_lt F (P_X st) 0 in
  let mask_x_high := np_gt F (P_X st) (W - 1) in
  let V_X := negate_where (zip_with orb mask_x_low mask_x_high) (V_X st) in
  let P_X := np_clip F (P_X st) 0 (W - 1) in
  let mask_y_low := np_lt F (P_Y st) 0 in
  let mask_y_high := np_gt F (P_Y st) (H - 1) in
  let V_Y := negate_where (zip_with orb mask_y_low mask_y_high) (V_Y st) in
  let P_Y := np_clip F (P_Y st) 0 (H - 1) in
  mk P_X P_Y V_X V_Y (COLOR st).

Definition update (F : format) (W H : Z) (st : state) : state :=
  bounce F W H (integrate F st).

(** [a.astype(np.int32)]: truncation toward zero.  NumPy leaves the result
    undefined ([None]) when the integer part does not fit. *)
Definition int32 (a : float) : option Z :=
  match truncate a with
  | Some n => if c_int n then Some n else None
  | None => None
  end.

Fixpoint astype_int32 (a : list float) : option (list Z) :=
  match a with
  | [] => Some []
  | p :: a' =>
      match int32 p, astype_int32 a' with
      | Some n, Some l => Some (n :: l)
      | _, _ => None
      end
  end.

(** An index into an axis of length [size]: a negative one counts from
    the end, anything else out of range raises. *)
Definition np_index (size i : Z) : result Z :=
  if (0 <=? i) && (i <? size) then ok i
  else if (- size <=? i) && (i <? 0) then ok (i + size)
  else raise IndexError.

Fixpoint indices (w h : Z) (xi yi : list Z) : result (list (Z * Z)) :=
  match xi, yi with
  | i :: xi', j :: yi' =>
      i' <- np_index w i ;;
      j' <- np_index h j ;;
      rest <- indices w h xi' yi' ;;
      ok ((i', j') :: rest)
  | _, _ => ok []
  end.

Fixpoint store_all (arr : Surface.t) (pos : list (Z * Z))
    (c : list (Z * Z * Z)) : Surface.t :=
  match pos, c with
  | (i, j) :: pos', k :: c' => store_all (Surface.store arr i j k) pos' c'
  | _, _ => arr
  end.

(** [arr[xi, yi] = c]: the indices are checked, then the elements are
    stored first to last. *)
Definition assign (arr : Surface.t) (xi yi : list Z) (c : list (Z * Z * Z))
  : result Surface.t :=
  pos <- indices (Surface.w arr) (Surface.h arr) xi yi ;;
  ok (store_all arr pos c).

(** Lines 48 to 53 of the main loop; [arr] is a view of the screen. *)
Definition draw (screen : Surface.t) (st : state)
  : option (result Surface.t) :=
  let arr := Surface.fill screen black in
  match astype_int32 (P_X st), astype_int32 (P_Y st) with
  | Some xi, Some yi => Some (assign arr xi yi (COLOR st))
  | _, _ => None
  end.

(** [n] passes of the update. *)
Fixpoint run (F : format) (W H : Z) (n : nat) (st : state) : state :=
  match n with
  | O => st
  | S k => run F W H k (update F W H st)
  end.

(** Lines 18 to 21: the columns built from the four arrays that
    [np.random.rand(COUNT)] returns. *)
Definition init_position (F : format) (size : Z) (r : list float)
  : list float :=
  map (fun u => fmul F (convert F u) (of_int F size)) r.

Definition init_velocity (F : format) (r : list float) : list float :=
  map (fun u => fmul F (fsub F (convert F u)
                               (convert F (literal binary64 5 1)))
                       (convert F (literal binary64 42 1))) r.
End Sample.

(** The population of [sample_readable.py] laid out as the columns of
    [sample.py]. *)
Definition columns (ps : list Particle.t) : Sample.state :=
  Sample.mk (map (fun p => Vector2.x (Particle.position p)) ps)
            (map (fun p => Vector2.y (Particle.position p)) ps)
            (map (fun p => Vector2.x (Particle.velocity p)) ps)
            (map (fun p => Vector2.y (Particle.velocity p)) ps)
            (map (fun p => Color.as_tuple (Particle.color p)) ps).

(** ** The properties, as predicates on the model *)

(** BoundaryReflector's rule for one axis of size [axisSize], in the words
    of the specification. *)
Definition reflect_rule (F : format) (axisSize : Z) (position velocity : float)
  : float * float :=
  if flt position fzero then (fzero, fneg velocity)
  else if fgt position (of_int F (axisSize - 1))
       then (of_int F (axisSize - 1), fneg velocity)
       else (position, velocity).

(** [0 <= p <= size - 1]. *)
Definition within (F : format) (size : Z) (p : float) : bool :=
  fle fzero p && fle p (of_int F (size - 1)).

Definition in_bounds (F : format) (b : Bounds.t) (p : Particle.t) : bool :=
  within F (Bounds.width b) (Vector2.x (Particle.position p))
  && within F (Bounds.height b) (Vector2.y (Particle.position p)).

(** No NaN position and a finite velocity: what the update rule is meant
    to run on. *)
Definition well_formed (p : Particle.t) : bool :=
  negb (is_nan (Vector2.x (Particle.position p)))
  && negb (is_nan (Vector2.y (Particle.position p)))
  && is_finite (Vector2.x (Particle.velocity p))
  && is_finite (Vector2.y (Particle.velocity p)).

(** Every coordinate of the particle is a value of the format [F]. *)
Definition representable (F : format) (p : Particle.t) : bool :=
  is_float F (Vector2.x (Particle.position p))
  && is_float F (Vector2.y (Particle.position p))
  && is_float F (Vector2.x (Particle.velocity p))
  && is_float F (Vector2.y (Particle.velocity p)).

(** A value with the sign [s] that is not NaN. *)
Definition signed (s : bool) (a : float) : bool :=
  match a with
  | S754_zero s' | S754_infinity s' | S754_finite s' _ _ => Bool.eqb s s'
  | S754_nan => false
  end.

(** ** The real value of a float *)

Definition bpow (e : Z) : R := powerRZ 2 e.

Definition F2R (m e : Z) : R := (IZR m * bpow e)%R.

Definition B2R (a : float) : R :=
  match a with
  | S754_finite s m e => F2R (if s then Zneg m else Zpos m) e
  | _ => 0%R
  end.

(** The magnitude of a float. *)
Definition mag (a : float) : R :=
  match a with
  | S754_finite _ m e => F2R (Zpos m) e
  | _ => 0%R
  end.

(** [0 <= p <= size - 1], read on the real value of a finite [p]. *)
Definition real_within (size : Z) (p : float) : Prop :=
  is_finite p = true /\ (0 <= B2R p <= IZR (size - 1))%R.

(** A finite value of the format whose magnitude is at most [B]. *)
Definition fits (F : format) (a : float) (B : R) : Prop :=
  is_finite a = true /\ is_float F a = true /\ (mag a <= B)%R.

(** A draw of [random.random()] or [np.random.rand]: a binary64 value in
    [[0.0, 1.0)]. *)
Definition unit_interval (u : float) : bool :=
  is_float binary64 u && fle fzero u && flt u (of_int binary64 1).

(** What construction establishes: [0 <= x <= width], [0 <= y <= height]
    and both speeds at most the float [2.1]. *)
Definition constructed (F : format) (b : Bounds.t) (p : Particle.t) : bool :=
  fle fzero (Vector2.x (Particle.position p))
  && fle (Vector2.x (Particle.position p)) (of_int F (Bounds.width b))
  && fle fzero (Vector2.y (Particle.position p))
  && fle (Vector2.y (Particle.position p)) (of_int F (Bounds.height b))
  && fle (fabs (Vector2.x (Particle.velocity p))) (literal F 21 1)
  && fle (fabs (Vector2.y (Particle.velocity p))) (literal F 21 1).

(** The same with the inclusive pixel range [width - 1], [height - 1]. *)
Definition constructed_in_bounds (F : format) (b : Bounds.t) (p : Particle.t)
  : bool :=
  in_bounds F b p
  && fle (fabs (Vector2.x (Particle.velocity p))) (literal F 21 1)
  && fle (fabs (Vector2.y (Particle.velocity p))) (literal F 21 1).

(** A generator that returns the same draws every time. *)
Definition constant_random (u : float) (g : unit) : float * unit := (u, g).
Definition constant_randrange (c : Z) (n : Z) (g : unit) : Z * unit := (c, g).


(** [n] is the integer part of [a]: rounded toward zero. *)
Definition truncated (a : float) (n : Z) : Prop :=
  (Rabs (IZR n) <= Rabs (B2R a) < Rabs (IZR n) + 1)%R
  /\ ((0 <= B2R a)%R -> 0 <= n) /\ ((B2R a <= 0)%R -> n <= 0).

(** The surface after a [set_at] that returned. *)
Definition placed (s : Surface.t) (pos : Z * Z) (c : Z * Z * Z) : Surface.t :=
  let '(x, y) := pos in
  if Surface.inside s x y then Surface.store s x y c else s.

(** The particle lands on a pixel of the surface. *)
Definition lands_inside (screen : Surface.t) (p : Particle.t) : Prop :=
  exists i j, PygameRenderer.pixel_of p = ok (i, j)
              /\ Surface.inside screen i j = true.

(** BoundaryReflector's rule on both axes of a particle. *)
Definition reflect_particle_rule (F : format) (b : Bounds.t) (p : Particle.t)
  : Particle.t :=
  let rx := reflect_rule F (Bounds.width b)
              (Vector2.x (Particle.position p))
              (Vector2.x (Particle.velocity p)) in
  let ry := reflect_rule F (Bounds.height b)
              (Vector2.y (Particle.position p))
              (Vector2.y (Particle.velocity p)) in
  Particle.mk (Vector2.mk (fst rx) (fst ry)) (Vector2.mk (snd rx) (snd ry))
              (Particle.color p).

(** What [draw] accepts without raising: finite coordinates whose integer
    parts fit a C [int], and a colour of 8-bit channels. *)
Definition drawable (p : Particle.t) : Prop :=
  exists i j, PygameRenderer.pixel_of p = ok (i, j)
              /\ c_int i = true /\ c_int j = true
              /\ is_color (Color.as_tuple (Particle.color p)) = true.

(** ** Sample data *)

Definition window : Bounds.t := Bounds.mk Sample.W Sample.H.

(** The particle of the specification's reflection law: [x = -1] with
    [vx = -2], here with [y = 5] and [vy = 0]. *)
Definition leaving_left : Particle.t :=
  Particle.mk (Vector2.mk (of_int binary64 (-1)) (of_int binary64 5))
              (Vector2.mk (of_int binary64 (-2)) (of_int binary64 0))
              (Color.mk 255 0 0).

(** Two particles on the pixel [(5, 5)] and one outside a 10 by 10
    surface. *)
Definition red_at_5_5 : Particle.t :=
  Particle.mk (Vector2.mk (literal binary64 59 1) (literal binary64 52 1))
              (Vector2.mk fzero fzero) (Color.mk 255 0 0).

Definition blue_at_5_5 : Particle.t :=
  Particle.mk (Vector2.mk (of_int binary64 5) (literal binary64 57 1))
              (Vector2.mk fzero fzero) (Color.mk 0 0 255).

Definition green_outside : Particle.t :=
  Particle.mk (Vector2.mk (of_int binary64 (-3)) (of_int binary64 12))
              (Vector2.mk fzero fzero) (Color.mk 0 255 0).

Definition small_screen : Surface.t :=
  Surface.mk 10 10 (fun _ _ => (7, 7, 7)).

(** A [float32] particle at [(1, 1)] whose [vx] is [2 ^ -24]: half the gap
    between 1 and the next [float32]. *)
Definition slow_float32 : Particle.t :=
  Particle.mk (Vector2.mk (of_int binary32 1) (of_int binary32 1))
              (Vector2.mk (S754_finite false 8388608 (-47)) fzero)
              (Color.mk 255 255 255).

(** The draw [1023 / 1024] of the unit interval. *)
Definition high_draw : float :=
  fdiv binary64 (of_int binary64 1023) (of_int binary64 1024).

(** The particle after [clamp_and_reflect], the position not advanced. *)
Definition reflected (F : format) (b : Bounds.t) (p : Particle.t)
  : Particle.t :=
  let '(pos, vel) :=
    Bounds.clamp_and_reflect F b (Particle.position p) (Particle.velocity p)
  in Particle.mk pos vel (Particle.color p).

(** The particle after [Vector2.add], not yet reflected. *)
Definition advanced (F : format) (p : Particle.t) : Particle.t :=
  Particle.mk (Vector2.add F (Particle.position p) (Particle.velocity p))
              (Particle.velocity p) (Particle.color p).

(** After [k] right shifts of [m]: the quotient, and whether bits were
    lost. *)
Definition shr_inv (m k : Z) (mrs : shr_record) : Prop :=
  shr_m mrs = m / 2 ^ k
  /\ (shr_r mrs || shr_s mrs = false <-> m mod 2 ^ k = 0).

(** ** The loops, the entry point and the colours of [sample.py] *)

Module pygame.
(** An event of the queue; the loops read its [type] only. *)
Record event : Set := Event { type : Z }.

(** [pygame.QUIT], SDL's quit event. *)
Definition QUIT : Z := 256.
End pygame.

(** [for event in pygame.event.get(): if event.type == pygame.QUIT:
    running = False], from the value [running] has before. *)
Definition poll_events (events : list pygame.event) (running : bool) : bool :=
  fold_left (fun (running : bool) event =>
               if pygame.type event =? pygame.QUIT then false else running)
            events running.

(** The [while running] loop of both programs.  [batches] holds what the
    successive calls of [pygame.event.get()] return.  A turn polls the
    events and then runs the frame; [running] is tested when the next turn
    would start, so the loop is entered with [running] true.  The result
    carries the state and the value of [running]: false when the loop has
    ended, true when the batches ran out with the loop still on. *)
Fixpoint while_running {St Err : Type} (frame : St -> Err + St)
    (batches : list (list pygame.event)) (st : St) : Err + (St * bool) :=
  match batches with
  | [] => inr (st, true)
  | events :: rest =>
      let running := poll_events events true in
      match frame st with
      | inl e => inl e
      | inr st' =>
          if running then while_running frame rest st' else inr (st', false)
      end
  end.

(** [n] frames one after the other; the first exception ends them. *)
Fixpoint frames {St Err : Type} (frame : St -> Err + St) (n : nat) (st : St)
  : Err + St :=
  match n with
  | O => inr st
  | S k =>
      match frame st with
      | inl e => inl e
      | inr st' => frames frame k st'
      end
  end.

(** [main()] of [sample_readable.py], from the state of [random], the
    memory of the new window and the batches of events: the window is 960
    by 540, the system holds 50,000 particles, and the game loop runs on
    Python floats.  [pygame.init], the caption, [present] and the clock
    have no part in the state. *)
Definition main {rng : Type} (random : rng -> float * rng)
    (randrange : Z -> rng -> Z * rng) (g : rng)
    (memory : Z -> Z -> Z * Z * Z) (batches : list (list pygame.event))
  : result (ParticleSystem.t * Surface.t * bool) :=
  let width := 960 in
  let height := 540 in
  let bounds := Bounds.mk width height in
  let screen := Surface.mk width height memory in
  built <- build_system random randrange 50000 bounds g ;;
  while_running (GameLoop.frame binary64) batches (fst built, screen).

(** What ends a frame of [sample.py] early: an exception, or a conversion
    whose result NumPy leaves undefined. *)
Inductive fault : Set :=
| Raised (e : exn)
| Undefined.

(** Lines 32 to 53 of [sample.py]: one turn of its main loop, the event
    poll, the flip and the clock aside. *)
Definition sample_frame (F : format) (W H : Z)
    (st : Sample.state * Surface.t) : fault + (Sample.state * Surface.t) :=
  let cols := Sample.update F W H (fst st) in
  match Sample.draw (snd st) cols with
  | Some (inr screen) => inr (cols, screen)
  | Some (inl e) => inl (Raised e)
  | None => inl Undefined
  end.

(** [a.astype(np.uint8)]: truncation toward zero, undefined when the
    integer part is not a byte. *)
Definition uint8 (a : float) : option Z :=
  match truncate a with
  | Some n => if (0 <=? n) && (n <=? 255) then Some n else None
  | None => None
  end.

(** Line 24 of [sample.py]: a row of [np.random.rand(COUNT, 3) * 255]
    converted to bytes.  The product is a binary64 one. *)
Definition init_color (row : float * float * float) : option (Z * Z * Z) :=
  let '(r, g, b) := row in
  let scale (u : float) := uint8 (fmul binary64 u (of_int binary64 255)) in
  match scale r, scale g, scale b with
  | Some r', Some g', Some b' => Some (r', g', b')
  | _, _, _ => None
  end.

Fixpoint init_colors (rows : list (float * float * float))
  : option (list (Z * Z * Z)) :=
  match rows with
  | [] => Some []
  | row :: rows' =>
      match init_color row, init_colors rows' with
      | Some c, Some l => Some (c :: l)
      | _, _ => None
      end
  end.

(** Lines 18 to 24: the state that [sample.py] starts from, given the five
    arrays that [np.random.rand] returns. *)
Definition sample_init (rx ry rvx rvy : list float)
    (rows : list (float * float * float)) : option Sample.state :=
  match init_colors rows with
  | Some c =>
      Some (Sample.mk (Sample.init_position binary32 Sample.W rx)
                      (Sample.init_position binary32 Sample.H ry)
                      (Sample.init_velocity binary32 rvx)
                      (Sample.init_velocity binary32 rvy)
                      c)
  | None => None
  end.

(** The rows of a state: the particles whose columns it holds. *)
Fixpoint particles_of (px py vx vy : list float) (c : list (Z * Z * Z))
  : list Particle.t :=
  match px, py, vx, vy, c with
  | x :: px', y :: py', u :: vx', v :: vy', (r, g, b) :: c' =>
      Particle.mk (Vector2.mk x y) (Vector2.mk u v) (Color.mk r g b)
      :: particles_of px' py' vx' vy' c'
  | _, _, _, _, _ => []
  end.

(** The five columns are of one length. *)
Definition aligned (st : Sample.state) : Prop :=
  length (Sample.P_Y st) = length (Sample.P_X st)
  /\ length (Sample.V_X st) = length (Sample.P_X st)
  /\ length (Sample.V_Y st) = length (Sample.P_X st)
  /\ length (Sample.COLOR st) = length (Sample.P_X st).

(** The colour of the particle is one that [set_at] accepts. *)
Definition paintable (p : Particle.t) : bool :=
  is_color (Color.as_tuple (Particle.color p)).

(** What a frame needs of a particle to run without an exception: no NaN
    position, a finite velocity, coordinates that are values of the format
    and a colour of 8-bit channels. *)
Definition runnable (F : format) (p : Particle.t) : bool :=
  well_formed p && representable F p && paintable p.

(** A row of [np.random.rand(COUNT, 3)]: three draws of [[0, 1)]. *)
Definition unit_row (row : float * float * float) : bool :=
  let '(r, g, b) := row in
  unit_interval r && unit_interval g && unit_interval b.

(** Every channel of the colour is at most [top]. *)
Definition channels_up_to (top : Z) (c : Z * Z * Z) : bool :=
  let '(r, g, b) := c in
  (0 <=? r) && (r <=? top) && (0 <=? g) && (g <=? top)
  && (0 <=? b) && (b <=? top).

(** Both speeds of the particle are at most the float [2.1]. *)
Definition slow (F : format) (p : Particle.t) : bool :=
  fle (fabs (Vector2.x (Particle.velocity p))) (literal F 21 1)
  && fle (fabs (Vector2.y (Particle.velocity p))) (literal F 21 1).

(** The screen that [pygame.display.set_mode((W, H))] opens, black. *)
Definition window_screen : Surface.t :=
  Surface.mk Sample.W Sample.H (fun _ _ => black).

(** Events: a key press, and the request to close the window. *)
Definition key_down : pygame.event := pygame.Event 768.
Definition quit : pygame.event := pygame.Event pygame.QUIT.

(** A particle whose [x] is NaN. *)
Definition lost : Particle.t :=
  Particle.mk (Vector2.mk S754_nan (of_int binary64 5))
              (Vector2.mk fzero fzero) (Color.mk 0 255 0).

(** A particle whose [x] is [2 ^ 31], one more than a C [int] holds. *)
Definition far_right : Particle.t :=
  Particle.mk (Vector2.mk (of_int binary64 (2 ^ 31)) (of_int binary64 5))
              (Vector2.mk fzero fzero) (Color.mk 0 255 0).

(** A particle inside the window that moves by [(3, -2)] a frame. *)
Definition cruising : Particle.t :=
  Particle.mk (Vector2.mk (of_int binary64 10) (of_int binary64 20))
              (Vector2.mk (of_int binary64 3) (of_int binary64 (-2)))
              (Color.mk 0 0 255).

(** A particle on the left edge that moves left. *)
Definition on_left_edge : Particle.t :=
  Particle.mk (Vector2.mk fzero (of_int binary64 5))
              (Vector2.mk (of_int binary64 (-2)) fzero)
              (Color.mk 255 0 0).

(** Two surfaces of one size that show the same image. *)
Definition same_image (s1 s2 : Surface.t) : Prop :=
  Surface.w s1 = Surface.w s2 /\ Surface.h s1 = Surface.h s2
  /\ forall x y, Surface.pixel s1 x y = Surface.pixel s2 x y.

(** Two renders that end alike: the same exception, or the same image. *)
Definition same_render (r1 r2 : result Surface.t) : Prop :=
  match r1, r2 with
  | inr out1, inr out2 => same_image out1 out2
  | inl e1, inl e2 => e1 = e2
  | _, _ => False
  end.

(** * Facts about the floats *)

Lemma bind_ok {A B : Type} (a : A) (k : A -> result B) :
  bind (ok a) k = k a.
Proof. reflexivity. Qed.

Section Comparison.
Lemma SFcompare_antisym (a b : float) :
  SFcompare b a = option_map CompOpp (SFcompare a b).
Proof.
  destruct a as [sa|sa| |sa ma ea], b as [sb|sb| |sb mb eb]; simpl;
    try reflexivity;
    try (destruct sa; reflexivity);
    try (destruct sb; reflexivity);
    try (destruct sa, sb; reflexivity).
  destruct sa, sb; simpl; try reflexivity;
    rewrite (Z.compare_antisym ea eb);
    destruct (ea ?= eb); simpl; try reflexivity;
    fold (Pos.compare mb ma); fold (Pos.compare ma mb);
    rewrite (Pos.compare_antisym ma mb);
    destruct (ma ?= mb)%positive; reflexivity.
Qed.

Lemma SFcompare_refl (a : float) :
  is_nan a = false -> SFcompare a a = Some Eq.
Proof.
  destruct a as [s|s| |s m e]; simpl; intros H;
    try discriminate; try (destruct s; reflexivity).
  fold (Pos.compare m m).
  destruct s; rewrite Z.compare_refl, Pos.compare_refl; reflexivity.
Qed.

Lemma SFcompare_nan (a b : float) :
  is_nan a = false -> is_nan b = false -> SFcompare a b <> None.
Proof.
  destruct a, b; simpl; intros; congruence.
Qed.

Lemma flt_irrefl (a : float) : flt a a = false.
Proof.
  unfold flt, SFltb.
  destruct (is_nan a) eqn:Hn.
  - destruct a; try discriminate; reflexivity.
  - rewrite SFcompare_refl by assumption. reflexivity.
Qed.

Lemma fle_refl (a : float) : is_nan a = false -> fle a a = true.
Proof.
  intros H. unfold fle, SFleb. rewrite SFcompare_refl by assumption.
  reflexivity.
Qed.

(** Without NaN the order is total: what is not above is below or equal. *)
Lemma not_flt_fle (a b : float) :
  is_nan a = false -> is_nan b = false -> flt b a = false -> fle a b = true.
Proof.
  intros Ha Hb. unfold flt, fle, SFltb, SFleb.
  rewrite (SFcompare_antisym a b).
  pose proof (SFcompare_nan a b Ha Hb) as Hc.
  destruct (SFcompare a b) as [[]|]; simpl; congruence.
Qed.

End Comparison.

Section Negation.
Lemma fabs_fneg (a : float) : fabs (fneg a) = fabs a.
Proof. destruct a; reflexivity. Qed.

Lemma is_finite_fneg (a : float) : is_finite (fneg a) = is_finite a.
Proof. destruct a; reflexivity. Qed.

End Negation.

(** ** The shape of a rounded result *)

Section RoundShape.
Variables prec emax : Z.

Lemma iter_pos_invariant {A : Type} (P : A -> Prop) (f : A -> A) :
  (forall a, P a -> P (f a)) ->
  forall (p : positive) (a : A), P a -> P (iter_pos f p a).
Proof.
  intros Hf. induction p as [p IH|p IH|]; simpl; intros a Ha; auto.
Qed.

Lemma shr_1_nonneg (mrs : shr_record) :
  0 <= shr_m mrs -> 0 <= shr_m (shr_1 mrs).
Proof.
  destruct mrs as [m r s]. simpl.
  destruct m as [|[p|p|]|[p|p|]]; simpl; lia.
Qed.

Lemma shr_nonneg (mrs : shr_record) (e n : Z) :
  0 <= shr_m mrs -> 0 <= shr_m (fst (shr mrs e n)).
Proof.
  intros H. destruct n as [|p|p]; simpl; auto.
  apply iter_pos_invariant with (P := fun a => 0 <= shr_m a); auto.
  apply shr_1_nonneg.
Qed.

Lemma shr_fexp_nonneg (m e : Z) (l : location) :
  0 <= m -> 0 <= shr_m (fst (shr_fexp prec emax m e l)).
Proof.
  intros H. unfold shr_fexp. apply shr_nonneg.
  destruct l as [|[]]; simpl; exact H.
Qed.

Lemma round_nearest_even_nonneg (m : Z) (l : location) :
  0 <= m -> 0 <= round_nearest_even m l.
Proof.
  intros H. destruct l as [|[]]; simpl; try lia.
  destruct (Z.even m); lia.
Qed.

Lemma binary_round_aux_signed (sx : bool) (mx ex : Z) (lx : location) :
  0 <= mx -> signed sx (binary_round_aux prec emax sx mx ex lx) = true.
Proof.
  intros H. unfold binary_round_aux.
  pose proof (shr_fexp_nonneg mx ex lx H) as H1.
  destruct (shr_fexp prec emax mx ex lx) as [mrs' e']. simpl in H1.
  pose proof (shr_fexp_nonneg
                (round_nearest_even (shr_m mrs') (loc_of_shr_record mrs'))
                e' loc_Exact (round_nearest_even_nonneg _ _ H1)) as H2.
  destruct (shr_fexp prec emax _ e' loc_Exact) as [mrs'' e'']. simpl in H2.
  destruct (shr_m mrs'') as [|m|m]; simpl.
  - apply eqb_reflx.
  - destruct (e'' <=? emax - prec); simpl; apply eqb_reflx.
  - lia.
Qed.

Lemma binary_round_signed (sx : bool) (mx : positive) (ex : Z) :
  signed sx (binary_round prec emax sx mx ex) = true.
Proof.
  unfold binary_round.
  destruct (shl_align mx ex _) as [mz ez].
  apply binary_round_aux_signed. lia.
Qed.

Lemma binary_normalize_not_nan (m e : Z) (szero : bool) :
  is_nan (binary_normalize prec emax m e szero) = false.
Proof.
  destruct m as [|p|p]; simpl; try reflexivity.
  - pose proof (binary_round_signed false p e) as H.
    destruct (binary_round prec emax false p e); simpl in *; congruence.
  - pose proof (binary_round_signed true p e) as H.
    destruct (binary_round prec emax true p e); simpl in *; congruence.
Qed.

Lemma binary_normalize_nonneg (m e : Z) :
  0 <= m -> signed false (binary_normalize prec emax m e false) = true.
Proof.
  destruct m as [|p|p]; simpl; intros H; try reflexivity; try lia.
  apply binary_round_signed.
Qed.
End RoundShape.

Lemma signed_false_nonneg (a : float) :
  signed false a = true -> fle fzero a = true /\ flt a fzero = false.
Proof.
  destruct a as [s|s| |s m e]; simpl; try discriminate;
    destruct s; simpl; try discriminate; auto.
Qed.

Lemma of_int_not_nan (F : format) (n : Z) : is_nan (of_int F n) = false.
Proof. apply binary_normalize_not_nan. Qed.

Lemma of_int_nonneg (F : format) (n : Z) :
  0 <= n -> fle fzero (of_int F n) = true /\ flt (of_int F n) fzero = false.
Proof.
  intros H. apply signed_false_nonneg. apply binary_normalize_nonneg, H.
Qed.

(** A sum is NaN only if an operand is NaN or the operands are infinities
    of opposite signs. *)
Lemma fadd_not_nan (F : format) (a b : float) :
  is_nan a = false -> is_finite b = true -> is_nan (fadd F a b) = false.
Proof.
  unfold fadd.
  destruct a as [sa|sa| |sa ma ea], b as [sb|sb| |sb mb eb]; simpl;
    intros Ha Hb; try discriminate; try reflexivity.
  - destruct sa, sb; reflexivity.
  - apply binary_normalize_not_nan.
Qed.

(** * The boundary reflector *)

Section Reflector.
Variable F : format.

Lemma clamp_and_reflect_rule (b : Bounds.t) (position velocity : Vector2.t) :
  Bounds.clamp_and_reflect F b position velocity =
  let rx := reflect_rule F (Bounds.width b)
              (Vector2.x position) (Vector2.x velocity) in
  let ry := reflect_rule F (Bounds.height b)
              (Vector2.y position) (Vector2.y velocity) in
  (Vector2.mk (fst rx) (fst ry), Vector2.mk (snd rx) (snd ry)).
Proof.
  unfold Bounds.clamp_and_reflect, reflect_rule.
  destruct (flt (Vector2.x position) fzero);
    destruct (fgt (Vector2.x position) (of_int F (Bounds.width b - 1)));
    destruct (flt (Vector2.y position) fzero);
    destruct (fgt (Vector2.y position) (of_int F (Bounds.height b - 1)));
    reflexivity.
Qed.

Lemma reflect_rule_cases (size : Z) (p v : float) :
  (flt p fzero = true /\ reflect_rule F size p v = (fzero, fneg v))
  \/ (flt p fzero = false /\ fgt p (of_int F (size - 1)) = true
      /\ reflect_rule F size p v = (of_int F (size - 1), fneg v))
  \/ (flt p fzero = false /\ fgt p (of_int F (size - 1)) = false
      /\ reflect_rule F size p v = (p, v)).
Proof.
  unfold reflect_rule.
  destruct (flt p fzero); [left; auto|].
  destruct (fgt p (of_int F (size - 1))); [right; left; auto|].
  right; right; auto.
Qed.

Lemma reflect_rule_at_zero (size : Z) (v : float) :
  1 <= size -> reflect_rule F size fzero v = (fzero, v).
Proof.
  intros H. unfold reflect_rule. simpl (flt fzero fzero). cbv iota.
  unfold fgt. fold (flt (of_int F (size - 1)) fzero).
  destruct (of_int_nonneg F (size - 1)) as [_ ->]; [lia|reflexivity].
Qed.

Lemma reflect_rule_at_edge (size : Z) (v : float) :
  1 <= size ->
  reflect_rule F size (of_int F (size - 1)) v = (of_int F (size - 1), v).
Proof.
  intros H. unfold reflect_rule.
  destruct (of_int_nonneg F (size - 1)) as [_ ->]; [lia|].
  unfold fgt. fold (flt (of_int F (size - 1)) (of_int F (size - 1))).
  rewrite flt_irrefl. reflexivity.
Qed.

Lemma reflect_rule_idempotent (size : Z) (p v : float) :
  1 <= size ->
  reflect_rule F size (fst (reflect_rule F size p v))
                      (snd (reflect_rule F size p v))
  = reflect_rule F size p v.
Proof.
  intros H.
  destruct (reflect_rule_cases size p v)
    as [[_ ->]|[(_ & _ & ->)|(Hlo & Hhi & ->)]]; simpl.
  - apply reflect_rule_at_zero, H.
  - apply reflect_rule_at_edge, H.
  - unfold reflect_rule. rewrite Hlo, Hhi. reflexivity.
Qed.

Lemma reflect_rule_speed (size : Z) (p v : float) :
  fabs (snd (reflect_rule F size p v)) = fabs v.
Proof.
  destruct (reflect_rule_cases size p v)
    as [[_ ->]|[(_ & _ & ->)|(_ & _ & ->)]]; simpl;
    auto using fabs_fneg.
Qed.

Lemma reflect_rule_finite (size : Z) (p v : float) :
  is_finite (snd (reflect_rule F size p v)) = is_finite v.
Proof.
  destruct (reflect_rule_cases size p v)
    as [[_ ->]|[(_ & _ & ->)|(_ & _ & ->)]]; simpl;
    auto using is_finite_fneg.
Qed.

Lemma reflect_rule_not_nan (size : Z) (p v : float) :
  is_nan p = false -> is_nan (fst (reflect_rule F size p v)) = false.
Proof.
  intros Hp.
  destruct (reflect_rule_cases size p v)
    as [[_ ->]|[(_ & _ & ->)|(_ & _ & ->)]]; simpl;
    auto using of_int_not_nan.
Qed.

Lemma reflect_rule_within (size : Z) (p v : float) :
  1 <= size -> is_nan p = false ->
  within F size (fst (reflect_rule F size p v)) = true.
Proof.
  intros H Hp. unfold within.
  destruct (of_int_nonneg F (size - 1)) as [Hle Hlt]; [lia|].
  pose proof (of_int_not_nan F (size - 1)) as Hn.
  destruct (reflect_rule_cases size p v)
    as [[_ ->]|[(_ & _ & ->)|(Hlo & Hhi & ->)]]; simpl fst.
  - rewrite Hle. reflexivity.
  - rewrite Hle, fle_refl by assumption. reflexivity.
  - rewrite (not_flt_fle fzero p), (not_flt_fle p (of_int F (size - 1)));
      auto.
Qed.
End Reflector.

(** * One frame of the per-particle update *)

Section Step.
Variable F : format.
Variable b : Bounds.t.

Lemma step_position_x (p : Particle.t) :
  Vector2.x (Particle.position (Particle.step F p b)) =
  fst (reflect_rule F (Bounds.width b)
         (fadd F (Vector2.x (Particle.position p))
                 (Vector2.x (Particle.velocity p)))
         (Vector2.x (Particle.velocity p))).
Proof.
  unfold Particle.step. rewrite clamp_and_reflect_rule. reflexivity.
Qed.

Lemma step_position_y (p : Particle.t) :
  Vector2.y (Particle.position (Particle.step F p b)) =
  fst (reflect_rule F (Bounds.height b)
         (fadd F (Vector2.y (Particle.position p))
                 (Vector2.y (Particle.velocity p)))
         (Vector2.y (Particle.velocity p))).
Proof.
  unfold Particle.step. rewrite clamp_and_reflect_rule. reflexivity.
Qed.

Lemma step_velocity_x (p : Particle.t) :
  Vector2.x (Particle.velocity (Particle.step F p b)) =
  snd (reflect_rule F (Bounds.width b)
         (fadd F (Vector2.x (Particle.position p))
                 (Vector2.x (Particle.velocity p)))
         (Vector2.x (Particle.velocity p))).
Proof.
  unfold Particle.step. rewrite clamp_and_reflect_rule. reflexivity.
Qed.

Lemma step_velocity_y (p : Particle.t) :
  Vector2.y (Particle.velocity (Particle.step F p b)) =
  snd (reflect_rule F (Bounds.height b)
         (fadd F (Vector2.y (Particle.position p))
                 (Vector2.y (Particle.velocity p)))
         (Vector2.y (Particle.velocity p))).
Proof.
  unfold Particle.step. rewrite clamp_and_reflect_rule. reflexivity.
Qed.

Lemma step_color (p : Particle.t) :
  Particle.color (Particle.step F p b) = Particle.color p.
Proof.
  unfold Particle.step.
  destruct (Bounds.clamp_and_reflect F b _ _). reflexivity.
Qed.

Lemma well_formed_inv (p : Particle.t) :
  well_formed p = true <->
  is_nan (Vector2.x (Particle.position p)) = false
  /\ is_nan (Vector2.y (Particle.position p)) = false
  /\ is_finite (Vector2.x (Particle.velocity p)) = true
  /\ is_finite (Vector2.y (Particle.velocity p)) = true.
Proof.
  unfold well_formed. rewrite !andb_true_iff, !negb_true_iff. tauto.
Qed.

Lemma step_well_formed (p : Particle.t) :
  well_formed p = true -> well_formed (Particle.step F p b) = true.
Proof.
  rewrite !well_formed_inv. intros (Hx & Hy & Hvx & Hvy).
  rewrite step_position_x, step_position_y, step_velocity_x, step_velocity_y.
  rewrite !reflect_rule_finite.
  repeat split; auto using reflect_rule_not_nan, fadd_not_nan.
Qed.

Lemma step_in_bounds (p : Particle.t) :
  1 <= Bounds.width b -> 1 <= Bounds.height b ->
  well_formed p = true -> in_bounds F b (Particle.step F p b) = true.
Proof.
  intros Hw Hh. rewrite well_formed_inv. intros (Hx & Hy & Hvx & Hvy).
  unfold in_bounds. rewrite step_position_x, step_position_y.
  rewrite !reflect_rule_within; auto using fadd_not_nan.
Qed.
End Step.

(** * Frames *)

Section Frames.
Variable F : format.

Lemma tick_bounds (s : ParticleSystem.t) :
  ParticleSystem.bounds (ParticleSimulation.tick F s)
  = ParticleSystem.bounds s.
Proof. reflexivity. Qed.

Lemma run_bounds (n : nat) (s : ParticleSystem.t) :
  ParticleSystem.bounds (ParticleSimulation.run F n s)
  = ParticleSystem.bounds s.
Proof.
  revert s. induction n as [|n IH]; intros s; simpl; [reflexivity|].
  rewrite IH. apply tick_bounds.
Qed.

Lemma run_succ (n : nat) (s : ParticleSystem.t) :
  ParticleSimulation.run F (S n) s
  = ParticleSimulation.tick F (ParticleSimulation.run F n s).
Proof.
  revert s. induction n as [|n IH]; intros s; [reflexivity|].
  change (ParticleSimulation.run F (S (S n)) s)
    with (ParticleSimulation.run F (S n) (ParticleSimulation.tick F s)).
  rewrite IH. reflexivity.
Qed.

Lemma tick_well_formed (s : ParticleSystem.t) :
  Forall (fun p => well_formed p = true) (ParticleSystem.particles s) ->
  Forall (fun p => well_formed p = true)
         (ParticleSystem.particles (ParticleSimulation.tick F s)).
Proof.
  intros H. simpl. rewrite Forall_map.
  apply (Forall_impl _ (fun p => @step_well_formed F _ p) H).
Qed.

Lemma run_well_formed (n : nat) (s : ParticleSystem.t) :
  Forall (fun p => well_formed p = true) (ParticleSystem.particles s) ->
  Forall (fun p => well_formed p = true)
         (ParticleSystem.particles (ParticleSimulation.run F n s)).
Proof.
  intros H. induction n as [|n IH]; [exact H|].
  rewrite run_succ. apply tick_well_formed, IH.
Qed.

Lemma tick_in_bounds (s : ParticleSystem.t) :
  1 <= Bounds.width (ParticleSystem.bounds s) ->
  1 <= Bounds.height (ParticleSystem.bounds s) ->
  Forall (fun p => well_formed p = true) (ParticleSystem.particles s) ->
  Forall (fun p => in_bounds F (ParticleSystem.bounds s) p = true)
         (ParticleSystem.particles (ParticleSimulation.tick F s)).
Proof.
  intros Hw Hh H. simpl. rewrite Forall_map.
  apply (Forall_impl _ (fun p => @step_in_bounds F _ p Hw Hh) H).
Qed.

Lemma run_colors (n : nat) (s : ParticleSystem.t) :
  map Particle.color (ParticleSystem.particles (ParticleSimulation.run F n s))
  = map Particle.color (ParticleSystem.particles s).
Proof.
  induction n as [|n IH]; [reflexivity|].
  rewrite run_succ. simpl. rewrite map_map, <- IH.
  apply map_ext. intros p. apply step_color.
Qed.

Lemma run_length (n : nat) (s : ParticleSystem.t) :
  length (ParticleSystem.particles (ParticleSimulation.run F n s))
  = length (ParticleSystem.particles s).
Proof.
  induction n as [|n IH]; [reflexivity|].
  rewrite run_succ. simpl. rewrite length_map. exact IH.
Qed.
End Frames.

(** * The vectorised update is the per-particle update, column by column *)

Section Columns.
Variable F : format.

Lemma zip_with_map {A B C D : Type} (f : B -> C -> D) (g : A -> B)
    (h : A -> C) (l : list A) :
  zip_with f (map g l) (map h l) = map (fun a => f (g a) (h a)) l.
Proof. induction l as [|a l IH]; simpl; [|rewrite IH]; reflexivity. Qed.

Lemma clip_rule (size : Z) (p v : float) :
  (if flt p (of_int F 0) then of_int F 0
   else if fgt p (of_int F (size - 1)) then of_int F (size - 1) else p)
  = fst (reflect_rule F size p v).
Proof.
  unfold reflect_rule. change (of_int F 0) with fzero.
  destruct (flt p fzero); [reflexivity|].
  destruct (fgt p (of_int F (size - 1))); reflexivity.
Qed.

Lemma mask_rule (size : Z) (p v : float) :
  (if flt p (of_int F 0) || fgt p (of_int F (size - 1)) then fneg v else v)
  = snd (reflect_rule F size p v).
Proof.
  unfold reflect_rule. change (of_int F 0) with fzero.
  destruct (flt p fzero); [reflexivity|].
  destruct (fgt p (of_int F (size - 1))); reflexivity.
Qed.

Lemma clip_columns {A : Type} (size : Z) (px vx : A -> float) (l : list A) :
  Sample.np_clip F (map px l) 0 (size - 1)
  = map (fun a => fst (reflect_rule F size (px a) (vx a))) l.
Proof.
  unfold Sample.np_clip. rewrite map_map. apply map_ext.
  intros a. apply clip_rule.
Qed.

Lemma mask_columns {A : Type} (size : Z) (px vx : A -> float) (l : list A) :
  Sample.negate_where
    (zip_with orb (Sample.np_lt F (map px l) 0)
                  (Sample.np_gt F (map px l) (size - 1)))
    (map vx l)
  = map (fun a => snd (reflect_rule F size (px a) (vx a))) l.
Proof.
  unfold Sample.negate_where, Sample.np_lt, Sample.np_gt.
  rewrite !map_map, zip_with_map, zip_with_map.
  apply map_ext. intros a. apply mask_rule.
Qed.

Lemma bounce_columns (W H : Z) (ps : list Particle.t) :
  Sample.bounce F W H (columns ps)
  = columns (map (reflected F (Bounds.mk W H)) ps).
Proof.
  unfold Sample.bounce, columns. simpl.
  rewrite (clip_columns W _ (fun p => Vector2.x (Particle.velocity p))).
  rewrite (clip_columns H _ (fun p => Vector2.y (Particle.velocity p))).
  rewrite !mask_columns, !map_map.
  f_equal; apply map_ext; intros p; unfold reflected;
    rewrite clamp_and_reflect_rule; reflexivity.
Qed.

Lemma integrate_columns (ps : list Particle.t) :
  Sample.integrate F (columns ps) = columns (map (advanced F) ps).
Proof.
  unfold Sample.integrate, columns. simpl.
  rewrite !zip_with_map, !map_map. reflexivity.
Qed.

Lemma update_columns (W H : Z) (ps : list Particle.t) :
  Sample.update F W H (columns ps)
  = columns (map (fun p => Particle.step F p (Bounds.mk W H)) ps).
Proof.
  unfold Sample.update.
  rewrite integrate_columns, bounce_columns, map_map. reflexivity.
Qed.

Lemma run_columns (W H : Z) (n : nat) (ps : list Particle.t) :
  Sample.run F W H n (columns ps)
  = columns (ParticleSystem.particles
               (ParticleSimulation.run F n
                  (ParticleSystem.mk ps (Bounds.mk W H)))).
Proof.
  revert ps. induction n as [|n IH]; intros ps; [reflexivity|].
  simpl. rewrite update_columns, IH. reflexivity.
Qed.
End Columns.

(** * The renderer of [sample_readable.py] *)

Section Renderer.
Lemma placed_w (s : Surface.t) (pos : Z * Z) (c : Z * Z * Z) :
  Surface.w (placed s pos c) = Surface.w s.
Proof.
  destruct pos as [i j]. unfold placed.
  destruct (Surface.inside s i j); reflexivity.
Qed.

Lemma placed_h (s : Surface.t) (pos : Z * Z) (c : Z * Z * Z) :
  Surface.h (placed s pos c) = Surface.h s.
Proof.
  destruct pos as [i j]. unfold placed.
  destruct (Surface.inside s i j); reflexivity.
Qed.

Lemma placed_inside (s : Surface.t) (pos : Z * Z) (c : Z * Z * Z) (x y : Z) :
  Surface.inside (placed s pos c) x y = Surface.inside s x y.
Proof.
  unfold Surface.inside. rewrite placed_w, placed_h. reflexivity.
Qed.

Lemma placed_outside (s : Surface.t) (i j : Z) (c : Z * Z * Z) :
  Surface.inside s i j = false -> placed s (i, j) c = s.
Proof. intros H. unfold placed. rewrite H. reflexivity. Qed.

Lemma placed_same (s : Surface.t) (x y : Z) (c : Z * Z * Z) :
  Surface.inside s x y = true ->
  Surface.pixel (placed s (x, y) c) x y = c.
Proof.
  intros H. unfold placed. rewrite H. simpl.
  rewrite !Z.eqb_refl. reflexivity.
Qed.

Lemma placed_other (s : Surface.t) (pos : Z * Z) (c : Z * Z * Z) (x y : Z) :
  pos <> (x, y) ->
  Surface.pixel (placed s pos c) x y = Surface.pixel s x y.
Proof.
  destruct pos as [i j]. intros H. unfold placed.
  destruct (Surface.inside s i j); [|reflexivity]. simpl.
  destruct (Z.eqb_spec x i) as [->|]; [|reflexivity].
  destruct (Z.eqb_spec y j) as [->|]; [congruence|reflexivity].
Qed.

Lemma placed_unclipped (s : Surface.t) (pos : Z * Z) (c : Z * Z * Z)
    (x y : Z) :
  Surface.inside s x y = false ->
  Surface.pixel (placed s pos c) x y = Surface.pixel s x y.
Proof.
  intros H. destruct pos as [i j].
  destruct (Surface.inside s i j) eqn:Hin.
  - apply placed_other. congruence.
  - rewrite placed_outside by assumption. reflexivity.
Qed.

Lemma set_at_placed (s s' : Surface.t) (pos : Z * Z) (c : Z * Z * Z) :
  Surface.set_at s pos c = ok s' -> s' = placed s pos c.
Proof.
  destruct pos as [i j]. unfold Surface.set_at, placed.
  destruct (c_int i && c_int j); [|discriminate].
  destruct (Surface.inside s i j).
  - destruct (is_color c); [|discriminate]. intros H. injection H as <-.
    reflexivity.
  - intros H. injection H as <-. reflexivity.
Qed.

Lemma set_at_ok (s : Surface.t) (i j : Z) (c : Z * Z * Z) :
  c_int i = true -> c_int j = true -> is_color c = true ->
  Surface.set_at s (i, j) c = ok (placed s (i, j) c).
Proof.
  intros Hi Hj Hc. unfold Surface.set_at, placed. rewrite Hi, Hj, Hc.
  destruct (Surface.inside s i j); reflexivity.
Qed.

Lemma set_at_outside (s : Surface.t) (i j : Z) (c : Z * Z * Z) :
  c_int i = true -> c_int j = true -> Surface.inside s i j = false ->
  Surface.set_at s (i, j) c = ok s.
Proof.
  intros Hi Hj Hout. unfold Surface.set_at. rewrite Hi, Hj, Hout.
  reflexivity.
Qed.

Lemma draw_cons (s s' : Surface.t) (p : Particle.t) (rest : list Particle.t)
    (pos : Z * Z) :
  PygameRenderer.pixel_of p = ok pos ->
  Surface.set_at s pos (Color.as_tuple (Particle.color p)) = ok s' ->
  PygameRenderer.draw s (p :: rest) = PygameRenderer.draw s' rest.
Proof. intros H H'. simpl. rewrite H, bind_ok, H', bind_ok. reflexivity. Qed.

Lemma draw_cons_inv (s out : Surface.t) (p : Particle.t)
    (rest : list Particle.t) :
  PygameRenderer.draw s (p :: rest) = ok out ->
  exists pos, PygameRenderer.pixel_of p = ok pos
    /\ PygameRenderer.draw
         (placed s pos (Color.as_tuple (Particle.color p))) rest
       = ok out.
Proof.
  simpl. destruct (PygameRenderer.pixel_of p) as [e|pos]; simpl;
    [discriminate|].
  destruct (Surface.set_at s pos _) as [e|s'] eqn:Hs; simpl; [discriminate|].
  apply set_at_placed in Hs. subst s'. eauto.
Qed.

Lemma draw_total (ps : list Particle.t) :
  Forall drawable ps ->
  forall s, exists out, PygameRenderer.draw s ps = ok out.
Proof.
  induction 1 as [|p rest (i & j & Hp & Hi & Hj & Hc) _ IH]; intros s.
  - exists s. reflexivity.
  - rewrite (draw_cons s _ p rest (i, j) Hp (set_at_ok s i j _ Hi Hj Hc)).
    apply IH.
Qed.

(** A pixel that no particle lands on keeps its value. *)
Lemma draw_untouched (x y : Z) (ps : list Particle.t) :
  Forall (fun q => PygameRenderer.pixel_of q <> ok (x, y)) ps ->
  forall s out, PygameRenderer.draw s ps = ok out ->
  Surface.pixel out x y = Surface.pixel s x y.
Proof.
  induction 1 as [|p rest Hp _ IH]; intros s out H.
  - injection H as <-. reflexivity.
  - destruct (draw_cons_inv _ _ _ _ H) as (pos & Hpos & H').
    rewrite (IH _ _ H'). apply placed_other. congruence.
Qed.

(** Nothing is written outside the surface. *)
Lemma draw_unclipped (x y : Z) (ps : list Particle.t) :
  forall s out, PygameRenderer.draw s ps = ok out ->
  Surface.inside s x y = false ->
  Surface.pixel out x y = Surface.pixel s x y.
Proof.
  induction ps as [|p rest IH]; intros s out H Hout.
  - injection H as <-. reflexivity.
  - destruct (draw_cons_inv _ _ _ _ H) as (pos & Hpos & H').
    rewrite (IH _ _ H') by (rewrite placed_inside; exact Hout).
    apply placed_unclipped, Hout.
Qed.

(** The last particle that lands on a pixel gives it its colour. *)
Lemma draw_last (x y : Z) (ps : list Particle.t) :
  forall s out i p,
  PygameRenderer.draw s ps = ok out ->
  Surface.inside s x y = true ->
  nth_error ps i = Some p ->
  PygameRenderer.pixel_of p = ok (x, y) ->
  (forall j q, (i < j)%nat -> nth_error ps j = Some q ->
               PygameRenderer.pixel_of q <> ok (x, y)) ->
  Surface.pixel out x y = Color.as_tuple (Particle.color p).
Proof.
  induction ps as [|p0 rest IH]; intros s out i p H Hin Hi Hp Hlater.
  - destruct i; discriminate.
  - destruct (draw_cons_inv _ _ _ _ H) as (pos & Hpos & H').
    destruct i as [|i]; simpl in Hi.
    + injection Hi as ->. rewrite Hp in Hpos. injection Hpos as <-.
      rewrite (draw_untouched x y rest) with (2 := H').
      * apply placed_same, Hin.
      * apply Forall_forall. intros q Hq.
        destruct (In_nth_error _ _ Hq) as [j Hj].
        apply (Hlater (S j) q); [lia|exact Hj].
    + apply (IH _ _ i p H'); auto.
      * rewrite placed_inside. exact Hin.
      * intros j q Hj Hq. apply (Hlater (S j) q); [lia|exact Hq].
Qed.

(** A particle that lands outside the surface contributes nothing. *)
Lemma draw_skip (p : Particle.t) (i j : Z) (before after : list Particle.t) :
  PygameRenderer.pixel_of p = ok (i, j) ->
  c_int i = true -> c_int j = true ->
  forall s, Surface.inside s i j = false ->
  PygameRenderer.draw s (before ++ p :: after)
  = PygameRenderer.draw s (before ++ after).
Proof.
  intros Hp Hi Hj. induction before as [|q before IH]; intros s Hout.
  - simpl app.
    apply (draw_cons s s p after (i, j) Hp (set_at_outside s i j _ Hi Hj Hout)).
  - simpl. destruct (PygameRenderer.pixel_of q) as [e|pos]; simpl;
      [reflexivity|].
    destruct (Surface.set_at s pos _) as [e|s'] eqn:Hs; simpl; [reflexivity|].
    apply IH. apply set_at_placed in Hs. subst s'.
    rewrite placed_inside. exact Hout.
Qed.
End Renderer.

(** * Rounding never overshoots a representable bound *)

Section Powers.
Lemma bpow_pos (e : Z) : (0 < bpow e)%R.
Proof. apply powerRZ_lt. lra. Qed.

Lemma bpow_add (a b : Z) : bpow (a + b) = (bpow a * bpow b)%R.
Proof. apply powerRZ_add. lra. Qed.

Lemma bpow_IZR (n : Z) : 0 <= n -> bpow n = IZR (2 ^ n).
Proof.
  intros H. unfold bpow. destruct n as [|p|p]; [reflexivity| |lia].
  simpl powerRZ. rewrite pow_IZR, positive_nat_Z. reflexivity.
Qed.

Lemma bpow_ge_1 (n : Z) : 0 <= n -> (1 <= bpow n)%R.
Proof.
  intros H. rewrite bpow_IZR by assumption. apply IZR_le.
  pose proof (Z.pow_pos_nonneg 2 n ltac:(lia) H). lia.
Qed.

Lemma bpow_le (a b : Z) : a <= b -> (bpow a <= bpow b)%R.
Proof.
  intros H. replace b with (a + (b - a)) by ring. rewrite bpow_add.
  pose proof (bpow_pos a). pose proof (bpow_ge_1 (b - a) ltac:(lia)). nra.
Qed.

Lemma bpow_lt_inv (a b : Z) : (bpow a < bpow b)%R -> a < b.
Proof.
  intros H. destruct (Z_lt_le_dec a b) as [|Hle]; [assumption|].
  apply bpow_le in Hle. lra.
Qed.

Lemma F2R_le_inv (m1 m2 e : Z) : (F2R m1 e <= F2R m2 e)%R -> m1 <= m2.
Proof.
  unfold F2R. intros H. apply le_IZR.
  pose proof (bpow_pos e). nra.
Qed.

Lemma F2R_le (m1 m2 e : Z) : m1 <= m2 -> (F2R m1 e <= F2R m2 e)%R.
Proof.
  unfold F2R. intros H. apply IZR_le in H.
  pose proof (bpow_pos e). nra.
Qed.

Lemma F2R_shift (m e k : Z) : 0 <= k -> F2R (m * 2 ^ k) e = F2R m (e + k).
Proof.
  intros H. unfold F2R. rewrite mult_IZR, bpow_add, <- bpow_IZR by assumption.
  ring.
Qed.
End Powers.

Section Digits.
Lemma digits2_bounds (p : positive) :
  2 ^ (Zpos (digits2_pos p) - 1) <= Zpos p < 2 ^ Zpos (digits2_pos p).
Proof.
  induction p as [p IH|p IH|]; simpl digits2_pos.
  - rewrite Pos2Z.inj_succ.
    replace (Z.succ (Zpos (digits2_pos p)) - 1)
      with (Z.succ (Zpos (digits2_pos p) - 1)) by lia.
    rewrite !Z.pow_succ_r by lia. lia.
  - rewrite Pos2Z.inj_succ.
    replace (Z.succ (Zpos (digits2_pos p)) - 1)
      with (Z.succ (Zpos (digits2_pos p) - 1)) by lia.
    rewrite !Z.pow_succ_r by lia. lia.
  - simpl. lia.
Qed.

Lemma Zdigits2_bounds (m : Z) :
  0 < m -> 2 ^ (Zdigits2 m - 1) <= m < 2 ^ Zdigits2 m.
Proof.
  destruct m as [|p|p]; try lia. intros _. apply digits2_bounds.
Qed.

Lemma Zdigits2_pos (m : Z) : 0 < m -> 0 < Zdigits2 m.
Proof. destruct m; simpl; lia. Qed.

Lemma Zdigits2_unique (m d : Z) :
  2 ^ (d - 1) <= m < 2 ^ d -> 0 < d -> Zdigits2 m = d.
Proof.
  intros [Hlo Hhi] Hd.
  assert (Hm : 0 < m) by (pose proof (Z.pow_pos_nonneg 2 (d - 1) ltac:(lia) ltac:(lia)); lia).
  pose proof (Zdigits2_bounds m Hm) as [Hlo' Hhi'].
  pose proof (Zdigits2_pos m Hm) as Hd'.
  assert (Zdigits2 m - 1 < d)
    by (apply (Z.pow_lt_mono_r_iff 2); lia).
  assert (d - 1 < Zdigits2 m)
    by (apply (Z.pow_lt_mono_r_iff 2); lia).
  lia.
Qed.

Lemma Zdigits2_mono (a b : Z) : 0 < a -> a <= b -> Zdigits2 a <= Zdigits2 b.
Proof.
  intros Ha Hab.
  pose proof (Zdigits2_bounds a Ha) as [Hlo _].
  pose proof (Zdigits2_bounds b ltac:(lia)) as [_ Hhi].
  pose proof (Zdigits2_pos b ltac:(lia)).
  assert (Zdigits2 a - 1 < Zdigits2 b)
    by (apply (Z.pow_lt_mono_r_iff 2); lia).
  lia.
Qed.

Lemma Zdigits2_shiftr (q k : Z) :
  0 < q -> 0 <= k < Zdigits2 q -> Zdigits2 (q / 2 ^ k) = Zdigits2 q - k.
Proof.
  intros Hq Hk.
  pose proof (Zdigits2_bounds q Hq) as [Hlo Hhi].
  pose proof (Z.pow_pos_nonneg 2 k ltac:(lia) ltac:(lia)) as Hk2.
  apply Zdigits2_unique; [|lia]. split.
  - apply Z.div_le_lower_bound; [lia|].
    rewrite <- Z.pow_add_r by lia.
    replace (k + (Zdigits2 q - k - 1)) with (Zdigits2 q - 1) by lia. lia.
  - apply Z.div_lt_upper_bound; [lia|].
    rewrite <- Z.pow_add_r by lia.
    replace (k + (Zdigits2 q - k)) with (Zdigits2 q) by lia. lia.
Qed.

Lemma Zdigits2_shiftl (q k : Z) :
  0 < q -> 0 <= k -> Zdigits2 (q * 2 ^ k) = Zdigits2 q + k.
Proof.
  intros Hq Hk.
  pose proof (Zdigits2_bounds q Hq) as [Hlo Hhi].
  pose proof (Zdigits2_pos q Hq).
  pose proof (Z.pow_pos_nonneg 2 k ltac:(lia) ltac:(lia)) as Hk2.
  apply Zdigits2_unique; [|lia]. split.
  - replace (Zdigits2 q + k - 1) with (Zdigits2 q - 1 + k) by lia.
    rewrite Z.pow_add_r by lia. nia.
  - rewrite Z.pow_add_r by lia. nia.
Qed.

Lemma Zdigits2_mul (a b : Z) :
  0 < a -> 0 < b -> Zdigits2 a + Zdigits2 b - 1 <= Zdigits2 (a * b).
Proof.
  intros Ha Hb.
  pose proof (Zdigits2_bounds a Ha) as [Ha1 _].
  pose proof (Zdigits2_bounds b Hb) as [Hb1 _].
  pose proof (Zdigits2_bounds (a * b) ltac:(nia)) as [_ Hab].
  pose proof (Zdigits2_pos a Ha). pose proof (Zdigits2_pos b Hb).
  pose proof (Zdigits2_pos (a * b) ltac:(nia)).
  assert (Zdigits2 a - 1 + (Zdigits2 b - 1) < Zdigits2 (a * b)); [|lia].
  apply (Z.pow_lt_mono_r_iff 2); [lia|lia|].
  rewrite Z.pow_add_r by lia.
  pose proof (Z.pow_pos_nonneg 2 (Zdigits2 a - 1) ltac:(lia) ltac:(lia)).
  pose proof (Z.pow_pos_nonneg 2 (Zdigits2 b - 1) ltac:(lia) ltac:(lia)).
  nia.
Qed.

(** The value of [m * 2 ^ e] lies between the powers that its number of
    digits gives. *)
Lemma F2R_digits (m e : Z) :
  0 < m ->
  (bpow (Zdigits2 m - 1 + e) <= F2R m e < bpow (Zdigits2 m + e))%R.
Proof.
  intros Hm. pose proof (Zdigits2_bounds m Hm) as [Hlo Hhi].
  pose proof (Zdigits2_pos m Hm).
  unfold F2R. rewrite !bpow_add.
  rewrite (bpow_IZR (Zdigits2 m - 1)), (bpow_IZR (Zdigits2 m)) by lia.
  apply IZR_le in Hlo. apply IZR_lt in Hhi.
  pose proof (bpow_pos e). split; nra.
Qed.

Lemma F2R_le_digits (m1 e1 m2 e2 : Z) :
  0 < m1 -> 0 < m2 -> (F2R m1 e1 <= F2R m2 e2)%R ->
  Zdigits2 m1 + e1 <= Zdigits2 m2 + e2.
Proof.
  intros H1 H2 Hle.
  pose proof (F2R_digits m1 e1 H1) as [Hlo _].
  pose proof (F2R_digits m2 e2 H2) as [_ Hhi].
  assert (Zdigits2 m1 - 1 + e1 < Zdigits2 m2 + e2); [|lia].
  apply bpow_lt_inv. lra.
Qed.
End Digits.

Section Rounding.
Variables prec emax : Z.
Hypothesis prec_pos : 0 < prec.
Hypothesis prec_lt_emax : prec < emax.

Lemma fexp_mono (a b : Z) : a <= b -> fexp prec emax a <= fexp prec emax b.
Proof. unfold fexp. lia. Qed.

Lemma fexp_ge_emin (a : Z) : emin prec emax <= fexp prec emax a.
Proof. unfold fexp. lia. Qed.

Lemma emin_nonpos : emin prec emax <= 0.
Proof. unfold emin. lia. Qed.

Lemma bounded_inv (m : positive) (e : Z) :
  bounded prec emax m e = true <->
  fexp prec emax (Zdigits2 (Zpos m) + e) = e /\ e <= emax - prec.
Proof.
  unfold bounded, canonical_mantissa. simpl Zdigits2.
  rewrite andb_true_iff, Z.eqb_eq, Z.leb_le. tauto.
Qed.

(** Among the canonical values the comparison is the one of the reals. *)
Lemma fle_of_F2R (m1 : positive) (e1 : Z) (m2 : positive) (e2 : Z) :
  bounded prec emax m1 e1 = true -> bounded prec emax m2 e2 = true ->
  (F2R (Zpos m1) e1 <= F2R (Zpos m2) e2)%R ->
  fle (S754_finite false m1 e1) (S754_finite false m2 e2) = true.
Proof.
  rewrite !bounded_inv. intros [H1 _] [H2 _] Hle.
  unfold fle, SFleb, SFcompare.
  destruct (Z.compare_spec e1 e2) as [->|Hlt|Hgt].
  - apply F2R_le_inv in Hle. fold (Pos.compare m1 m2).
    destruct (Pos.compare_spec m1 m2); try reflexivity. lia.
  - reflexivity.
  - exfalso.
    pose proof (F2R_le_digits (Zpos m1) e1 (Zpos m2) e2
                  ltac:(lia) ltac:(lia) Hle) as Hd.
    apply fexp_mono in Hd. lia.
Qed.

Lemma F2R_of_flt (m1 : positive) (e1 : Z) (m2 : positive) (e2 : Z) :
  bounded prec emax m1 e1 = true -> bounded prec emax m2 e2 = true ->
  flt (S754_finite false m1 e1) (S754_finite false m2 e2) = true ->
  (F2R (Zpos m1) e1 < F2R (Zpos m2) e2)%R.
Proof.
  rewrite !bounded_inv. intros [H1 _] [H2 _].
  unfold flt, SFltb, SFcompare.
  destruct (Z.compare_spec e1 e2) as [->|Hlt|Hgt]; try discriminate.
  - fold (Pos.compare m1 m2).
    destruct (Pos.compare_spec m1 m2) as [|Hm|]; try discriminate.
    intros _. unfold F2R. pose proof (bpow_pos e2).
    assert (IZR (Zpos m1) < IZR (Zpos m2))%R by (apply IZR_lt; lia). nra.
  - intros _.
    assert (Hd : Zdigits2 (Zpos m1) + e1 < Zdigits2 (Zpos m2) + e2).
    { destruct (Z_lt_le_dec (Zdigits2 (Zpos m1) + e1)
                            (Zdigits2 (Zpos m2) + e2)) as [|Hge];
        [assumption|].
      apply fexp_mono in Hge. lia. }
    pose proof (F2R_digits (Zpos m1) e1 ltac:(lia)) as [_ Hhi].
    pose proof (F2R_digits (Zpos m2) e2 ltac:(lia)) as [Hlo _].
    pose proof (bpow_le (Zdigits2 (Zpos m1) + e1)
                        (Zdigits2 (Zpos m2) - 1 + e2) ltac:(lia)).
    lra.
Qed.

(** *** Shifting the mantissa right *)

Lemma shr_1_spec (q : Z) (r s : bool) :
  0 <= q ->
  shr_1 (Build_shr_record q r s)
  = Build_shr_record (Z.div2 q) (Z.odd q) (r || s).
Proof. destruct q as [|[p|p|]|p]; intros H; try lia; reflexivity. Qed.

Lemma shr_inv_step (m k : Z) (mrs : shr_record) :
  0 <= m -> 0 <= k -> shr_inv m k mrs -> shr_inv m (k + 1) (shr_1 mrs).
Proof.
  intros Hm Hk. destruct mrs as [q r s]. unfold shr_inv.
  cbn [shr_m shr_r shr_s]. intros [Hq Hex].
  pose proof (Z.pow_pos_nonneg 2 k ltac:(lia) Hk) as Hk2.
  assert (0 <= q) by (subst q; apply Z.div_pos; lia).
  rewrite shr_1_spec by assumption. cbn [shr_m shr_r shr_s].
  rewrite Z.pow_add_r, Z.pow_1_r by lia. split.
  - rewrite Z.div2_div, Hq, Z.div_div by lia. reflexivity.
  - rewrite Z.rem_mul_r by lia. rewrite <- Hq.
    pose proof (Z.mod_pos_bound m (2 ^ k) Hk2) as Hb.
    rewrite orb_false_iff, Hex, (Zmod_odd q).
    destruct (Z.odd q); split; intros; try split; try nia;
      try reflexivity.
Qed.

Lemma shr_inv_iter (m : Z) (p : positive) :
  0 <= m ->
  forall (k : Z) (mrs : shr_record), 0 <= k ->
  shr_inv m k mrs -> shr_inv m (k + Zpos p) (iter_pos shr_1 p mrs).
Proof.
  intros Hm. induction p as [p IH|p IH|]; intros k mrs Hk H; simpl.
  - replace (k + Zpos p~1) with (k + 1 + Zpos p + Zpos p) by lia.
    apply IH; [lia|]. apply IH; [lia|]. apply shr_inv_step; assumption.
  - replace (k + Zpos p~0) with (k + Zpos p + Zpos p) by lia.
    apply IH; [lia|]. apply IH; assumption.
  - apply shr_inv_step; assumption.
Qed.

Lemma loc_exact_iff (mrs : shr_record) :
  loc_of_shr_record mrs = loc_Exact <-> shr_r mrs || shr_s mrs = false.
Proof. destruct mrs as [q [] []]; simpl; split; congruence. Qed.

Lemma shr_spec (m e n : Z) :
  0 <= m -> 0 <= n ->
  exists mrs, shr (Build_shr_record m false false) e n = (mrs, e + n)
    /\ shr_m mrs = m / 2 ^ n
    /\ (loc_of_shr_record mrs = loc_Exact <-> m mod 2 ^ n = 0).
Proof.
  intros Hm Hn.
  assert (H0 : shr_inv m 0 (Build_shr_record m false false)).
  { unfold shr_inv. simpl. rewrite Z.div_1_r, Z.mod_1_r. tauto. }
  destruct n as [|p|p]; [| |lia].
  - exists (Build_shr_record m false false). simpl shr.
    rewrite Z.add_0_r. rewrite loc_exact_iff. destruct H0. auto.
  - exists (iter_pos shr_1 p (Build_shr_record m false false)).
    pose proof (shr_inv_iter m p Hm 0 _ ltac:(lia) H0) as [H1 H2].
    rewrite Z.add_0_l in H1, H2. rewrite loc_exact_iff. auto.
Qed.

Lemma shr_zero (mrs : shr_record) (e n : Z) :
  shr_m mrs = 0 -> shr_m (fst (shr mrs e n)) = 0.
Proof.
  intros H. destruct n as [|p|p]; simpl; auto.
  apply iter_pos_invariant with (P := fun a => shr_m a = 0); auto.
  intros [q r s]. simpl. intros ->. reflexivity.
Qed.

Lemma round_nearest_even_bounds (m : Z) (l : location) :
  m <= round_nearest_even m l <= m + 1
  /\ (l = loc_Exact -> round_nearest_even m l = m).
Proof.
  destruct l as [|[]]; simpl; try (split; [lia|]; congruence).
  destruct (Z.even m); (split; [lia|]; congruence).
Qed.

(** *** Rounding a positive value *)

Lemma shr_fexp_exact (m e : Z) :
  0 <= m -> e <= fexp prec emax (Zdigits2 m + e) ->
  exists mrs,
    shr_fexp prec emax m e loc_Exact
    = (mrs, fexp prec emax (Zdigits2 m + e))
    /\ shr_m mrs = m / 2 ^ (fexp prec emax (Zdigits2 m + e) - e)
    /\ (loc_of_shr_record mrs = loc_Exact
        <-> m mod 2 ^ (fexp prec emax (Zdigits2 m + e) - e) = 0).
Proof.
  intros Hm He.
  destruct (shr_spec m e (fexp prec emax (Zdigits2 m + e) - e) Hm
              ltac:(lia)) as (mrs & Hs & Hq & Hl).
  exists mrs. split; [|auto].
  unfold shr_fexp. cbn [shr_record_of_loc]. rewrite Hs. f_equal. lia.
Qed.

(** A mantissa at (or below) its canonical exponent comes out of the
    shift canonical, and no larger. *)
Lemma shr_fexp_canonical (q e : Z) :
  0 < q -> emin prec emax <= e ->
  e <= fexp prec emax (Zdigits2 q + e) ->
  exists mrs (mf : positive),
    shr_fexp prec emax q e loc_Exact
    = (mrs, fexp prec emax (Zdigits2 q + e))
    /\ shr_m mrs = Zpos mf
    /\ fexp prec emax (Zdigits2 (Zpos mf) + fexp prec emax (Zdigits2 q + e))
       = fexp prec emax (Zdigits2 q + e)
    /\ (F2R (Zpos mf) (fexp prec emax (Zdigits2 q + e)) <= F2R q e)%R.
Proof.
  intros Hq Hemin He.
  destruct (shr_fexp_exact q e ltac:(lia) He) as (mrs & Hs & Hm & _).
  set (c := fexp prec emax (Zdigits2 q + e)) in *.
  pose proof (Zdigits2_pos q Hq) as Hd.
  assert (Hn : 0 <= c - e < Zdigits2 q) by (unfold c, fexp in *; lia).
  pose proof (Zdigits2_shiftr q (c - e) Hq Hn) as Hds.
  pose proof (Z.pow_pos_nonneg 2 (c - e) ltac:(lia) ltac:(lia)) as Hp.
  assert (Hpos : 0 < q / 2 ^ (c - e)).
  { pose proof (Z.div_pos q (2 ^ (c - e)) ltac:(lia) Hp) as Hnn.
    destruct (Z.eq_dec (q / 2 ^ (c - e)) 0) as [Hz|Hnz]; [|lia].
    rewrite Hz in Hds. simpl in Hds. lia. }
  destruct (q / 2 ^ (c - e)) as [|mf|mf] eqn:Hmf; try lia.
  exists mrs, mf. repeat split; auto.
  - rewrite Hds. replace (Zdigits2 q - (c - e) + c) with (Zdigits2 q + e)
      by lia. reflexivity.
  - replace c with (e + (c - e)) at 1 by lia.
    rewrite <- F2R_shift by lia. apply F2R_le.
    rewrite <- Hmf, Z.mul_comm. apply Z.mul_div_le. lia.
Qed.

(** The two steps of [binary_round_aux] on an exact positive mantissa:
    shift to the canonical exponent and round the mantissa to [m'']; shift
    once more if the rounding carried. *)
Lemma binary_round_aux_cases (sx : bool) (mx : positive) (ex : Z) :
  ex <= fexp prec emax (Zdigits2 (Zpos mx) + ex) ->
  exists m'' : Z,
    Zpos mx / 2 ^ (fexp prec emax (Zdigits2 (Zpos mx) + ex) - ex) <= m''
    /\ m'' <= Zpos mx / 2 ^ (fexp prec emax (Zdigits2 (Zpos mx) + ex) - ex) + 1
    /\ (Zpos mx mod 2 ^ (fexp prec emax (Zdigits2 (Zpos mx) + ex) - ex) = 0 ->
        m'' = Zpos mx / 2 ^ (fexp prec emax (Zdigits2 (Zpos mx) + ex) - ex))
    /\ (binary_round_aux prec emax sx (Zpos mx) ex loc_Exact = S754_zero sx
        \/ exists (mf : positive) (ef : Z),
             fexp prec emax (Zdigits2 (Zpos mf) + ef) = ef
             /\ (F2R (Zpos mf) ef
                 <= F2R m'' (fexp prec emax (Zdigits2 (Zpos mx) + ex)))%R
             /\ binary_round_aux prec emax sx (Zpos mx) ex loc_Exact
                = if ef <=? emax - prec
                  then S754_finite sx mf ef else S754_infinity sx).
Proof.
  intros Hpre.
  destruct (shr_fexp_exact (Zpos mx) ex ltac:(lia) Hpre)
    as (mrs1 & Hs1 & Hm1 & Hl1).
  unfold binary_round_aux. rewrite Hs1. cbv iota beta.
  set (e' := fexp prec emax (Zdigits2 (Zpos mx) + ex)) in *.
  set (n := e' - ex) in *.
  assert (Hn : 0 <= n) by (unfold n; lia).
  pose proof (Z.pow_pos_nonneg 2 n ltac:(lia) Hn) as Hn2.
  pose proof (round_nearest_even_bounds (shr_m mrs1)
                (loc_of_shr_record mrs1)) as [Hr Hrx].
  set (m'' := round_nearest_even (shr_m mrs1) (loc_of_shr_record mrs1)) in *.
  assert (Hm'0 : 0 <= shr_m mrs1)
    by (rewrite Hm1; apply Z.div_pos; lia).
  exists m''. rewrite <- Hm1.
  split; [lia|]. split; [lia|]. split; [intros Hex; apply Hrx, Hl1, Hex|].
  destruct (Z_le_gt_dec m'' 0) as [Hz|Hpos].
  - left. assert (H : m'' = 0) by lia.
    pose proof (shr_zero (shr_record_of_loc m'' loc_Exact) e'
                  (fexp prec emax (Zdigits2 m'' + e') - e') H) as Hsz.
    fold (shr_fexp prec emax m'' e' loc_Exact) in Hsz.
    destruct (shr_fexp prec emax m'' e' loc_Exact) as [mrs2 e2].
    simpl in Hsz. rewrite Hsz. reflexivity.
  - right.
    assert (Hpre2 : e' <= fexp prec emax (Zdigits2 m'' + e')).
    { destruct (Z.eq_dec (shr_m mrs1) 0) as [Hz|Hnz].
      - rewrite Hz in Hm1. symmetry in Hm1.
        apply Z.div_small_iff in Hm1; [|lia].
        pose proof (Zdigits2_bounds (Zpos mx) ltac:(lia)) as [Hlo _].
        assert (Zdigits2 (Zpos mx) - 1 < n)
          by (apply (Z.pow_lt_mono_r_iff 2); lia).
        assert (e' = emin prec emax) by (unfold e', n, fexp in *; lia).
        pose proof (fexp_ge_emin (Zdigits2 m'' + e')). lia.
      - assert (Hlt : n < Zdigits2 (Zpos mx)).
        { pose proof (Zdigits2_bounds (Zpos mx) ltac:(lia)) as [_ Hhi].
          pose proof (Zdigits2_pos (Zpos mx) ltac:(lia)).
          assert (2 ^ n <= Zpos mx).
          { destruct (Z_le_gt_dec (2 ^ n) (Zpos mx)); [assumption|].
            rewrite Z.div_small in Hm1 by lia. lia. }
          apply (Z.pow_lt_mono_r_iff 2); lia. }
        pose proof (Zdigits2_shiftr (Zpos mx) n ltac:(lia) ltac:(lia))
          as Hds.
        rewrite <- Hm1 in Hds.
        pose proof (Zdigits2_mono (shr_m mrs1) m'' ltac:(lia) ltac:(lia))
          as Hmono.
        assert (H : Zdigits2 (Zpos mx) + ex <= Zdigits2 m'' + e')
          by (unfold n in *; lia).
        apply fexp_mono in H. fold e' in H. exact H. }
    destruct (shr_fexp_canonical m'' e' ltac:(lia) (fexp_ge_emin _) Hpre2)
      as (mrs2 & mf & Hs2 & Hm2 & Hc2 & Hv2).
    rewrite Hs2. cbv iota beta. rewrite Hm2.
    exists mf, (fexp prec emax (Zdigits2 m'' + e')).
    split; [exact Hc2|]. split; [exact Hv2|reflexivity].
Qed.

(** A rounded value is a value of the format. *)
Lemma binary_round_aux_valid (sx : bool) (mx : positive) (ex : Z) :
  ex <= fexp prec emax (Zdigits2 (Zpos mx) + ex) ->
  valid_binary prec emax (binary_round_aux prec emax sx (Zpos mx) ex loc_Exact)
  = true.
Proof.
  intros Hpre.
  destruct (binary_round_aux_cases sx mx ex Hpre)
    as (m'' & _ & _ & _ & [->|(mf & ef & Hc & _ & ->)]); [reflexivity|].
  destruct (ef <=? emax - prec) eqn:Hle; [|reflexivity].
  simpl. apply bounded_inv. apply Z.leb_le in Hle. auto.
Qed.

Lemma binary_round_aux_le (sx : bool) (mx : positive) (ex : Z)
    (mB : positive) (eB : Z) :
  ex <= fexp prec emax (Zdigits2 (Zpos mx) + ex) ->
  bounded prec emax mB eB = true ->
  (F2R (Zpos mx) ex <= F2R (Zpos mB) eB)%R ->
  binary_round_aux prec emax sx (Zpos mx) ex loc_Exact = S754_zero sx
  \/ exists (m : positive) (e : Z),
       binary_round_aux prec emax sx (Zpos mx) ex loc_Exact
       = S754_finite sx m e
       /\ bounded prec emax m e = true
       /\ (F2R (Zpos m) e <= F2R (Zpos mB) eB)%R.
Proof.
  intros Hpre HB Hle.
  pose proof HB as HB'. apply bounded_inv in HB' as [HBc HBe].
  destruct (binary_round_aux_cases sx mx ex Hpre)
    as (m'' & Hlo & Hhi & Hrx & [Hz|(mf & ef & Hc & Hv & Hres)]);
    [left; exact Hz|right].
  set (e' := fexp prec emax (Zdigits2 (Zpos mx) + ex)) in *.
  set (n := e' - ex) in *.
  assert (Hn : 0 <= n) by (unfold n; lia).
  pose proof (Z.pow_pos_nonneg 2 n ltac:(lia) Hn) as Hn2.
  (* the exponents *)
  pose proof (F2R_le_digits (Zpos mx) ex (Zpos mB) eB
                ltac:(lia) ltac:(lia) Hle) as Hd.
  assert (He'B : e' <= eB) by (apply fexp_mono in Hd; unfold e'; lia).
  (* the rounded mantissa does not pass the bound *)
  set (N := Zpos mB * 2 ^ (eB - e')).
  assert (HN : F2R N e' = F2R (Zpos mB) eB).
  { unfold N. rewrite F2R_shift by lia. f_equal. lia. }
  assert (HmxN : Zpos mx <= N * 2 ^ n).
  { apply (F2R_le_inv _ _ ex). rewrite F2R_shift by lia.
    replace (ex + n) with e' by (unfold n; lia). rewrite HN. exact Hle. }
  assert (Hm''N : m'' <= N).
  { destruct (Z.eq_dec (Zpos mx mod 2 ^ n) 0) as [Hex|Hin].
    - rewrite (Hrx Hex). apply Z.div_le_upper_bound; lia.
    - assert (Zpos mx <> N * 2 ^ n)
        by (intros E; rewrite E, Z.mod_mul in Hin; lia).
      assert (Zpos mx / 2 ^ n < N)
        by (apply Z.div_lt_upper_bound; lia).
      lia. }
  assert (Hvf : (F2R (Zpos mf) ef <= F2R (Zpos mB) eB)%R).
  { rewrite <- HN. apply (Rle_trans _ _ _ Hv). apply F2R_le, Hm''N. }
  pose proof (F2R_le_digits (Zpos mf) ef (Zpos mB) eB
                ltac:(lia) ltac:(lia) Hvf) as Hdf.
  apply fexp_mono in Hdf. rewrite Hc, HBc in Hdf.
  assert (Hleb : (ef <=? emax - prec) = true) by (apply Z.leb_le; lia).
  rewrite Hres, Hleb. exists mf, ef. repeat split; auto.
  apply bounded_inv. split; [exact Hc|lia].
Qed.

(** *** Rounding after alignment *)

Lemma shl_align_spec (mx : positive) (ex ex' : Z) :
  (ex' < ex
   /\ shl_align mx ex ex'
      = (Z.to_pos (Zpos mx * 2 ^ (ex - ex')), ex'))
  \/ (ex <= ex' /\ shl_align mx ex ex' = (mx, ex)).
Proof.
  unfold shl_align. destruct (ex' - ex) as [|d|d] eqn:Hd.
  - right. split; [lia|reflexivity].
  - right. split; [lia|reflexivity].
  - left. split; [lia|]. f_equal.
    replace (ex - ex') with (Zpos d) by lia.
    change (Pos.iter xO mx d) with (shift_pos d mx).
    apply Pos2Z.inj. rewrite shift_pos_correct, Z2Pos.id.
    + change (Z.pow_pos 2 d) with (2 ^ Zpos d). ring.
    + apply Z.mul_pos_pos; [lia|]. apply Z.pow_pos_nonneg; lia.
Qed.

Lemma shl_align_value (mx : positive) (ex ex' : Z) :
  F2R (Zpos (fst (shl_align mx ex ex'))) (snd (shl_align mx ex ex'))
  = F2R (Zpos mx) ex.
Proof.
  destruct (shl_align_spec mx ex ex') as [[Hlt ->]|[Hle ->]];
    [|reflexivity].
  cbn [fst snd].
  pose proof (Z.pow_pos_nonneg 2 (ex - ex') ltac:(lia) ltac:(lia)).
  rewrite Z2Pos.id by (apply Z.mul_pos_pos; lia).
  rewrite F2R_shift by lia. f_equal. lia.
Qed.

Lemma shl_align_min (mx : positive) (ex ez : Z) :
  ez <= ex ->
  F2R (Zpos (fst (shl_align mx ex ez))) ez = F2R (Zpos mx) ex.
Proof.
  intros H. rewrite <- (shl_align_value mx ex ez). f_equal.
  destruct (shl_align_spec mx ex ez) as [[Hlt ->]|[Hle ->]]; cbn [snd]; lia.
Qed.

(** [shl_align] leaves the mantissa at or below its canonical exponent. *)
Lemma shl_align_canonical (mx : positive) (ex : Z) (mz : positive) (ez : Z) :
  shl_align mx ex (fexp prec emax (Zpos (digits2_pos mx) + ex)) = (mz, ez) ->
  ez <= fexp prec emax (Zdigits2 (Zpos mz) + ez).
Proof.
  destruct (shl_align_spec mx ex
              (fexp prec emax (Zpos (digits2_pos mx) + ex)))
    as [[Hlt E]|[Hge E]]; rewrite E; intros H;
    pose proof (f_equal fst H) as Hm; pose proof (f_equal snd H) as He;
    cbn [fst snd] in Hm, He; subst mz ez; clear H.
  - set (c := fexp prec emax (Zpos (digits2_pos mx) + ex)) in *.
    pose proof (Z.pow_pos_nonneg 2 (ex - c) ltac:(lia) ltac:(lia)).
    rewrite Z2Pos.id by (apply Z.mul_pos_pos; lia).
    rewrite Zdigits2_shiftl by lia. cbn [Zdigits2].
    replace (Zpos (digits2_pos mx) + (ex - c) + c)
      with (Zpos (digits2_pos mx) + ex) by lia.
    fold c. lia.
  - exact Hge.
Qed.

Lemma binary_round_le (sx : bool) (mx : positive) (ex : Z)
    (mB : positive) (eB : Z) :
  bounded prec emax mB eB = true ->
  (F2R (Zpos mx) ex <= F2R (Zpos mB) eB)%R ->
  binary_round prec emax sx mx ex = S754_zero sx
  \/ exists (m : positive) (e : Z),
       binary_round prec emax sx mx ex = S754_finite sx m e
       /\ bounded prec emax m e = true
       /\ (F2R (Zpos m) e <= F2R (Zpos mB) eB)%R.
Proof.
  intros HB Hle. unfold binary_round.
  pose proof (shl_align_value mx ex
                (fexp prec emax (Zpos (digits2_pos mx) + ex))) as Hv.
  pose proof (shl_align_canonical mx ex) as Hc.
  destruct (shl_align mx ex (fexp prec emax (Zpos (digits2_pos mx) + ex)))
    as [mz ez].
  cbn [fst snd] in Hv.
  apply binary_round_aux_le; auto. rewrite Hv. exact Hle.
Qed.

(** Every rounded result is a value of the format. *)
Lemma binary_round_valid (sx : bool) (mx : positive) (ex : Z) :
  valid_binary prec emax (binary_round prec emax sx mx ex) = true.
Proof.
  unfold binary_round.
  pose proof (shl_align_canonical mx ex) as Hc.
  destruct (shl_align mx ex (fexp prec emax (Zpos (digits2_pos mx) + ex)))
    as [mz ez].
  apply binary_round_aux_valid. auto.
Qed.

Lemma binary_normalize_valid (m e : Z) (szero : bool) :
  valid_binary prec emax (binary_normalize prec emax m e szero) = true.
Proof.
  destruct m; simpl; [reflexivity| |]; apply binary_round_valid.
Qed.

(** Among the canonical values, [<=] on floats is [<=] on the reals. *)
Lemma F2R_of_fle (m1 : positive) (e1 : Z) (m2 : positive) (e2 : Z) :
  bounded prec emax m1 e1 = true -> bounded prec emax m2 e2 = true ->
  fle (S754_finite false m1 e1) (S754_finite false m2 e2) = true ->
  (F2R (Zpos m1) e1 <= F2R (Zpos m2) e2)%R.
Proof.
  intros H1 H2 Hle.
  destruct (flt (S754_finite false m1 e1) (S754_finite false m2 e2)) eqn:Hlt.
  - apply Rlt_le. apply F2R_of_flt; assumption.
  - unfold fle, flt, SFleb, SFltb, SFcompare in *.
    destruct (Z.compare_spec e1 e2) as [->|?|?]; try discriminate.
    fold (Pos.compare m1 m2) in *.
    destruct (Pos.compare_spec m1 m2) as [->|?|?]; try discriminate.
    apply Rle_refl.
Qed.

(** A positive integer below [2 ^ prec] is a value of the format. *)
Lemma int_canonical (n : positive) :
  Zpos n < 2 ^ prec ->
  exists (mB : positive) (eB : Z),
    bounded prec emax mB eB = true /\ F2R (Zpos mB) eB = IZR (Zpos n).
Proof.
  intros Hn.
  pose proof (Zdigits2_bounds (Zpos n) ltac:(lia)) as [Hlo Hhi].
  pose proof (Zdigits2_pos (Zpos n) ltac:(lia)) as Hd.
  set (d := Zdigits2 (Zpos n)) in *.
  assert (Hdp : d <= prec).
  { assert (d - 1 < prec) by (apply (Z.pow_lt_mono_r_iff 2); lia). lia. }
  set (k := prec - d).
  assert (Hk0 : 0 <= k) by (unfold k; lia).
  pose proof (Z.pow_pos_nonneg 2 k ltac:(lia) Hk0) as Hk.
  assert (Hpos : 0 < Zpos n * 2 ^ k) by (apply Z.mul_pos_pos; lia).
  exists (Z.to_pos (Zpos n * 2 ^ k)), (- k).
  rewrite bounded_inv, Z2Pos.id by assumption. split.
  - rewrite Zdigits2_shiftl by lia. fold d. unfold fexp, emin, k. lia.
  - rewrite F2R_shift by lia. replace (- k + k) with 0 by lia.
    unfold F2R, bpow. simpl. lra.
Qed.

(** *** Values that fit under a bound *)

Local Abbreviation F := (Format prec emax).

Lemma fits_zero (s : bool) (B : R) : (0 <= B)%R -> fits F (S754_zero s) B.
Proof. intros H. repeat split; auto. Qed.

Lemma F2R_pos (m : positive) (e : Z) : (0 < F2R (Zpos m) e)%R.
Proof.
  unfold F2R. pose proof (bpow_pos e).
  assert (0 < IZR (Zpos m))%R by (apply IZR_lt; lia). nra.
Qed.

Lemma mag_nonneg (a : float) : (0 <= mag a)%R.
Proof.
  destruct a as [s|s| |s m e]; simpl; try lra.
  pose proof (F2R_pos m e). lra.
Qed.

Lemma binary_round_fits (sx : bool) (mx : positive) (ex : Z)
    (mB : positive) (eB : Z) :
  bounded prec emax mB eB = true ->
  (F2R (Zpos mx) ex <= F2R (Zpos mB) eB)%R ->
  fits F (binary_round prec emax sx mx ex) (F2R (Zpos mB) eB).
Proof.
  intros HB Hle.
  destruct (binary_round_le sx mx ex mB eB HB Hle)
    as [->|(m & e & -> & Hb & Hv)].
  - apply fits_zero. pose proof (F2R_pos mB eB). lra.
  - repeat split; auto.
Qed.

Lemma binary_normalize_fits (z e : Z) (szero : bool)
    (mB : positive) (eB : Z) :
  bounded prec emax mB eB = true ->
  (Rabs (F2R z e) <= F2R (Zpos mB) eB)%R ->
  fits F (binary_normalize prec emax z e szero) (F2R (Zpos mB) eB).
Proof.
  intros HB Hle. destruct z as [|p|p]; simpl.
  - apply fits_zero. pose proof (F2R_pos mB eB). lra.
  - apply binary_round_fits; auto.
    rewrite Rabs_pos_eq in Hle; [exact Hle|].
    pose proof (F2R_pos p e). lra.
  - apply binary_round_fits; auto.
    replace (F2R (Zpos p) e) with (Rabs (F2R (Zneg p) e)); [exact Hle|].
    pose proof (F2R_pos p e) as Hp. unfold F2R in *.
    change (Zneg p) with (- Zpos p). rewrite opp_IZR.
    rewrite Rabs_left; lra.
Qed.

Lemma fits_fle (a : float) (mB : positive) (eB : Z) :
  bounded prec emax mB eB = true ->
  fits F a (F2R (Zpos mB) eB) ->
  fle (fabs a) (S754_finite false mB eB) = true.
Proof.
  intros HB (Hf & Hv & Hm).
  destruct a as [s|s| |s m e]; simpl in *; try discriminate.
  - reflexivity.
  - apply fle_of_F2R; auto.
Qed.

Lemma mul_canonical (mx : positive) (ex : Z) (my : positive) (ey : Z) :
  bounded prec emax mx ex = true -> bounded prec emax my ey = true ->
  ex + ey <= fexp prec emax (Zdigits2 (Zpos (mx * my)) + (ex + ey)).
Proof.
  rewrite !bounded_inv. intros [Hx _] [Hy _].
  pose proof (Zdigits2_mul (Zpos mx) (Zpos my) ltac:(lia) ltac:(lia)) as Hd.
  pose proof (Zdigits2_pos (Zpos mx) ltac:(lia)).
  pose proof (Zdigits2_pos (Zpos my) ltac:(lia)).
  pose proof emin_nonpos.
  rewrite Pos2Z.inj_mul. unfold fexp in *. lia.
Qed.

Lemma fmul_fits (a b : float) (A B : R) (mC : positive) (eC : Z) :
  fits F a A -> fits F b B ->
  bounded prec emax mC eC = true ->
  (A * B <= F2R (Zpos mC) eC)%R ->
  fits F (fmul F a b) (F2R (Zpos mC) eC).
Proof.
  intros (Hfa & Hva & Hma) (Hfb & Hvb & Hmb) HC Hle.
  pose proof (F2R_pos mC eC) as HCpos.
  destruct a as [sa|sa| |sa ma ea]; try discriminate;
    destruct b as [sb|sb| |sb mb eb]; try discriminate;
    try (apply fits_zero; lra).
  unfold fmul. simpl SFmul. simpl in Hma, Hmb, Hva, Hvb.
  pose proof (F2R_pos ma ea). pose proof (F2R_pos mb eb).
  assert (Hprod : F2R (Zpos (ma * mb)) (ea + eb)
                  = (F2R (Zpos ma) ea * F2R (Zpos mb) eb)%R).
  { unfold F2R. rewrite Pos2Z.inj_mul, mult_IZR, bpow_add. ring. }
  destruct (binary_round_aux_le (xorb sa sb) (ma * mb) (ea + eb) mC eC)
    as [->|(m & e & -> & Hb & Hv)]; auto.
  - apply mul_canonical; assumption.
  - rewrite Hprod. nra.
  - apply fits_zero. lra.
  - repeat split; auto.
Qed.

Lemma B2R_mag (a : float) : Rabs (B2R a) = mag a.
Proof.
  destruct a as [s|s| |s m e]; simpl; try apply Rabs_R0.
  pose proof (F2R_pos m e) as Hp. destruct s.
  - unfold F2R in *. change (Zneg m) with (- Zpos m). rewrite opp_IZR.
    rewrite Rabs_left; lra.
  - apply Rabs_pos_eq. lra.
Qed.

Lemma cond_Zopp_value (s : bool) (m : positive) (e : Z) :
  F2R (cond_Zopp s (Zpos m)) e = B2R (S754_finite s m e).
Proof. destruct s; reflexivity. Qed.

Lemma F2R_sub (z1 z2 e : Z) : F2R (z1 - z2) e = (F2R z1 e - F2R z2 e)%R.
Proof. unfold F2R. rewrite minus_IZR. ring. Qed.

Lemma F2R_cond_Zopp (s : bool) (z e : Z) :
  F2R (cond_Zopp s z) e = ((if s then -1 else 1) * F2R z e)%R.
Proof. unfold F2R. destruct s; simpl; [rewrite opp_IZR|]; ring. Qed.

Lemma aligned_value (s : bool) (m : positive) (e ez : Z) :
  ez <= e ->
  F2R (cond_Zopp s (Zpos (fst (shl_align m e ez)))) ez
  = B2R (S754_finite s m e).
Proof.
  intros H. rewrite F2R_cond_Zopp, shl_align_min by assumption.
  rewrite <- cond_Zopp_value, F2R_cond_Zopp. reflexivity.
Qed.

Lemma fsub_fits (a b : float) (mC : positive) (eC : Z) :
  is_finite a = true -> is_float F a = true ->
  is_finite b = true -> is_float F b = true ->
  bounded prec emax mC eC = true ->
  (Rabs (B2R a - B2R b) <= F2R (Zpos mC) eC)%R ->
  fits F (fsub F a b) (F2R (Zpos mC) eC).
Proof.
  intros Hfa Hva Hfb Hvb HC Hle.
  pose proof (F2R_pos mC eC) as HCpos.
  destruct a as [sa|sa| |sa ma ea]; try discriminate;
    destruct b as [sb|sb| |sb mb eb]; try discriminate.
  - unfold fsub. simpl. destruct sa, sb; apply fits_zero; lra.
  - unfold fsub. simpl SFsub.
    split; [reflexivity|]. split; [exact Hvb|].
    change (B2R (S754_zero sa)) with 0%R in Hle.
    rewrite Rminus_0_l, Rabs_Ropp, B2R_mag in Hle. exact Hle.
  - unfold fsub. simpl SFsub.
    split; [reflexivity|]. split; [exact Hva|].
    change (B2R (S754_zero sb)) with 0%R in Hle.
    rewrite Rminus_0_r, B2R_mag in Hle. exact Hle.
  - unfold fsub. simpl SFsub. apply binary_normalize_fits; auto.
    rewrite F2R_sub, !aligned_value by lia. exact Hle.
Qed.

(** *** Products and differences of non-negative values *)

Lemma fle_zero_cases (a : float) :
  fle fzero a = true -> is_finite a = true ->
  (exists s, a = S754_zero s) \/ (exists m e, a = S754_finite false m e).
Proof.
  destruct a as [s|s| |[] m e]; simpl; intros H1 H2; try discriminate; eauto.
Qed.

Lemma fle_zero_B2R (a : float) :
  fle fzero a = true -> is_finite a = true -> B2R a = mag a.
Proof.
  intros H1 H2.
  destruct (fle_zero_cases a H1 H2) as [[s ->]|(m & e & ->)]; reflexivity.
Qed.

Lemma fmul_nonneg (a b : float) :
  fle fzero a = true -> is_finite a = true ->
  fle fzero b = true -> is_finite b = true ->
  fle fzero (fmul F a b) = true.
Proof.
  intros Ha Hfa Hb Hfb.
  destruct (fle_zero_cases a Ha Hfa) as [[sa ->]|(ma & ea & ->)];
    destruct (fle_zero_cases b Hb Hfb) as [[sb ->]|(mb & eb & ->)];
    try reflexivity.
  unfold fmul. simpl SFmul.
  apply signed_false_nonneg. apply binary_round_aux_signed. lia.
Qed.

(** A factor in [[0, 1]] does not increase a non-negative value. *)
Lemma fmul_unit_le (u w : float) (B : R) :
  fits F u 1 -> fle fzero u = true ->
  fits F w B -> fle fzero w = true ->
  fle fzero (fmul F u w) = true /\ fle (fmul F u w) w = true.
Proof.
  intros Hu Hu0 Hw Hw0. split.
  - destruct Hu as (? & _), Hw as (? & _). apply fmul_nonneg; assumption.
  - destruct (fle_zero_cases w Hw0 (proj1 Hw)) as [[sw ->]|(mw & ew & ->)].
    + destruct Hu as (Hfu & _).
      destruct (fle_zero_cases u Hu0 Hfu) as [[su ->]|(mu & eu & ->)];
        reflexivity.
    + assert (Hbw : bounded prec emax mw ew = true) by apply Hw.
      assert (Hfit : fits F (fmul F u (S754_finite false mw ew))
                       (F2R (Zpos mw) ew)).
      { apply (fmul_fits u (S754_finite false mw ew) 1 (F2R (Zpos mw) ew));
          auto.
        - repeat split; auto. simpl. lra.
        - lra. }
      pose proof (fits_fle _ mw ew Hbw Hfit) as Hle.
      assert (Hnn : fle fzero (fmul F u (S754_finite false mw ew)) = true)
        by (apply fmul_nonneg; auto; apply Hu).
      destruct Hfit as (Hfin & _).
      destruct (fle_zero_cases _ Hnn Hfin) as [[s E]|(m & e & E)];
        rewrite E in *; auto.
Qed.

(** [(u - 1/2) * c] for [u] in [[0, 1]] stays within [c / 2]. *)
Lemma centred_scaled_fits (u : float) (mh : positive) (eh : Z)
    (mc : positive) (ec : Z) :
  fits F u 1 -> fle fzero u = true ->
  bounded prec emax mh eh = true -> F2R (Zpos mh) eh = (/ 2)%R ->
  bounded prec emax mc ec = true -> bounded prec emax mc (ec - 1) = true ->
  fle (fabs (fmul F (fsub F u (S754_finite false mh eh))
                    (S754_finite false mc ec)))
      (S754_finite false mc (ec - 1)) = true.
Proof.
  intros (Hfu & Hvu & Hmu) Hu0 Hh Hhalf Hc Hc'.
  apply fits_fle; [assumption|].
  apply (fmul_fits _ _ (F2R (Zpos mh) eh) (F2R (Zpos mc) ec)).
  - apply fsub_fits; auto.
    rewrite (fle_zero_B2R u Hu0 Hfu). simpl B2R. rewrite Hhalf.
    pose proof (mag_nonneg u). apply Rabs_le. lra.
  - repeat split; auto. simpl. lra.
  - assumption.
  - rewrite Hhalf. unfold F2R.
    replace (ec - 1) with (ec + -1) by lia. rewrite bpow_add.
    replace (bpow (-1)) with (/ 2)%R by (unfold bpow; simpl; lra).
    pose proof (bpow_pos ec).
    assert (0 < IZR (Zpos mc))%R by (apply IZR_lt; lia). lra.
Qed.

(** An integer up to [2 ^ (prec + 1)] has a finite float. *)
Lemma of_int_fits (n : Z) (mB : positive) (eB : Z) :
  bounded prec emax mB eB = true -> 0 <= eB ->
  Z.abs n <= Zpos mB * 2 ^ eB ->
  fits F (of_int F n) (F2R (Zpos mB) eB).
Proof.
  intros HB He Hn. unfold of_int. apply binary_normalize_fits; auto.
  unfold F2R at 1. change (bpow 0) with 1%R. rewrite Rmult_1_r.
  rewrite <- abs_IZR.
  replace eB with (0 + eB) at 1 by lia. rewrite <- F2R_shift by lia.
  unfold F2R. change (bpow 0) with 1%R. rewrite Rmult_1_r.
  apply IZR_le, Hn.
Qed.

(** The float of a non-negative integer below [2 ^ prec] is not above
    the integer. *)
Lemma of_int_real_le (n : Z) :
  0 <= n < 2 ^ prec -> fits F (of_int F n) (IZR n).
Proof.
  intros Hn. destruct n as [|p|p]; [| |lia].
  - apply fits_zero. lra.
  - destruct (int_canonical p ltac:(lia)) as (mB & eB & HB & Hv).
    rewrite <- Hv. unfold of_int. apply binary_normalize_fits; auto.
    rewrite Hv. unfold F2R, bpow. simpl. rewrite Rmult_1_r.
    rewrite Rabs_pos_eq; [lra|]. apply IZR_le. lia.
Qed.

(** Re-rounding keeps a value of [[0, 1)] in [[0, 1]]. *)
Lemma convert_unit (u : float) (mO : positive) (eO : Z) :
  is_finite u = true -> fle fzero u = true -> (mag u <= 1)%R ->
  bounded prec emax mO eO = true -> F2R (Zpos mO) eO = 1%R ->
  fits F (convert F u) 1 /\ fle fzero (convert F u) = true.
Proof.
  intros Hf H0 Hm HO H1.
  destruct (fle_zero_cases u H0 Hf) as [[s ->]|(m & e & ->)]; simpl.
  - split; [apply fits_zero; lra|reflexivity].
  - split.
    + rewrite <- H1. apply binary_round_fits; auto. rewrite H1. exact Hm.
    + apply signed_false_nonneg, binary_round_signed.
Qed.
End Rounding.

(** ** The two formats *)

Lemma F2R_pow2 (k e : Z) : 0 <= k -> F2R (2 ^ k) e = bpow (e + k).
Proof.
  intros H. replace (2 ^ k) with (1 * 2 ^ k) by lia.
  rewrite F2R_shift by lia. unfold F2R. lra.
Qed.

Lemma unit_interval_fits (u : float) :
  unit_interval u = true ->
  fits binary64 u 1 /\ fle fzero u = true /\ (mag u < 1)%R.
Proof.
  unfold unit_interval. rewrite !andb_true_iff. intros [[Hv H0] H1].
  assert (Hf : is_finite u = true).
  { destruct u as [s|[]| |s m e]; try reflexivity; discriminate. }
  assert (Hm : (mag u < 1)%R).
  { destruct (fle_zero_cases u H0 Hf) as [[s ->]|(m & e & ->)]; simpl.
    - lra.
    - change (of_int binary64 1)
        with (S754_finite false 4503599627370496 (-52)) in H1.
      apply (F2R_of_flt 53 1024) in H1; auto.
      change 4503599627370496 with (2 ^ 52) in H1.
      rewrite F2R_pow2 in H1 by lia. exact H1. }
  repeat split; auto. lra.
Qed.

(** * Construction *)

Lemma literal_half_64 :
  literal binary64 5 1 = S754_finite false 4503599627370496 (-53).
Proof. vm_compute. reflexivity. Qed.

Lemma literal_42_64 :
  literal binary64 42 1 = S754_finite false 4728779608739021 (-50).
Proof. vm_compute. reflexivity. Qed.

Lemma literal_21_64 :
  literal binary64 21 1 = S754_finite false 4728779608739021 (-50 - 1).
Proof. vm_compute. reflexivity. Qed.

Lemma literal_half_32 :
  convert binary32 (literal binary64 5 1) = S754_finite false 8388608 (-24).
Proof. vm_compute. reflexivity. Qed.

Lemma literal_42_32 :
  convert binary32 (literal binary64 42 1) = S754_finite false 8808038 (-21).
Proof. vm_compute. reflexivity. Qed.

Lemma literal_21_32 :
  convert binary32 (literal binary64 21 1)
  = S754_finite false 8808038 (-21 - 1).
Proof. vm_compute. reflexivity. Qed.

Lemma bpow_m1 : bpow (-1) = (/ 2)%R.
Proof. unfold bpow. simpl. lra. Qed.

Lemma position_range_64 (u : float) (size : Z) :
  unit_interval u = true -> 0 <= size <= 2 ^ 53 ->
  fle fzero (fmul binary64 u (of_int binary64 size)) = true
  /\ fle (fmul binary64 u (of_int binary64 size)) (of_int binary64 size)
     = true.
Proof.
  intros Hu Hs. destruct (unit_interval_fits u Hu) as (Hfit & H0 & _).
  apply (fmul_unit_le 53 1024 ltac:(lia) ltac:(lia) u (of_int binary64 size)
           (F2R (Zpos 4503599627370496) 1)); auto.
  - apply (of_int_fits 53 1024 ltac:(lia)); [reflexivity|lia|].
    change (Zpos 4503599627370496 * 2 ^ 1) with (2 ^ 53). lia.
  - apply of_int_nonneg. lia.
Qed.

Lemma velocity_range_64 (u : float) :
  unit_interval u = true ->
  fle (fabs (fmul binary64 (fsub binary64 u (literal binary64 5 1))
                           (literal binary64 42 1)))
      (literal binary64 21 1) = true.
Proof.
  intros Hu. destruct (unit_interval_fits u Hu) as (Hfit & H0 & _).
  rewrite literal_half_64, literal_42_64, literal_21_64.
  apply (centred_scaled_fits 53 1024 ltac:(lia) ltac:(lia)); auto.
  change (Zpos 4503599627370496) with (2 ^ 52).
  rewrite F2R_pow2 by lia. apply bpow_m1.
Qed.

Lemma unit_interval_32 (u : float) :
  unit_interval u = true ->
  fits binary32 (convert binary32 u) 1
  /\ fle fzero (convert binary32 u) = true.
Proof.
  intros Hu. destruct (unit_interval_fits u Hu) as ((Hf & _ & _) & H0 & Hm).
  apply (convert_unit 24 128 ltac:(lia) u 8388608 (-23)); auto.
  - lra.
  - change (Zpos 8388608) with (2 ^ 23). rewrite F2R_pow2 by lia.
    reflexivity.
Qed.

Lemma position_range_32 (u : float) (size : Z) :
  unit_interval u = true -> 0 <= size <= 2 ^ 24 ->
  fle fzero (fmul binary32 (convert binary32 u) (of_int binary32 size)) = true
  /\ fle (fmul binary32 (convert binary32 u) (of_int binary32 size))
         (of_int binary32 size) = true.
Proof.
  intros Hu Hs. destruct (unit_interval_32 u Hu) as (Hfit & H0).
  apply (fmul_unit_le 24 128 ltac:(lia) ltac:(lia) _ (of_int binary32 size)
           (F2R (Zpos 8388608) 1)); auto.
  - apply (of_int_fits 24 128 ltac:(lia)); [reflexivity|lia|].
    change (Zpos 8388608 * 2 ^ 1) with (2 ^ 24). lia.
  - apply of_int_nonneg. lia.
Qed.

Lemma velocity_range_32 (u : float) :
  unit_interval u = true ->
  fle (fabs (fmul binary32
               (fsub binary32 (convert binary32 u)
                              (convert binary32 (literal binary64 5 1)))
               (convert binary32 (literal binary64 42 1))))
      (convert binary32 (literal binary64 21 1)) = true.
Proof.
  intros Hu. destruct (unit_interval_32 u Hu) as (Hfit & H0).
  rewrite literal_half_32, literal_42_32, literal_21_32.
  apply (centred_scaled_fits 24 128 ltac:(lia) ltac:(lia)); auto.
  change (Zpos 8388608) with (2 ^ 23).
  rewrite F2R_pow2 by lia. apply bpow_m1.
Qed.

Lemma float_of_int_ok (n : Z) :
  Z.abs n <= 2 ^ 53 -> float_of_int n = ok (of_int binary64 n).
Proof.
  intros H. unfold float_of_int.
  destruct (of_int_fits 53 1024 ltac:(lia) n 4503599627370496 1
              ltac:(reflexivity) ltac:(lia)) as (Hf & _).
  - change (Zpos 4503599627370496 * 2 ^ 1) with (2 ^ 53). exact H.
  - change (of_int {| fprec := 53; femax := 1024 |} n)
      with (of_int binary64 n) in Hf.
    rewrite Hf. reflexivity.
Qed.

Section CompositionRootFacts.
Context {rng : Type}.
Variable random : rng -> float * rng.
Variable randrange : Z -> rng -> Z * rng.

Lemma random_particle_ok (b : Bounds.t) (g : rng) :
  Z.abs (Bounds.width b) <= 2 ^ 53 -> Z.abs (Bounds.height b) <= 2 ^ 53 ->
  exists p g',
    random_particle random randrange b g = ok (p, g')
    /\ Particle.position p
       = Vector2.mk
           (fmul binary64 (fst (random g)) (of_int binary64 (Bounds.width b)))
           (fmul binary64 (fst (random (snd (random g))))
                          (of_int binary64 (Bounds.height b)))
    /\ Particle.velocity p
       = Vector2.mk
           (fmul binary64
              (fsub binary64 (fst (random (snd (random (snd (random g))))))
                             (literal binary64 5 1))
              (literal binary64 42 1))
           (fmul binary64
              (fsub binary64
                 (fst (random (snd (random (snd (random (snd (random g))))))))
                 (literal binary64 5 1))
              (literal binary64 42 1)).
Proof.
  intros Hw Hh. unfold random_particle.
  rewrite (float_of_int_ok _ Hw), (float_of_int_ok _ Hh).
  destruct (random g) as [u1 g1]. rewrite bind_ok. cbn [fst snd].
  destruct (random g1) as [u2 g2]. rewrite bind_ok. cbn [fst snd].
  destruct (random g2) as [u3 g3]. cbn [fst snd].
  destruct (random g3) as [u4 g4]. cbn [fst snd].
  destruct (randrange 256 g4) as [c1 g5].
  destruct (randrange 256 g5) as [c2 g6].
  destruct (randrange 256 g6) as [c3 g7].
  eexists. eexists. split; [reflexivity|]. split; reflexivity.
Qed.

Lemma random_particles_length (n : nat) (b : Bounds.t) :
  Z.abs (Bounds.width b) <= 2 ^ 53 -> Z.abs (Bounds.height b) <= 2 ^ 53 ->
  forall g, exists ps g',
    random_particles random randrange n b g = ok (ps, g')
    /\ length ps = n.
Proof.
  intros Hw Hh. induction n as [|n IH]; intros g; cbn [random_particles].
  - exists [], g. split; reflexivity.
  - destruct (random_particle_ok b g Hw Hh) as (p & g1 & -> & _).
    rewrite bind_ok. cbn [fst snd].
    destruct (IH g1) as (ps & g2 & -> & Hl).
    rewrite bind_ok. cbn [fst snd]. exists (p :: ps), g2.
    split; [reflexivity|]. simpl. congruence.
Qed.

(** The only exception of construction is the conversion's. *)
Lemma random_particle_exn (b : Bounds.t) (g : rng) (e : exn) :
  random_particle random randrange b g = inl e -> e = OverflowError.
Proof.
  unfold random_particle, float_of_int.
  destruct (random g) as [u1 g1].
  destruct (is_finite (of_int binary64 (Bounds.width b)));
    cbn [bind ok raise]; [|congruence].
  destruct (random g1) as [u2 g2].
  destruct (is_finite (of_int binary64 (Bounds.height b)));
    cbn [bind ok raise]; [|congruence].
  destruct (random g2) as [u3 g3]. destruct (random g3) as [u4 g4].
  destruct (randrange 256 g4) as [c1 g5].
  destruct (randrange 256 g5) as [c2 g6].
  destruct (randrange 256 g6) as [c3 g7]. discriminate.
Qed.

Lemma random_particles_exn (n : nat) (b : Bounds.t) (e : exn) :
  forall g, random_particles random randrange n b g = inl e ->
            e = OverflowError.
Proof.
  induction n as [|n IH]; intros g; cbn [random_particles];
    [discriminate|].
  destruct (random_particle random randrange b g) as [e'|[p g1]] eqn:Hp;
    cbn [bind fst snd].
  - intros H. injection H as <-. apply (random_particle_exn b g e' Hp).
  - destruct (random_particles random randrange n b g1) as [e'|[ps g2]] eqn:Hr;
      cbn [bind fst snd].
    + intros H. injection H as <-. apply (IH g1 Hr).
    + discriminate.
Qed.

Hypothesis random_unit : forall g, unit_interval (fst (random g)) = true.

Lemma random_particle_constructed (b : Bounds.t) (g : rng) :
  0 <= Bounds.width b <= 2 ^ 53 -> 0 <= Bounds.height b <= 2 ^ 53 ->
  exists p g',
    random_particle random randrange b g = ok (p, g')
    /\ constructed binary64 b p = true.
Proof.
  intros Hw Hh.
  destruct (random_particle_ok b g ltac:(lia) ltac:(lia))
    as (p & g' & Hp & Hpos & Hvel).
  exists p, g'. split; [exact Hp|].
  unfold constructed. rewrite Hpos, Hvel. cbn [Vector2.x Vector2.y].
  destruct (position_range_64 _ (Bounds.width b) (random_unit g) Hw)
    as [-> ->].
  destruct (position_range_64 _ (Bounds.height b)
              (random_unit (snd (random g))) Hh) as [-> ->].
  rewrite !velocity_range_64 by apply random_unit. reflexivity.
Qed.

Lemma random_particles_constructed (n : nat) (b : Bounds.t) :
  0 <= Bounds.width b <= 2 ^ 53 -> 0 <= Bounds.height b <= 2 ^ 53 ->
  forall g, exists ps g',
    random_particles random randrange n b g = ok (ps, g')
    /\ Forall (fun p => constructed binary64 b p = true) ps.
Proof.
  intros Hw Hh. induction n as [|n IH]; intros g; cbn [random_particles].
  - exists [], g. split; [reflexivity|constructor].
  - destruct (random_particle_constructed b g Hw Hh) as (p & g1 & -> & Hc).
    rewrite bind_ok. cbn [fst snd].
    destruct (IH g1) as (ps & g2 & -> & Hps).
    rewrite bind_ok. cbn [fst snd]. exists (p :: ps), g2.
    split; [reflexivity|constructor; assumption].
Qed.
End CompositionRootFacts.

Lemma init_position_range (size : Z) (r : list float) :
  0 <= size <= 2 ^ 24 ->
  Forall (fun u => unit_interval u = true) r ->
  Forall (fun p => fle fzero p = true
                   /\ fle p (of_int binary32 size) = true)
         (Sample.init_position binary32 size r).
Proof.
  intros Hs H. unfold Sample.init_position. rewrite Forall_map.
  apply (Forall_impl _ (fun u Hu => position_range_32 u size Hu Hs) H).
Qed.

Lemma init_velocity_range (r : list float) :
  Forall (fun u => unit_interval u = true) r ->
  Forall (fun v => fle (fabs v) (convert binary32 (literal binary64 21 1))
                   = true)
         (Sample.init_velocity binary32 r).
Proof.
  intros H. unfold Sample.init_velocity. rewrite Forall_map.
  apply (Forall_impl _ velocity_range_32 H).
Qed.

(** * Truncation and the buffer of [sample.py] *)

Lemma py_int_truncated (a : float) (n : Z) :
  py_int a = ok n -> truncated a n.
Proof.
  destruct a as [s|s| |s m e]; simpl; intros H; try discriminate.
  - injection H as <-. unfold truncated. simpl B2R. rewrite Rabs_R0.
    repeat split; try lra; lia.
  - injection H as <-.
    set (q := match e with
              | Zneg k => Z.shiftr (Zpos m) (Zpos k)
              | _ => Z.shiftl (Zpos m) e
              end).
    assert (Hq : 0 <= q /\ (IZR q <= F2R (Zpos m) e < IZR q + 1)%R).
    { unfold q. destruct e as [|k|k].
      - rewrite Z.shiftl_0_r. split; [lia|]. unfold F2R.
        change (bpow 0) with 1%R. lra.
      - rewrite Z.shiftl_mul_pow2 by lia.
        pose proof (Z.pow_pos_nonneg 2 (Zpos k) ltac:(lia) ltac:(lia)).
        split; [nia|].
        pose proof (F2R_shift (Zpos m) 0 (Zpos k) ltac:(lia)) as E.
        change (0 + Zpos k) with (Zpos k) in E. rewrite <- E.
        unfold F2R. change (bpow 0) with 1%R. lra.
      - rewrite Z.shiftr_div_pow2 by lia.
        pose proof (Z.pow_pos_nonneg 2 (Zpos k) ltac:(lia) ltac:(lia)) as Hk.
        pose proof (Z.mul_div_le (Zpos m) (2 ^ Zpos k) Hk) as Hlo.
        pose proof (Z.mul_succ_div_gt (Zpos m) (2 ^ Zpos k) Hk) as Hhi.
        split; [apply Z.div_pos; lia|].
        assert (E : (F2R (Zpos m) (Zneg k) * IZR (2 ^ Zpos k))%R
                    = IZR (Zpos m)).
        { rewrite <- bpow_IZR by lia. unfold F2R. rewrite Rmult_assoc.
          rewrite <- bpow_add. change (Zneg k + Zpos k) with (- Zpos k + Zpos k).
          rewrite Z.add_opp_diag_l. change (bpow 0) with 1%R. ring. }
        apply IZR_le in Hlo. apply IZR_lt in Hhi.
        rewrite mult_IZR in Hlo, Hhi. unfold Z.succ in Hhi.
        rewrite plus_IZR in Hhi.
        assert (0 < IZR (2 ^ Zpos k))%R by (apply IZR_lt; lia).
        rewrite <- E in Hlo, Hhi. split; nra. }
    destruct Hq as [Hq0 Hq]. pose proof (IZR_le _ _ Hq0) as Hq0R.
    pose proof (F2R_pos m e) as Hpos.
    unfold truncated. simpl B2R. destruct s.
    + assert (E : F2R (Zneg m) e = (- F2R (Zpos m) e)%R).
      { unfold F2R. change (Zneg m) with (- Zpos m). rewrite opp_IZR. ring. }
      rewrite E, opp_IZR, !Rabs_Ropp, !Rabs_pos_eq by lra.
      repeat split; try lra. intros _. lia.
    + rewrite !Rabs_pos_eq by lra. repeat split; try lra.
      intros _. lia.
Qed.

Section Buffer.
Lemma c_int_range (n : Z) : - 2 ^ 31 <= n < 2 ^ 31 -> c_int n = true.
Proof.
  intros H. unfold c_int. apply andb_true_iff.
  split; [apply Z.leb_le|apply Z.ltb_lt]; lia.
Qed.

Lemma inside_range (s : Surface.t) (i j : Z) :
  Surface.inside s i j = true <->
  (0 <= i < Surface.w s) /\ (0 <= j < Surface.h s).
Proof.
  unfold Surface.inside.
  rewrite !andb_true_iff, !Z.leb_le, !Z.ltb_lt. tauto.
Qed.

Lemma set_at_store (s : Surface.t) (i j : Z) (c : Z * Z * Z) :
  Surface.w s <= 2 ^ 31 -> Surface.h s <= 2 ^ 31 ->
  Surface.inside s i j = true -> is_color c = true ->
  Surface.set_at s (i, j) c = ok (Surface.store s i j c).
Proof.
  intros Hw Hh Hin Hc. pose proof (proj1 (inside_range s i j) Hin) as [Hi Hj].
  rewrite set_at_ok; auto using c_int_range; try (apply c_int_range; lia).
  unfold placed. rewrite Hin. reflexivity.
Qed.

Lemma draw_is_store_all (w h : Z) (ps : list Particle.t)
    (l : list (Z * Z)) :
  w <= 2 ^ 31 -> h <= 2 ^ 31 ->
  Forall2 (fun p pos =>
             PygameRenderer.pixel_of p = ok pos
             /\ is_color (Color.as_tuple (Particle.color p)) = true) ps l ->
  Forall (fun pos => (0 <= fst pos < w) /\ (0 <= snd pos < h)) l ->
  forall s, Surface.w s = w -> Surface.h s = h ->
  PygameRenderer.draw s ps
  = ok (Sample.store_all s l
          (map (fun p => Color.as_tuple (Particle.color p)) ps)).
Proof.
  intros Hw Hh.
  induction 1 as [|p [i j] ps l [Hp Hc] _ IH]; intros Hin s Hsw Hsh.
  - reflexivity.
  - inversion Hin as [|? ? Hij Hl]; subst. cbn [fst snd] in Hij.
    rewrite (draw_cons s
               (Surface.store s i j (Color.as_tuple (Particle.color p)))
               p ps (i, j) Hp).
    + apply IH; auto.
    + apply set_at_store; auto. apply inside_range. exact Hij.
Qed.

Lemma indices_inside (w h : Z) (l : list (Z * Z)) :
  Forall (fun pos => (0 <= fst pos < w) /\ (0 <= snd pos < h)) l ->
  Sample.indices w h (map fst l) (map snd l) = ok l.
Proof.
  induction 1 as [|[i j] l [Hi Hj] _ IH]; [reflexivity|].
  simpl in Hi, Hj. simpl. unfold Sample.np_index.
  replace ((0 <=? i) && (i <? w)) with true
    by (symmetry; apply andb_true_iff; split;
        [apply Z.leb_le|apply Z.ltb_lt]; lia).
  replace ((0 <=? j) && (j <? h)) with true
    by (symmetry; apply andb_true_iff; split;
        [apply Z.leb_le|apply Z.ltb_lt]; lia).
  simpl. rewrite IH. reflexivity.
Qed.

Lemma astype_int32_pixels (coord : Particle.t -> float)
    (sel : Z * Z -> Z) (ps : list Particle.t) (l : list (Z * Z)) :
  Forall2 (fun p pos => py_int (coord p) = ok (sel pos)) ps l ->
  Forall (fun pos => - 2 ^ 31 <= sel pos < 2 ^ 31) l ->
  Sample.astype_int32 (map coord ps) = Some (map sel l).
Proof.
  induction 1 as [|p pos ps l Hp _ IH]; intros Hr; [reflexivity|].
  inversion Hr as [|? ? Hpos Hl]; subst.
  simpl. rewrite (IH Hl). unfold Sample.int32, truncate. rewrite Hp.
  unfold ok. cbv beta iota. rewrite (c_int_range _ Hpos). reflexivity.
Qed.

Lemma pixel_of_inv (p : Particle.t) (i j : Z) :
  PygameRenderer.pixel_of p = ok (i, j) ->
  py_int (Vector2.x (Particle.position p)) = ok i
  /\ py_int (Vector2.y (Particle.position p)) = ok j.
Proof.
  unfold PygameRenderer.pixel_of.
  destruct (py_int (Vector2.x (Particle.position p))) as [e|i']; simpl;
    [discriminate|].
  destruct (py_int (Vector2.y (Particle.position p))) as [e|j']; simpl;
    [discriminate|].
  intros H. injection H as -> ->. auto.
Qed.

Lemma lands_inside_pixels (screen : Surface.t) (ps : list Particle.t) :
  Forall drawable ps -> Forall (lands_inside screen) ps ->
  exists l,
    Forall2 (fun p pos =>
               PygameRenderer.pixel_of p = ok pos
               /\ is_color (Color.as_tuple (Particle.color p)) = true) ps l
    /\ Forall (fun pos => (0 <= fst pos < Surface.w screen)
                          /\ (0 <= snd pos < Surface.h screen)) l.
Proof.
  induction 1 as [|p ps (i & j & Hp & _ & _ & Hc) _ IH]; intros Hin.
  - exists []. split; constructor.
  - inversion Hin as [|? ? (i' & j' & Hp' & Hij) Hrest]; subst.
    rewrite Hp in Hp'. injection Hp' as <- <-.
    destruct (IH Hrest) as (l & Hl & Hl').
    exists ((i, j) :: l). split; constructor; auto.
    apply inside_range. exact Hij.
Qed.

(** With every particle on the surface, the direct buffer access of
    [sample.py] renders what [clear] and [draw] render. *)
Lemma sample_draw_render (screen : Surface.t) (ps : list Particle.t) :
  Surface.w screen <= 2 ^ 31 -> Surface.h screen <= 2 ^ 31 ->
  Forall drawable ps -> Forall (lands_inside screen) ps ->
  Sample.draw screen (columns ps) = Some (GameLoop.render screen ps).
Proof.
  intros Hw Hh Hd Hps.
  destruct (lands_inside_pixels screen ps Hd Hps) as (l & Hl & Hrange).
  assert (Hint : forall sel : Z * Z -> Z,
             (forall pos, sel pos = fst pos \/ sel pos = snd pos) ->
             Forall (fun pos => - 2 ^ 31 <= sel pos < 2 ^ 31) l).
  { intros sel Hsel.
    apply (Forall_impl _ (P := fun pos =>
             (0 <= fst pos < Surface.w screen)
             /\ (0 <= snd pos < Surface.h screen))); [|exact Hrange].
    intros pos. destruct (Hsel pos) as [-> | ->]; lia. }
  unfold Sample.draw, GameLoop.render, PygameRenderer.clear, columns.
  cbn [Sample.P_X Sample.P_Y Sample.COLOR].
  rewrite (astype_int32_pixels
             (fun p => Vector2.x (Particle.position p)) fst ps l),
          (astype_int32_pixels
             (fun p => Vector2.y (Particle.position p)) snd ps l).
  - unfold Sample.assign. cbn [Surface.w Surface.h Surface.fill].
    rewrite (indices_inside _ _ l Hrange).
    rewrite (draw_is_store_all (Surface.w screen) (Surface.h screen) ps l
               Hw Hh Hl Hrange); reflexivity.
  - eapply Forall2_impl; [|exact Hl]. intros p [i j] [H _].
    apply (pixel_of_inv p i j H).
  - apply Hint. auto.
  - eapply Forall2_impl; [|exact Hl]. intros p [i j] [H _].
    apply (pixel_of_inv p i j H).
  - apply Hint. auto.
Qed.
End Buffer.

(** * The real value of the positions *)

Section Values.
Variable F : format.
Hypothesis format_ok : 0 < fprec F < femax F.

Lemma fadd_is_float (a b : float) :
  is_float F a = true -> is_float F b = true ->
  is_float F (fadd F a b) = true.
Proof.
  unfold is_float, fadd. intros Ha Hb.
  destruct a as [sa|sa| |sa ma ea], b as [sb|sb| |sb mb eb];
    try exact Ha; try exact Hb; try reflexivity;
    try (destruct sa, sb; reflexivity).
  unfold SFadd. apply binary_normalize_valid. lia.
Qed.

Lemma of_int_is_float (n : Z) : is_float F (of_int F n) = true.
Proof. apply binary_normalize_valid. lia. Qed.

Lemma fneg_is_float (a : float) : is_float F (fneg a) = is_float F a.
Proof. destruct a; reflexivity. Qed.

Lemma reflect_rule_is_float (size : Z) (p v : float) :
  is_float F p = true -> is_float F v = true ->
  is_float F (fst (reflect_rule F size p v)) = true
  /\ is_float F (snd (reflect_rule F size p v)) = true.
Proof.
  intros Hp Hv. unfold reflect_rule.
  destruct (flt p fzero); [|destruct (fgt p (of_int F (size - 1)))];
    cbn [fst snd]; rewrite ?fneg_is_float, ?of_int_is_float; auto.
Qed.

(** A frame computes values of the format from values of the format. *)
Lemma step_representable (b : Bounds.t) (p : Particle.t) :
  representable F p = true -> representable F (Particle.step F p b) = true.
Proof.
  unfold representable. rewrite !andb_true_iff.
  intros [[[Hx Hy] Hvx] Hvy].
  rewrite step_position_x, step_position_y, step_velocity_x, step_velocity_y.
  destruct (reflect_rule_is_float (Bounds.width b)
              (fadd F (Vector2.x (Particle.position p))
                      (Vector2.x (Particle.velocity p)))
              (Vector2.x (Particle.velocity p))
              (fadd_is_float _ _ Hx Hvx) Hvx) as [-> ->].
  destruct (reflect_rule_is_float (Bounds.height b)
              (fadd F (Vector2.y (Particle.position p))
                      (Vector2.y (Particle.velocity p)))
              (Vector2.y (Particle.velocity p))
              (fadd_is_float _ _ Hy Hvy) Hvy) as [-> ->].
  auto.
Qed.

Lemma run_representable (n : nat) (s : ParticleSystem.t) :
  Forall (fun p => representable F p = true) (ParticleSystem.particles s) ->
  Forall (fun p => representable F p = true)
         (ParticleSystem.particles (ParticleSimulation.run F n s)).
Proof.
  intros H. induction n as [|n IH]; [exact H|].
  rewrite run_succ. simpl. rewrite Forall_map.
  apply (Forall_impl _ (fun p => step_representable _ p) IH).
Qed.

(** On the values of the format, and for a size whose last pixel the
    format holds exactly, the float comparisons of [within] are the
    inequalities of the reals. *)
Lemma within_real (size : Z) (p : float) :
  1 <= size <= 2 ^ fprec F ->
  is_float F p = true -> within F size p = true -> real_within size p.
Proof.
  intros Hs Hp Hw. unfold within in Hw.
  apply andb_true_iff in Hw as [H0 H1].
  destruct F as [prec emax]. cbn [fprec femax] in *.
  destruct (of_int_real_le prec emax ltac:(lia) ltac:(lia) (size - 1)
              ltac:(lia)) as (Hf & Hv & Hm).
  assert (Hnn : (0 <= IZR (size - 1))%R) by (apply IZR_le; lia).
  destruct p as [s|s| |s m e].
  - split; [reflexivity|]. simpl. lra.
  - exfalso. destruct s; [discriminate H0|].
    destruct (of_int (Format prec emax) (size - 1)) as [s'|s'| |s' m' e'];
      try discriminate Hf; discriminate H1.
  - discriminate H0.
  - destruct s; [discriminate H0|]. split; [reflexivity|].
    cbn [B2R]. split; [pose proof (F2R_pos m e); lra|].
    destruct (of_int (Format prec emax) (size - 1)) as [s'|s'| |s' m' e'];
      try discriminate Hf; try discriminate H1.
    destruct s'; [discriminate H1|]. cbn [mag] in Hm.
    apply Rle_trans with (F2R (Zpos m') e'); [|exact Hm].
    apply (F2R_of_fle prec emax); auto.
Qed.
End Values.

(** * More on frames *)

Lemma sample_run_color (F : format) (W H : Z) (n : nat) :
  forall st, Sample.COLOR (Sample.run F W H n st) = Sample.COLOR st.
Proof.
  induction n as [|n IH]; intros st; [reflexivity|].
  simpl. rewrite IH. reflexivity.
Qed.

Lemma game_loop_run_system (F : format) (n : nat) :
  forall st st',
  GameLoop.run F n st = ok st' ->
  fst st' = ParticleSimulation.run F n (fst st).
Proof.
  induction n as [|n IH]; intros st st' H; simpl in H.
  - injection H as <-. reflexivity.
  - unfold GameLoop.frame in H.
    destruct (GameLoop.render (snd st) _) as [e|screen]; simpl in H;
      [discriminate|].
    apply IH in H. exact H.
Qed.

(** * Exact results of the rounding *)

Section Exact.
Variables prec emax : Z.
Hypothesis prec_pos : 0 < prec.
Hypothesis prec_lt_emax : prec < emax.

(** A mantissa at its canonical exponent is not shifted. *)
Lemma shr_fexp_id (m e : Z) :
  fexp prec emax (Zdigits2 m + e) = e ->
  shr_fexp prec emax m e loc_Exact = (Build_shr_record m false false, e).
Proof.
  intros H. unfold shr_fexp. rewrite H, Z.sub_diag. reflexivity.
Qed.

(** A value that the format holds is rounded to itself. *)
Lemma binary_round_aux_exact (sx : bool) (mx : positive) (ex : Z)
    (q : positive) :
  ex <= fexp prec emax (Zdigits2 (Zpos mx) + ex) ->
  Zpos mx = Zpos q * 2 ^ (fexp prec emax (Zdigits2 (Zpos mx) + ex) - ex) ->
  fexp prec emax (Zdigits2 (Zpos mx) + ex) <= emax - prec ->
  binary_round_aux prec emax sx (Zpos mx) ex loc_Exact
  = S754_finite sx q (fexp prec emax (Zdigits2 (Zpos mx) + ex)).
Proof.
  intros Hpre Hq Hmax.
  destruct (shr_fexp_exact prec emax (Zpos mx) ex ltac:(lia) Hpre)
    as (mrs1 & Hs1 & Hm1 & Hl1).
  unfold binary_round_aux. rewrite Hs1. cbv iota beta.
  set (e' := fexp prec emax (Zdigits2 (Zpos mx) + ex)) in *.
  set (n := e' - ex) in *.
  assert (Hn : 0 <= n) by (unfold n; lia).
  pose proof (Z.pow_pos_nonneg 2 n ltac:(lia) Hn) as Hn2.
  assert (Hm : shr_m mrs1 = Zpos q)
    by (rewrite Hm1, Hq; apply Z.div_mul; lia).
  assert (Hl : loc_of_shr_record mrs1 = loc_Exact)
    by (apply Hl1; rewrite Hq; apply Z.mod_mul; lia).
  rewrite Hl, Hm. cbn [round_nearest_even].
  assert (Hc : fexp prec emax (Zdigits2 (Zpos q) + e') = e').
  { pose proof (Zdigits2_shiftl (Zpos q) n ltac:(lia) Hn) as Hd.
    rewrite <- Hq in Hd.
    replace (Zdigits2 (Zpos q) + e') with (Zdigits2 (Zpos mx) + ex)
      by (unfold n in Hd; lia).
    reflexivity. }
  rewrite (shr_fexp_id (Zpos q) e' Hc). cbn [shr_m].
  apply Z.leb_le in Hmax. rewrite Hmax. reflexivity.
Qed.

(** The float of a positive integer below [2 ^ prec]: the integer itself,
    its mantissa shifted to the full precision. *)
Lemma binary_round_int (s : bool) (n : positive) :
  Zpos n < 2 ^ prec ->
  binary_round prec emax s n 0
  = S754_finite s (Z.to_pos (Zpos n * 2 ^ (prec - Zdigits2 (Zpos n))))
                  (Zdigits2 (Zpos n) - prec).
Proof.
  intros Hn.
  pose proof (Zdigits2_bounds (Zpos n) ltac:(lia)) as [Hlo Hhi].
  pose proof (Zdigits2_pos (Zpos n) ltac:(lia)) as Hd.
  assert (Hdp : Zdigits2 (Zpos n) <= prec).
  { assert (Zdigits2 (Zpos n) - 1 < prec)
      by (apply (Z.pow_lt_mono_r_iff 2); lia).
    lia. }
  assert (Hfexp : fexp prec emax (Zpos (digits2_pos n) + 0)
                  = Zdigits2 (Zpos n) - prec).
  { cbn [Zdigits2] in *. unfold fexp, emin. lia. }
  unfold binary_round. rewrite Hfexp.
  set (d := Zdigits2 (Zpos n)) in *.
  set (k := prec - d).
  assert (Hk0 : 0 <= k) by (unfold k; lia).
  pose proof (Z.pow_pos_nonneg 2 k ltac:(lia) Hk0) as Hk.
  assert (Hpos : 0 < Zpos n * 2 ^ k) by (apply Z.mul_pos_pos; lia).
  assert (Hshift : shl_align n 0 (d - prec)
                   = (Z.to_pos (Zpos n * 2 ^ k), d - prec)).
  { destruct (shl_align_spec n 0 (d - prec)) as [[Hlt ->]|[Hge ->]].
    - f_equal. f_equal. f_equal. f_equal. unfold k. lia.
    - assert (E : d - prec = 0) by lia.
      assert (E' : k = 0) by (unfold k; lia).
      rewrite E, E'. f_equal. simpl. rewrite Pos.mul_1_r. reflexivity. }
  rewrite Hshift.
  assert (Hdig : Zdigits2 (Zpos (Z.to_pos (Zpos n * 2 ^ k))) + (d - prec) = d).
  { rewrite Z2Pos.id by assumption.
    rewrite Zdigits2_shiftl by lia. fold d. unfold k. lia. }
  assert (Hc : fexp prec emax
                 (Zdigits2 (Zpos (Z.to_pos (Zpos n * 2 ^ k))) + (d - prec))
               = d - prec).
  { rewrite Hdig. unfold fexp, emin. lia. }
  rewrite (binary_round_aux_exact s (Z.to_pos (Zpos n * 2 ^ k)) (d - prec)
             (Z.to_pos (Zpos n * 2 ^ k))).
  - rewrite Hc. reflexivity.
  - rewrite Hc. lia.
  - rewrite Hc, Z.sub_diag. simpl. lia.
  - rewrite Hc. lia.
Qed.
End Exact.

Section ExactValues.
Variable F : format.
Hypothesis format_ok : 0 < fprec F < femax F.

(** The float of an integer of magnitude below [2 ^ fprec F]. *)
Lemma of_int_exact (s : bool) (n : positive) :
  Zpos n < 2 ^ fprec F ->
  of_int F (if s then Zneg n else Zpos n)
  = S754_finite s
      (Z.to_pos (Zpos n * 2 ^ (fprec F - Zdigits2 (Zpos n))))
      (Zdigits2 (Zpos n) - fprec F).
Proof.
  intros Hn. unfold of_int.
  destruct s; cbn [binary_normalize]; apply binary_round_int; lia.
Qed.

(** [int(float(n))] is [n]. *)
Lemma py_int_of_int (n : Z) :
  Z.abs n < 2 ^ fprec F -> py_int (of_int F n) = ok n.
Proof.
  intros Hn.
  assert (Hp : forall (s : bool) (p : positive),
             Zpos p < 2 ^ fprec F ->
             py_int (of_int F (if s then Zneg p else Zpos p))
             = ok (if s then Zneg p else Zpos p)).
  { intros s p Hp. rewrite (of_int_exact s p Hp).
    pose proof (Zdigits2_bounds (Zpos p) ltac:(lia)) as [Hlo Hhi].
    pose proof (Zdigits2_pos (Zpos p) ltac:(lia)) as Hd.
    set (d := Zdigits2 (Zpos p)) in *.
    assert (Hdp : d <= fprec F).
    { assert (d - 1 < fprec F) by (apply (Z.pow_lt_mono_r_iff 2); lia).
      lia. }
    assert (Hk : 0 < 2 ^ (fprec F - d))
      by (apply Z.pow_pos_nonneg; lia).
    assert (Hpos : 0 < Zpos p * 2 ^ (fprec F - d))
      by (apply Z.mul_pos_pos; lia).
    unfold py_int.
    assert (E : match d - fprec F with
                | Zneg k =>
                    Z.shiftr (Zpos (Z.to_pos (Zpos p * 2 ^ (fprec F - d))))
                             (Zpos k)
                | _ => Z.shiftl (Zpos (Z.to_pos (Zpos p * 2 ^ (fprec F - d))))
                                (d - fprec F)
                end = Zpos p).
    { rewrite Z2Pos.id by assumption.
      destruct (d - fprec F) as [|k|k] eqn:Ek; [|lia|].
      - replace (fprec F - d) with 0 by lia.
        rewrite Z.shiftl_0_r. simpl. lia.
      - replace (fprec F - d) with (Zpos k) by lia.
        rewrite Z.shiftr_div_pow2 by lia. apply Z.div_mul. lia. }
    rewrite E. destruct s; reflexivity. }
  destruct n as [|p|p].
  - reflexivity.
  - apply (Hp false p). lia.
  - apply (Hp true p). lia.
Qed.

(** A product with 1 or -1 is exact: the value, or the value with its
    sign flipped. *)
Lemma fmul_unit (s : bool) (a : float) :
  is_float F a = true ->
  fmul F a (of_int F (if s then -1 else 1)) = if s then fneg a else a.
Proof.
  intros Ha.
  assert (H1 : Zpos 1 < 2 ^ fprec F).
  { assert (2 ^ 0 < 2 ^ fprec F) by (apply Z.pow_lt_mono_r; lia). lia. }
  change (if s then -1 else 1) with (if s then Zneg 1 else Zpos 1).
  rewrite (of_int_exact s 1 H1). cbn [Zdigits2 digits2_pos].
  set (k := fprec F - 1).
  assert (Hk0 : 0 <= k) by (unfold k; lia).
  pose proof (Z.pow_pos_nonneg 2 k ltac:(lia) Hk0) as Hk.
  destruct a as [sa|sa| |sa m e].
  - destruct s, sa; reflexivity.
  - destruct s, sa; reflexivity.
  - destruct s; reflexivity.
  - unfold is_float in Ha. cbn [valid_binary] in Ha.
    apply bounded_inv in Ha as [Hc He].
    unfold fmul. cbn [SFmul].
    assert (Hm : Zpos (m * Z.to_pos (1 * 2 ^ k)) = Zpos m * 2 ^ k).
    { rewrite Pos2Z.inj_mul, Z2Pos.id by lia. lia. }
    assert (Hd : Zdigits2 (Zpos (m * Z.to_pos (1 * 2 ^ k))) + (e + (1 - fprec F))
                 = Zdigits2 (Zpos m) + e).
    { rewrite Hm, Zdigits2_shiftl by lia. unfold k. lia. }
    rewrite (binary_round_aux_exact (fprec F) (femax F) (xorb sa s)
               (m * Z.to_pos (1 * 2 ^ k)) (e + (1 - fprec F)) m).
    + rewrite Hd, Hc. destruct s, sa; reflexivity.
    + rewrite Hd, Hc. lia.
    + rewrite Hd, Hc, Hm. f_equal. f_equal. unfold k. lia.
    + rewrite Hd, Hc. exact He.
Qed.
(** The float of a non-negative integer below [2 ^ fprec F] is finite and
    has the value of the integer. *)
Lemma of_int_value (n : Z) :
  0 <= n < 2 ^ fprec F ->
  is_finite (of_int F n) = true /\ B2R (of_int F n) = IZR n.
Proof.
  intros Hn. destruct n as [|p|p]; [split; reflexivity| |lia].
  pose proof (of_int_exact false p ltac:(lia)) as E. cbv iota in E.
  rewrite E. split; [reflexivity|]. cbn [B2R].
  pose proof (Zdigits2_bounds (Zpos p) ltac:(lia)) as [Hlo Hhi].
  pose proof (Zdigits2_pos (Zpos p) ltac:(lia)) as Hd.
  set (d := Zdigits2 (Zpos p)) in *.
  assert (Hdp : d <= fprec F).
  { assert (d - 1 < fprec F) by (apply (Z.pow_lt_mono_r_iff 2); lia). lia. }
  assert (Hk : 0 < 2 ^ (fprec F - d)) by (apply Z.pow_pos_nonneg; lia).
  rewrite Z2Pos.id by (apply Z.mul_pos_pos; lia).
  rewrite F2R_shift by lia.
  replace (d - fprec F + (fprec F - d)) with 0 by lia.
  unfold F2R. change (bpow 0) with 1%R. lra.
Qed.
End ExactValues.

(** * Drawing a list in two parts *)

Lemma draw_app (l1 : list Particle.t) :
  forall (s : Surface.t) (l2 : list Particle.t),
  PygameRenderer.draw s (l1 ++ l2)
  = (s' <- PygameRenderer.draw s l1 ;; PygameRenderer.draw s' l2).
Proof.
  induction l1 as [|p l1 IH]; intros s l2; [reflexivity|].
  cbn [app PygameRenderer.draw].
  destruct (PygameRenderer.pixel_of p) as [e|pos]; [reflexivity|].
  rewrite !bind_ok.
  destruct (Surface.set_at s pos (Color.as_tuple (Particle.color p)))
    as [e|s1]; [reflexivity|].
  rewrite !bind_ok. apply IH.
Qed.

(** * The claims *)

(** C1.  Once a frame has run, every position is inside the inclusive
    pixel range, and it stays there: for every frame [f >= 1] and every
    particle of a population without NaN positions and with finite
    velocities, in bounds of at least one pixel, [0 <= x <= width - 1] and
    [0 <= y <= height - 1] after the frame's [position += velocity] and
    reflection.  The state after frame [f] is the state at the start of
    frame [f + 1].  Both variants: the particle list of
    [sample_readable.py] and the columns of [sample.py].  The
    inequalities are those of the floats; when the coordinates are values
    of the format and the format holds [width - 1] and [height - 1]
    exactly, they are those of the real values too. *)
Theorem positions_within_bounds_after_every_frame
    (F : format) (b : Bounds.t) (ps : list Particle.t) (f : nat) :
  1 <= Bounds.width b -> 1 <= Bounds.height b ->
  Forall (fun p => well_formed p = true) ps ->
  (1 <= f)%nat ->
  Forall (fun p => in_bounds F b p = true)
         (ParticleSystem.particles
            (ParticleSimulation.run F f (ParticleSystem.mk ps b)))
  /\ Forall (fun x => within F (Bounds.width b) x = true)
            (Sample.P_X (Sample.run F (Bounds.width b) (Bounds.height b) f
                                    (columns ps)))
  /\ Forall (fun y => within F (Bounds.height b) y = true)
            (Sample.P_Y (Sample.run F (Bounds.width b) (Bounds.height b) f
                                    (columns ps)))
  /\ (0 < fprec F < femax F ->
      Bounds.width b <= 2 ^ fprec F -> Bounds.height b <= 2 ^ fprec F ->
      Forall (fun p => representable F p = true) ps ->
      Forall (fun p =>
                real_within (Bounds.width b) (Vector2.x (Particle.position p))
                /\ real_within (Bounds.height b)
                     (Vector2.y (Particle.position p)))
             (ParticleSystem.particles
                (ParticleSimulation.run F f (ParticleSystem.mk ps b)))).
Proof.
  intros Hw Hh Hwf Hf. destruct f as [|f]; [lia|].
  assert (Hin : Forall (fun p => in_bounds F b p = true)
                  (ParticleSystem.particles
                     (ParticleSimulation.run F (S f)
                        (ParticleSystem.mk ps b)))).
  { rewrite run_succ.
    pose proof (tick_in_bounds F
                  (ParticleSimulation.run F f (ParticleSystem.mk ps b))) as H.
    rewrite run_bounds in H. apply H; auto.
    apply run_well_formed. exact Hwf. }
  assert (Hreal : 0 < fprec F < femax F ->
            Bounds.width b <= 2 ^ fprec F -> Bounds.height b <= 2 ^ fprec F ->
            Forall (fun p => representable F p = true) ps ->
            Forall (fun p =>
                      real_within (Bounds.width b)
                        (Vector2.x (Particle.position p))
                      /\ real_within (Bounds.height b)
                           (Vector2.y (Particle.position p)))
                   (ParticleSystem.particles
                      (ParticleSimulation.run F (S f)
                         (ParticleSystem.mk ps b)))).
  { intros HF Hwp Hhp Hrep.
    pose proof (run_representable F HF (S f) (ParticleSystem.mk ps b) Hrep)
      as Hr.
    rewrite Forall_forall in Hin, Hr. apply Forall_forall. intros p Hp.
    specialize (Hin p Hp). specialize (Hr p Hp).
    unfold in_bounds in Hin. apply andb_true_iff in Hin as [Hx Hy].
    unfold representable in Hr. rewrite !andb_true_iff in Hr.
    destruct Hr as [[[Rx Ry] _] _].
    split; apply (within_real F HF); auto; lia. }
  split; [exact Hin|].
  split; [|split; [|exact Hreal]]; clear Hreal;
    destruct b as [W H]; rewrite run_columns; unfold columns;
    cbn [Sample.P_X Sample.P_Y Bounds.width Bounds.height] in *;
    rewrite Forall_map;
    apply (Forall_impl _ (P := fun p =>
                  in_bounds F (Bounds.mk W H) p = true));
    try exact Hin; intros p Hp; unfold in_bounds in Hp;
    apply andb_true_iff in Hp; apply Hp.
Qed.

Lemma positions_within_bounds_after_every_frame_witness :
  1 <= Bounds.width window /\ 1 <= Bounds.height window
  /\ Forall (fun p => well_formed p = true) [leaving_left]
  /\ (1 <= 3)%nat
  /\ Forall (fun p => representable binary64 p = true) [leaving_left]
  /\ Forall (fun p => in_bounds binary64 window p = true)
            (ParticleSystem.particles
               (ParticleSimulation.run binary64 3
                  (ParticleSystem.mk [leaving_left] window)))
  /\ Forall (fun p =>
               real_within (Bounds.width window)
                 (Vector2.x (Particle.position p))
               /\ real_within (Bounds.height window)
                    (Vector2.y (Particle.position p)))
            (ParticleSystem.particles
               (ParticleSimulation.run binary64 3
                  (ParticleSystem.mk [leaving_left] window))).
Proof.
  assert (H1 : 1 <= Bounds.width window) by (vm_compute; discriminate).
  assert (H2 : 1 <= Bounds.height window) by (vm_compute; discriminate).
  assert (H3 : Forall (fun p => well_formed p = true) [leaving_left])
    by (repeat constructor).
  assert (H4 : (1 <= 3)%nat) by (repeat constructor).
  assert (H5 : Forall (fun p => representable binary64 p = true)
                 [leaving_left]) by (repeat constructor).
  destruct (positions_within_bounds_after_every_frame
              binary64 window [leaving_left] 3 H1 H2 H3 H4)
    as (Hin & _ & _ & Hreal).
  repeat (split; [assumption|]).
  apply Hreal; try exact H5; try (vm_compute; discriminate).
  split; reflexivity.
Defined.

(** C2.  On each axis on its own the reflector applies the rule of the
    specification: below 0 the position becomes 0 and the velocity is
    negated; above [axisSize - 1] the position becomes [axisSize - 1] and
    the velocity is negated; otherwise nothing changes.  A position equal
    to 0 or to [axisSize - 1] changes nothing on its axis.  The masked
    negation and [np.clip] of [sample.py] do the same to every element.
    The sizes are those that the float format holds exactly, from 1 to
    [2 ^ fprec F]: there the edge of the model, the float of
    [axisSize - 1], is finite and its value is the integer
    [axisSize - 1] that the code compares with and assigns. *)
Theorem reflector_applies_the_rule
    (F : format) (b : Bounds.t) (position velocity : Vector2.t)
    (ps : list Particle.t) :
  0 < fprec F < femax F ->
  1 <= Bounds.width b <= 2 ^ fprec F ->
  1 <= Bounds.height b <= 2 ^ fprec F ->
  let out := Bounds.clamp_and_reflect F b position velocity in
  (Vector2.x (fst out), Vector2.x (snd out))
  = reflect_rule F (Bounds.width b) (Vector2.x position) (Vector2.x velocity)
  /\ (Vector2.y (fst out), Vector2.y (snd out))
     = reflect_rule F (Bounds.height b)
         (Vector2.y position) (Vector2.y velocity)
  /\ (Vector2.x position = fzero
      \/ Vector2.x position = of_int F (Bounds.width b - 1) ->
      Vector2.x (fst out) = Vector2.x position
      /\ Vector2.x (snd out) = Vector2.x velocity)
  /\ (Vector2.y position = fzero
      \/ Vector2.y position = of_int F (Bounds.height b - 1) ->
      Vector2.y (fst out) = Vector2.y position
      /\ Vector2.y (snd out) = Vector2.y velocity)
  /\ Sample.bounce F (Bounds.width b) (Bounds.height b) (columns ps)
     = columns (map (reflect_particle_rule F b) ps)
  /\ (is_finite (of_int F (Bounds.width b - 1)) = true
      /\ B2R (of_int F (Bounds.width b - 1)) = IZR (Bounds.width b - 1))
  /\ (is_finite (of_int F (Bounds.height b - 1)) = true
      /\ B2R (of_int F (Bounds.height b - 1)) = IZR (Bounds.height b - 1)).
Proof.
  intros HF Hw Hh out. unfold out. rewrite clamp_and_reflect_rule.
  cbn [fst snd Vector2.x Vector2.y].
  assert (Hw1 : 1 <= Bounds.width b) by lia.
  assert (Hh1 : 1 <= Bounds.height b) by lia.
  split; [symmetry; apply surjective_pairing|].
  split; [symmetry; apply surjective_pairing|].
  split; [|split; [|split; [|split]]].
  - intros [E|E]; rewrite E.
    + rewrite reflect_rule_at_zero by assumption. auto.
    + rewrite reflect_rule_at_edge by assumption. auto.
  - intros [E|E]; rewrite E.
    + rewrite reflect_rule_at_zero by assumption. auto.
    + rewrite reflect_rule_at_edge by assumption. auto.
  - destruct b as [W H]. rewrite bounce_columns. f_equal.
    apply map_ext. intros p. unfold reflected, reflect_particle_rule.
    rewrite clamp_and_reflect_rule. reflexivity.
  - apply (of_int_value F HF). lia.
  - apply (of_int_value F HF). lia.
Qed.

Lemma reflector_applies_the_rule_witness :
  0 < fprec binary64 < femax binary64
  /\ 1 <= Bounds.width window <= 2 ^ fprec binary64
  /\ 1 <= Bounds.height window <= 2 ^ fprec binary64
  /\ Bounds.clamp_and_reflect binary64 window
       (Vector2.mk (of_int binary64 961) (of_int binary64 539))
       (Vector2.mk (of_int binary64 3) (of_int binary64 1))
     = (Vector2.mk (of_int binary64 959) (of_int binary64 539),
        Vector2.mk (of_int binary64 (-3)) (of_int binary64 1)).
Proof.
  assert (H0 : 0 < fprec binary64 < femax binary64) by (split; reflexivity).
  assert (H1 : 1 <= Bounds.width window <= 2 ^ fprec binary64)
    by (split; vm_compute; discriminate).
  assert (H2 : 1 <= Bounds.height window <= 2 ^ fprec binary64)
    by (split; vm_compute; discriminate).
  split; [exact H0|]. split; [exact H1|]. split; [exact H2|].
  destruct (reflector_applies_the_rule binary64 window
              (Vector2.mk (of_int binary64 961) (of_int binary64 539))
              (Vector2.mk (of_int binary64 3) (of_int binary64 1))
              [] H0 H1 H2) as (Hx & Hy & _).
  destruct (Bounds.clamp_and_reflect binary64 window _ _) as [[x y] [vx vy]].
  cbn [fst snd Vector2.x Vector2.y] in Hx, Hy.
  vm_compute in Hx. vm_compute in Hy.
  injection Hx as -> ->. injection Hy as -> ->.
  vm_compute. reflexivity.
Defined.

(** C3, as the specification states it, fails: construction draws the
    position in [[0, width)], so the draw [1023 / 1024] puts [x] at
    959.0625 in a window of width 960, beyond [width - 1 = 959]. *)
Lemma constructed_position_beyond_last_pixel :
  unit_interval high_draw = true
  /\ exists p g,
       build_system (constant_random high_draw) (constant_randrange 0)
                    1 window tt
       = ok (ParticleSystem.mk [p] window, g)
       /\ Vector2.x (Particle.position p)
          = fdiv binary64 (of_int binary64 15345) (of_int binary64 16)
       /\ constructed_in_bounds binary64 window p = false.
Proof.
  split; [vm_compute; reflexivity|].
  eexists. eexists. split; [vm_compute; reflexivity|].
  split; vm_compute; reflexivity.
Qed.

(** C3, amended.  For bounds between 1 and [2 ^ 53] and draws of the unit
    interval, construction returns a population in which every particle
    has [0 <= x <= width], [0 <= y <= height] and both speeds at most the
    float [2.1].  The columns that [sample.py] builds in [float32] from
    draws of the unit interval obey the same bounds, for a size up to
    [2 ^ 24]. *)
Theorem constructed_population_ranges
    {rng : Type} (random : rng -> float * rng)
    (randrange : Z -> rng -> Z * rng)
    (count : Z) (b : Bounds.t) (g : rng) (size : Z) (r : list float) :
  (forall g', unit_interval (fst (random g')) = true) ->
  1 <= Bounds.width b <= 2 ^ 53 -> 1 <= Bounds.height b <= 2 ^ 53 ->
  1 <= size <= 2 ^ 24 -> Forall (fun u => unit_interval u = true) r ->
  (exists ps g',
     build_system random randrange count b g
     = ok (ParticleSystem.mk ps b, g')
     /\ Forall (fun p => constructed binary64 b p = true) ps)
  /\ Forall (fun p => fle fzero p = true
                      /\ fle p (of_int binary32 size) = true)
            (Sample.init_position binary32 size r)
  /\ Forall (fun v => fle (fabs v) (convert binary32 (literal binary64 21 1))
                      = true)
            (Sample.init_velocity binary32 r).
Proof.
  intros Hu Hw Hh Hs Hr. split; [|split].
  - unfold build_system.
    destruct (random_particles_constructed random randrange Hu
                (Z.to_nat count) b ltac:(lia) ltac:(lia) g)
      as (ps & g' & -> & Hps).
    rewrite bind_ok. exists ps, g'. split; [reflexivity|exact Hps].
  - apply init_position_range; [lia|exact Hr].
  - apply init_velocity_range, Hr.
Qed.

Lemma constructed_population_ranges_witness :
  (forall g', unit_interval (fst (constant_random high_draw g')) = true)
  /\ 1 <= Bounds.width window <= 2 ^ 53
  /\ 1 <= Bounds.height window <= 2 ^ 53
  /\ 1 <= Sample.W <= 2 ^ 24
  /\ Forall (fun u => unit_interval u = true) [high_draw; fzero]
  /\ exists ps g',
       build_system (constant_random high_draw) (constant_randrange 0)
                    2 window tt
       = ok (ParticleSystem.mk ps window, g')
       /\ Forall (fun p => constructed binary64 window p = true) ps.
Proof.
  assert (H1 : forall g' : unit,
             unit_interval (fst (constant_random high_draw g')) = true)
    by (intros g'; vm_compute; reflexivity).
  assert (H2 : 1 <= Bounds.width window <= 2 ^ 53)
    by (split; vm_compute; discriminate).
  assert (H3 : 1 <= Bounds.height window <= 2 ^ 53)
    by (split; vm_compute; discriminate).
  assert (H4 : 1 <= Sample.W <= 2 ^ 24)
    by (split; vm_compute; discriminate).
  assert (H5 : Forall (fun u => unit_interval u = true) [high_draw; fzero])
    by (repeat constructor).
  repeat (split; [assumption|]).
  apply (constructed_population_ranges
           (constant_random high_draw) (constant_randrange 0)
           2 window tt Sample.W [high_draw; fzero] H1 H2 H3 H4 H5).
Defined.

Lemma sample_particles_drawable :
  Forall drawable [red_at_5_5; green_outside; blue_at_5_5].
Proof.
  repeat constructor.
  - exists 5, 5. repeat split; vm_compute; reflexivity.
  - exists (-3), 12. repeat split; vm_compute; reflexivity.
  - exists 5, 5. repeat split; vm_compute; reflexivity.
Qed.

(** C4.  One render clears the buffer to black and then draws the
    particles in index order, each at its position truncated toward
    zero.  A pixel that no particle lands on is black; a pixel of the
    surface shows the colour of the highest-index particle that lands on
    it.  With every particle on the surface, [sample.py]'s direct buffer
    access renders the same buffer. *)
Theorem render_last_particle_wins
    (screen : Surface.t) (ps : list Particle.t) :
  Forall drawable ps ->
  exists out,
    GameLoop.render screen ps = ok out
    /\ (forall p i j, PygameRenderer.pixel_of p = ok (i, j) ->
          truncated (Vector2.x (Particle.position p)) i
          /\ truncated (Vector2.y (Particle.position p)) j)
    /\ (forall x y,
          Forall (fun q => PygameRenderer.pixel_of q <> ok (x, y)) ps ->
          Surface.pixel out x y = black)
    /\ (forall x y i p,
          Surface.inside screen x y = true ->
          nth_error ps i = Some p ->
          PygameRenderer.pixel_of p = ok (x, y) ->
          (forall j q, (i < j)%nat -> nth_error ps j = Some q ->
                       PygameRenderer.pixel_of q <> ok (x, y)) ->
          Surface.pixel out x y = Color.as_tuple (Particle.color p))
    /\ (Surface.w screen <= 2 ^ 31 -> Surface.h screen <= 2 ^ 31 ->
        Forall (lands_inside screen) ps ->
        Sample.draw screen (columns ps) = Some (ok out)).
Proof.
  intros Hd.
  destruct (draw_total ps Hd (PygameRenderer.clear screen)) as [out Hout].
  exists out. split; [exact Hout|]. split; [|split; [|split]].
  - intros p i j H. apply pixel_of_inv in H as [Hi Hj].
    split; apply py_int_truncated; assumption.
  - intros x y H. rewrite (draw_untouched x y ps H _ _ Hout). reflexivity.
  - intros x y i p Hin Hi Hp Hlater.
    apply (draw_last x y ps _ out i p Hout); auto.
  - intros Hw Hh Hin. rewrite sample_draw_render by assumption.
    unfold GameLoop.render. rewrite Hout. reflexivity.
Qed.

Lemma render_last_particle_wins_witness :
  Forall drawable [red_at_5_5; green_outside; blue_at_5_5]
  /\ exists out,
       GameLoop.render small_screen [red_at_5_5; green_outside; blue_at_5_5]
       = ok out
       /\ Surface.pixel out 5 5 = (0, 0, 255)
       /\ Surface.pixel out 4 5 = black.
Proof.
  split; [exact sample_particles_drawable|].
  destruct (render_last_particle_wins small_screen _
              sample_particles_drawable)
    as (out & Hout & _ & Hblack & Hlast & _).
  exists out. split; [exact Hout|]. split.
  - apply (Hlast 5 5 2%nat blue_at_5_5); try reflexivity.
    intros j q Hj Hq. destruct j as [|[|[|[|j]]]]; try lia; discriminate.
  - apply Hblack. repeat constructor; vm_compute; discriminate.
Defined.

(** C5, as the specification states it, fails: an out-of-range coordinate
    is not always a no-op.  [Surface.set_at] takes its coordinates as C
    integers.  A particle at [x = 2 ^ 31] truncates to the column
    [2 ^ 31], outside every surface; drawing it raises [OverflowError],
    and the particle after it is never drawn, where the same draw without
    it returns.  The program's own functions lead there: the particle that
    [build_system] builds for a width of [2 ^ 40] is inside its bounds and
    beyond a C [int], and the first frame of the game loop raises
    [OverflowError]. *)
Lemma far_particle_is_not_a_no_op :
  PygameRenderer.pixel_of far_right = ok (2 ^ 31, 5)
  /\ Surface.inside small_screen (2 ^ 31) 5 = false
  /\ PygameRenderer.draw small_screen [red_at_5_5; far_right; blue_at_5_5]
     = raise OverflowError
  /\ (exists out,
        PygameRenderer.draw small_screen [red_at_5_5; blue_at_5_5] = ok out
        /\ Surface.pixel out 5 5 = (0, 0, 255))
  /\ exists p,
       build_system (constant_random high_draw) (constant_randrange 0)
                    1 (Bounds.mk (2 ^ 40) 540) tt
       = ok (ParticleSystem.mk [p] (Bounds.mk (2 ^ 40) 540), tt)
       /\ GameLoop.frame binary64
            (ParticleSystem.mk [p] (Bounds.mk (2 ^ 40) 540), small_screen)
          = raise OverflowError.
Proof.
  split; [vm_compute; reflexivity|].
  split; [vm_compute; reflexivity|].
  split; [vm_compute; reflexivity|].
  split.
  - eexists. split; [vm_compute; reflexivity|]. vm_compute. reflexivity.
  - eexists. split.
    + vm_compute. reflexivity.
    + vm_compute. reflexivity.
Qed.

(** C5, amended.  In [sample_readable.py], take a particle whose truncated
    coordinates are outside the surface.  If both fit a C [int], the
    renderer performs no write for it: drawing the population ends as
    drawing it without that particle does, with the same buffer or the
    same exception.  If one of them does not fit a C [int], the particle
    is not a no-op: once the particles before it are drawn, [set_at]
    raises [OverflowError] and nothing after it is drawn.  In both cases a
    draw that returns has changed no entry outside the valid range. *)
Theorem out_of_range_particle_is_skipped_or_raises
    (screen : Surface.t) (before after : list Particle.t)
    (p : Particle.t) (i j : Z) :
  PygameRenderer.pixel_of p = ok (i, j) ->
  Surface.inside screen i j = false ->
  (c_int i = true -> c_int j = true ->
   PygameRenderer.draw screen (before ++ p :: after)
   = PygameRenderer.draw screen (before ++ after))
  /\ (c_int i && c_int j = false ->
      PygameRenderer.draw screen (before ++ p :: after)
      = (s' <- PygameRenderer.draw screen before ;; raise OverflowError))
  /\ (forall out x y,
        PygameRenderer.draw screen (before ++ p :: after) = ok out ->
        Surface.inside screen x y = false ->
        Surface.pixel out x y = Surface.pixel screen x y).
Proof.
  intros Hp Hout. split; [|split].
  - intros Hi Hj. apply (draw_skip p i j before after Hp Hi Hj screen Hout).
  - intros Hc. rewrite draw_app.
    destruct (PygameRenderer.draw screen before) as [e|s']; [reflexivity|].
    rewrite !bind_ok. cbn [PygameRenderer.draw]. rewrite Hp, bind_ok.
    unfold Surface.set_at. rewrite Hc. reflexivity.
  - intros out x y Hdraw Hxy.
    apply (draw_unclipped x y _ screen out Hdraw Hxy).
Qed.

Lemma out_of_range_particle_is_skipped_or_raises_witness :
  PygameRenderer.pixel_of green_outside = ok (-3, 12)
  /\ Surface.inside small_screen (-3) 12 = false
  /\ PygameRenderer.draw small_screen
       ([red_at_5_5] ++ green_outside :: [blue_at_5_5])
     = PygameRenderer.draw small_screen ([red_at_5_5] ++ [blue_at_5_5]).
Proof.
  assert (H1 : PygameRenderer.pixel_of green_outside = ok (-3, 12))
    by (vm_compute; reflexivity).
  assert (H2 : Surface.inside small_screen (-3) 12 = false) by reflexivity.
  split; [exact H1|]. split; [exact H2|].
  destruct (out_of_range_particle_is_skipped_or_raises small_screen
              [red_at_5_5] [blue_at_5_5] green_outside (-3) 12 H1 H2)
    as (Hskip & _ & _).
  apply Hskip; reflexivity.
Defined.

(** C6, as the specification states it, fails: nothing validates the
    configuration.  With [count = -1] and bounds [(0, 0)] construction
    returns an empty system; with [count = 1] and bounds [(0, -5)] it
    returns a system of one particle, and two full turns of the game loop
    (update, clear, draw) then run on it without an exception. *)
Lemma invalid_configuration_is_accepted :
  build_system (constant_random high_draw) (constant_randrange 0)
               (-1) (Bounds.mk 0 0) tt
  = ok (ParticleSystem.mk [] (Bounds.mk 0 0), tt)
  /\ exists p,
       build_system (constant_random high_draw) (constant_randrange 0)
                    1 (Bounds.mk 0 (-5)) tt
       = ok (ParticleSystem.mk [p] (Bounds.mk 0 (-5)), tt)
       /\ length (ParticleSystem.particles
                    (ParticleSimulation.run binary64 2
                       (ParticleSystem.mk [p] (Bounds.mk 0 (-5))))) = 1%nat
       /\ exists st,
            GameLoop.run binary64 2
              (ParticleSystem.mk [p] (Bounds.mk 0 (-5)), small_screen)
            = ok st.
Proof.
  split; [reflexivity|].
  eexists. split; [vm_compute; reflexivity|]. split; [reflexivity|].
  eexists. vm_compute. reflexivity.
Qed.

(** C6, amended.  Construction validates nothing: for every count, and
    every width and height that Python converts to a float exactly
    (magnitude up to [2 ^ 53]; below 1, zero and negative included), it
    returns a population, of [count] particles, or of none when [count]
    is negative.  The one exception it can raise, whatever the input, is
    the [OverflowError] of converting a bound beyond the floats. *)
Theorem construction_validates_nothing
    {rng : Type} (random : rng -> float * rng)
    (randrange : Z -> rng -> Z * rng)
    (count : Z) (b : Bounds.t) (g : rng) :
  Z.abs (Bounds.width b) <= 2 ^ 53 -> Z.abs (Bounds.height b) <= 2 ^ 53 ->
  (exists ps g',
     build_system random randrange count b g
     = ok (ParticleSystem.mk ps b, g')
     /\ length ps = Z.to_nat count)
  /\ (forall count' b' g' e,
        build_system random randrange count' b' g' = inl e ->
        e = OverflowError).
Proof.
  intros Hw Hh. split.
  - unfold build_system.
    destruct (random_particles_length random randrange
                (Z.to_nat count) b Hw Hh g) as (ps & g' & -> & Hl).
    rewrite bind_ok. exists ps, g'. split; [reflexivity|exact Hl].
  - intros count' b' g' e. unfold build_system.
    destruct (random_particles random randrange (Z.to_nat count') b' g')
      as [e'|[ps g'']] eqn:Hr; cbn [bind fst snd].
    + intros H. injection H as <-.
      apply (random_particles_exn random randrange _ b' e' g' Hr).
    + discriminate.
Qed.

Lemma construction_validates_nothing_witness :
  Z.abs (Bounds.width (Bounds.mk 0 (-5))) <= 2 ^ 53
  /\ Z.abs (Bounds.height (Bounds.mk 0 (-5))) <= 2 ^ 53
  /\ exists ps g',
       build_system (constant_random high_draw) (constant_randrange 0)
                    (-1) (Bounds.mk 0 (-5)) tt
       = ok (ParticleSystem.mk ps (Bounds.mk 0 (-5)), g')
       /\ length ps = Z.to_nat (-1).
Proof.
  assert (H1 : Z.abs (Bounds.width (Bounds.mk 0 (-5))) <= 2 ^ 53)
    by (vm_compute; discriminate).
  assert (H2 : Z.abs (Bounds.height (Bounds.mk 0 (-5))) <= 2 ^ 53)
    by (vm_compute; discriminate).
  split; [exact H1|]. split; [exact H2|].
  apply (construction_validates_nothing
           (constant_random high_draw) (constant_randrange 0)
           (-1) (Bounds.mk 0 (-5)) tt H1 H2).
Defined.

(** C7.  Any number of frames leaves every colour and the number of
    particles as they were at creation: in the particle list of
    [sample_readable.py] (also when each frame renders), and in the
    [COLOR] array and the length of the columns of [sample.py]. *)
Theorem frames_preserve_colors_and_count
    (F : format) (n : nat) (s : ParticleSystem.t) (screen : Surface.t)
    (W H : Z) (st : Sample.state) (ps : list Particle.t) :
  map Particle.color
      (ParticleSystem.particles (ParticleSimulation.run F n s))
  = map Particle.color (ParticleSystem.particles s)
  /\ length (ParticleSystem.particles (ParticleSimulation.run F n s))
     = length (ParticleSystem.particles s)
  /\ (forall s' screen',
        GameLoop.run F n (s, screen) = ok (s', screen') ->
        map Particle.color (ParticleSystem.particles s')
        = map Particle.color (ParticleSystem.particles s)
        /\ length (ParticleSystem.particles s')
           = length (ParticleSystem.particles s))
  /\ Sample.COLOR (Sample.run F W H n st) = Sample.COLOR st
  /\ length (Sample.P_X (Sample.run F W H n (columns ps))) = length ps
  /\ length (Sample.P_Y (Sample.run F W H n (columns ps))) = length ps
  /\ length (Sample.V_X (Sample.run F W H n (columns ps))) = length ps
  /\ length (Sample.V_Y (Sample.run F W H n (columns ps))) = length ps.
Proof.
  split; [apply run_colors|]. split; [apply run_length|]. split.
  - intros s' screen' Hrun. apply game_loop_run_system in Hrun.
    simpl in Hrun. subst s'. split; [apply run_colors|apply run_length].
  - split; [apply sample_run_color|].
    rewrite run_columns. unfold columns.
    cbn [Sample.P_X Sample.P_Y Sample.V_X Sample.V_Y].
    rewrite !length_map.
    pose proof (run_length F n (ParticleSystem.mk ps (Bounds.mk W H))) as Hl.
    simpl in Hl. auto.
Qed.



(** C9.  The reflector is idempotent: applied to its own output, for
    bounds of at least one pixel, it returns that output, position and
    velocity alike; so does the bounce of [sample.py] on its columns. *)
Theorem reflector_is_idempotent
    (F : format) (b : Bounds.t) (position velocity : Vector2.t)
    (ps : list Particle.t) :
  1 <= Bounds.width b -> 1 <= Bounds.height b ->
  let out := Bounds.clamp_and_reflect F b position velocity in
  Bounds.clamp_and_reflect F b (fst out) (snd out) = out
  /\ Sample.bounce F (Bounds.width b) (Bounds.height b)
       (Sample.bounce F (Bounds.width b) (Bounds.height b) (columns ps))
     = Sample.bounce F (Bounds.width b) (Bounds.height b) (columns ps).
Proof.
  intros Hw Hh.
  assert (Hone : forall position velocity,
             let out := Bounds.clamp_and_reflect F b position velocity in
             Bounds.clamp_and_reflect F b (fst out) (snd out) = out).
  { intros pos vel out. unfold out. rewrite !clamp_and_reflect_rule.
    cbn [fst snd Vector2.x Vector2.y].
    rewrite !reflect_rule_idempotent by assumption. reflexivity. }
  split; [apply Hone|].
  destruct b as [W H]. cbn [Bounds.width Bounds.height].
  rewrite !bounce_columns, map_map. f_equal. apply map_ext.
  intros p. unfold reflected at 1.
  pose proof (Hone (Particle.position p) (Particle.velocity p)) as Hp.
  unfold reflected.
  destruct (Bounds.clamp_and_reflect F (Bounds.mk W H) (Particle.position p)
              (Particle.velocity p)) as [pos vel].
  cbn [Particle.position Particle.velocity Particle.color fst snd] in *.
  rewrite Hp. reflexivity.
Qed.

Lemma reflector_is_idempotent_witness :
  1 <= Bounds.width window /\ 1 <= Bounds.height window
  /\ Bounds.clamp_and_reflect binary64 window
       (Vector2.mk fzero (of_int binary64 5))
       (Vector2.mk (of_int binary64 2) (of_int binary64 0))
     = Bounds.clamp_and_reflect binary64 window
         (Particle.position leaving_left) (Particle.velocity leaving_left).
Proof.
  assert (H1 : 1 <= Bounds.width window) by (vm_compute; discriminate).
  assert (H2 : 1 <= Bounds.height window) by (vm_compute; discriminate).
  split; [exact H1|]. split; [exact H2|].
  destruct (reflector_is_idempotent binary64 window
              (Particle.position leaving_left) (Particle.velocity leaving_left)
              [] H1 H2) as [Hidem _].
  rewrite <- Hidem. vm_compute. reflexivity.
Defined.

(** C10.  A frame preserves the speed on each axis: [|vx|] and [|vy|]
    after [Particle.step] are what they were before, and the same holds
    for every element of [V_X] and [V_Y] in [sample.py]. *)
Theorem frame_preserves_speed
    (F : format) (b : Bounds.t) (p : Particle.t) (ps : list Particle.t) :
  fabs (Vector2.x (Particle.velocity (Particle.step F p b)))
  = fabs (Vector2.x (Particle.velocity p))
  /\ fabs (Vector2.y (Particle.velocity (Particle.step F p b)))
     = fabs (Vector2.y (Particle.velocity p))
  /\ map fabs (Sample.V_X (Sample.update F (Bounds.width b) (Bounds.height b)
                                         (columns ps)))
     = map fabs (Sample.V_X (columns ps))
  /\ map fabs (Sample.V_Y (Sample.update F (Bounds.width b) (Bounds.height b)
                                         (columns ps)))
     = map fabs (Sample.V_Y (columns ps)).
Proof.
  assert (Hx : forall q,
             fabs (Vector2.x (Particle.velocity (Particle.step F q b)))
             = fabs (Vector2.x (Particle.velocity q)))
    by (intros q; rewrite step_velocity_x; apply reflect_rule_speed).
  assert (Hy : forall q,
             fabs (Vector2.y (Particle.velocity (Particle.step F q b)))
             = fabs (Vector2.y (Particle.velocity q)))
    by (intros q; rewrite step_velocity_y; apply reflect_rule_speed).
  split; [apply Hx|]. split; [apply Hy|].
  destruct b as [W H]. cbn [Bounds.width Bounds.height].
  rewrite update_columns. unfold columns.
  cbn [Sample.V_X Sample.V_Y]. rewrite !map_map.
  split; apply map_ext; intros q; [apply Hx|apply Hy].
Qed.

(** * Further properties of the two programs *)

(** ** Sums, products and negation *)

Lemma fadd_comm (F : format) (a b : float) : fadd F a b = fadd F b a.
Proof.
  destruct a as [sa|sa| |sa ma ea], b as [sb|sb| |sb mb eb];
    try reflexivity; try (destruct sa, sb; reflexivity).
  unfold fadd, SFadd. rewrite (Z.min_comm ea eb), Z.add_comm. reflexivity.
Qed.

Lemma fneg_fneg (a : float) : fneg (fneg a) = a.
Proof. destruct a; simpl; rewrite ?negb_involutive; reflexivity. Qed.

(** X1.  [Vector2.add] is commutative: the components of [a.add(b)] and of
    [b.add(a)] are the same floats, the same finite value, the same
    infinity or the same signed zero, and when one is NaN so is the
    other.  (Which NaN a sum is, its sign and payload, is outside the
    model of the floats.) *)
Theorem vector_add_is_commutative (F : format) (a b : Vector2.t) :
  Vector2.add F a b = Vector2.add F b a.
Proof.
  unfold Vector2.add.
  rewrite (fadd_comm F (Vector2.x a)), (fadd_comm F (Vector2.y a)).
  reflexivity.
Qed.

(** X2.  [Vector2.scale] by 1 returns the vector and by -1 flips the sign
    of both components and nothing else; scaling by -1 twice gives the
    vector back.  The components are values of the format. *)
Theorem vector_scale_by_unit (F : format) (v : Vector2.t) :
  0 < fprec F < femax F ->
  is_float F (Vector2.x v) = true -> is_float F (Vector2.y v) = true ->
  Vector2.scale F v (of_int F 1) = v
  /\ Vector2.scale F v (of_int F (-1))
     = Vector2.mk (fneg (Vector2.x v)) (fneg (Vector2.y v))
  /\ Vector2.scale F (Vector2.scale F v (of_int F (-1))) (of_int F (-1)) = v.
Proof.
  intros HF Hx Hy. destruct v as [x y]. cbn [Vector2.x Vector2.y] in *.
  unfold Vector2.scale. cbn [Vector2.x Vector2.y].
  rewrite (fmul_unit F HF false x Hx), (fmul_unit F HF false y Hy).
  rewrite (fmul_unit F HF true x Hx), (fmul_unit F HF true y Hy).
  rewrite (fmul_unit F HF true (fneg x)), (fmul_unit F HF true (fneg y))
    by (rewrite fneg_is_float; assumption).
  rewrite !fneg_fneg. auto.
Qed.

Lemma vector_scale_by_unit_witness :
  0 < fprec binary64 < femax binary64
  /\ is_float binary64 (literal binary64 21 1) = true
  /\ is_float binary64 (of_int binary64 (-3)) = true
  /\ Vector2.scale binary64
       (Vector2.mk (literal binary64 21 1) (of_int binary64 (-3)))
       (of_int binary64 (-1))
     = Vector2.mk (fneg (literal binary64 21 1)) (of_int binary64 3).
Proof.
  assert (H1 : 0 < fprec binary64 < femax binary64)
    by (split; reflexivity).
  assert (H2 : is_float binary64 (literal binary64 21 1) = true)
    by (vm_compute; reflexivity).
  assert (H3 : is_float binary64 (of_int binary64 (-3)) = true)
    by (vm_compute; reflexivity).
  split; [exact H1|]. split; [exact H2|]. split; [exact H3|].
  destruct (vector_scale_by_unit binary64
              (Vector2.mk (literal binary64 21 1) (of_int binary64 (-3)))
              H1 H2 H3) as (_ & -> & _).
  vm_compute. reflexivity.
Defined.

(** X3.  The [vx *= -1] of the reflector is exact.  On an axis where the
    position is outside, the velocity that [clamp_and_reflect] returns is
    the float product of the velocity with -1, and so is every element
    that the masked [V_X[mask] *= -1] of [sample.py] touches; the product
    changes the sign and nothing else.  The sizes are those that the
    float format holds exactly, from 1 to [2 ^ fprec F]. *)
Theorem reflected_velocity_is_the_product_with_minus_one
    (F : format) (b : Bounds.t) (position velocity : Vector2.t)
    (mask : list bool) (column : list float) :
  0 < fprec F < femax F ->
  1 <= Bounds.width b <= 2 ^ fprec F ->
  1 <= Bounds.height b <= 2 ^ fprec F ->
  is_float F (Vector2.x velocity) = true ->
  is_float F (Vector2.y velocity) = true ->
  Forall (fun v => is_float F v = true) column ->
  let out := Bounds.clamp_and_reflect F b position velocity in
  Vector2.x (snd out)
  = (if flt (Vector2.x position) fzero
        || fgt (Vector2.x position) (of_int F (Bounds.width b - 1))
     then fmul F (Vector2.x velocity) (of_int F (-1))
     else Vector2.x velocity)
  /\ Vector2.y (snd out)
     = (if flt (Vector2.y position) fzero
           || fgt (Vector2.y position) (of_int F (Bounds.height b - 1))
        then fmul F (Vector2.y velocity) (of_int F (-1))
        else Vector2.y velocity)
  /\ Sample.negate_where mask column
     = zip_with (fun (m : bool) v =>
                   if m then fmul F v (of_int F (-1)) else v) mask column.
Proof.
  intros HF Hw Hh Hx Hy Hcol out. unfold out.
  rewrite clamp_and_reflect_rule. cbn [fst snd Vector2.x Vector2.y].
  rewrite (fmul_unit F HF true _ Hx), (fmul_unit F HF true _ Hy).
  unfold reflect_rule. split; [|split].
  - destruct (flt (Vector2.x position) fzero); [reflexivity|].
    destruct (fgt (Vector2.x position) (of_int F (Bounds.width b - 1)));
      reflexivity.
  - destruct (flt (Vector2.y position) fzero); [reflexivity|].
    destruct (fgt (Vector2.y position) (of_int F (Bounds.height b - 1)));
      reflexivity.
  - unfold Sample.negate_where. revert mask.
    induction Hcol as [|v column Hv _ IH]; intros [|m mask];
      try reflexivity.
    cbn [zip_with]. rewrite IH, (fmul_unit F HF true v Hv). reflexivity.
Qed.

Lemma reflected_velocity_is_the_product_with_minus_one_witness :
  0 < fprec binary64 < femax binary64
  /\ 1 <= Bounds.width window <= 2 ^ fprec binary64
  /\ 1 <= Bounds.height window <= 2 ^ fprec binary64
  /\ is_float binary64 (Vector2.x (Particle.velocity leaving_left)) = true
  /\ is_float binary64 (Vector2.y (Particle.velocity leaving_left)) = true
  /\ Forall (fun v => is_float binary64 v = true) [literal binary64 21 1]
  /\ Vector2.x (snd (Bounds.clamp_and_reflect binary64 window
                       (Particle.position leaving_left)
                       (Particle.velocity leaving_left)))
     = fmul binary64 (of_int binary64 (-2)) (of_int binary64 (-1)).
Proof.
  assert (H1 : 0 < fprec binary64 < femax binary64)
    by (split; reflexivity).
  assert (H2 : is_float binary64 (Vector2.x (Particle.velocity leaving_left))
               = true) by (vm_compute; reflexivity).
  assert (H3 : is_float binary64 (Vector2.y (Particle.velocity leaving_left))
               = true) by (vm_compute; reflexivity).
  assert (H4 : Forall (fun v => is_float binary64 v = true)
                 [literal binary64 21 1])
    by (repeat constructor).
  assert (Hw : 1 <= Bounds.width window <= 2 ^ fprec binary64)
    by (split; vm_compute; discriminate).
  assert (Hh : 1 <= Bounds.height window <= 2 ^ fprec binary64)
    by (split; vm_compute; discriminate).
  split; [exact H1|]. split; [exact Hw|]. split; [exact Hh|].
  split; [exact H2|]. split; [exact H3|]. split; [exact H4|].
  destruct (reflected_velocity_is_the_product_with_minus_one
              binary64 window (Particle.position leaving_left)
              (Particle.velocity leaving_left) [true] _ H1 Hw Hh H2 H3 H4)
    as (-> & _ & _).
  vm_compute. reflexivity.
Defined.

(** ** The direction of a reflected velocity *)

Section Bounce.
Variable F : format.
Hypothesis format_ok : 0 < fprec F < femax F.

Lemma fle_not_fgt (a b : float) : fle a b = true -> fgt a b = false.
Proof.
  unfold fle, fgt, SFleb, SFltb. rewrite (SFcompare_antisym a b).
  destruct (SFcompare a b) as [[]|]; simpl; congruence.
Qed.

(** What is above a non-negative value is not below zero. *)
Lemma fgt_nonneg_not_negative (s B : float) :
  signed false B = true -> fgt s B = true -> flt s fzero = false.
Proof.
  destruct s as [ss|ss| |ss ms es], B as [sb|sb| |sb mb eb];
    try destruct ss; try destruct sb; simpl; intros H1 H2;
    try discriminate; reflexivity.
Qed.

(** A zero or a negative value is not above a non-negative one. *)
Lemma not_above_nonneg (r B : float) :
  signed false B = true ->
  signed true r = true \/ (exists s, r = S754_zero s) ->
  fgt r B = false.
Proof.
  intros HB [Hr|[s ->]].
  - destruct r as [sr|sr| |sr mr er], B as [sb|sb| |sb mb eb];
      try destruct sr; try destruct sb; simpl in *;
      try discriminate; reflexivity.
  - destruct B as [sb|sb| |sb mb eb]; try destruct sb; simpl in *;
      try discriminate; reflexivity.
Qed.

(** From a non-negative position, only a negative velocity leads below
    zero. *)
Lemma sum_below_zero (x v : float) :
  fle fzero x = true -> flt (fadd F x v) fzero = true -> flt v fzero = true.
Proof.
  intros Hx Hs.
  destruct x as [sx|sx| |sx mx ex]; try discriminate Hx;
    destruct sx; try discriminate Hx;
    destruct v as [sv|sv| |sv mv ev]; try destruct sv;
    try reflexivity; try (cbn in Hs; discriminate Hs).
  exfalso. unfold fadd, SFadd in Hs. cbn [cond_Zopp] in Hs.
  destruct (signed_false_nonneg _
              (binary_normalize_nonneg (fprec F) (femax F)
                 (Zpos (fst (shl_align mx ex (Z.min ex ev)))
                  + Zpos (fst (shl_align mv ev (Z.min ex ev))))
                 (Z.min ex ev) ltac:(lia))) as [_ H].
  congruence.
Qed.

(** From a position that is not above a non-negative bound, only a positive
    velocity leads above the bound. *)
Lemma sum_above (x v B : float) :
  is_float F x = true -> is_float F B = true -> signed false B = true ->
  fle x B = true -> fgt (fadd F x v) B = true -> flt fzero v = true.
Proof.
  intros Hvx HvB HB Hx Hs.
  destruct v as [sv|sv| |sv mv ev].
  - exfalso. destruct x as [sx|sx| |sx mx ex].
    + rewrite (not_above_nonneg (fadd F (S754_zero sx) (S754_zero sv)) B HB)
        in Hs; [discriminate|].
      right. destruct sx, sv; eexists; reflexivity.
    + change (fadd F (S754_infinity sx) (S754_zero sv))
        with (S754_infinity sx) in Hs.
      rewrite (fle_not_fgt _ _ Hx) in Hs. discriminate.
    + discriminate Hx.
    + change (fadd F (S754_finite sx mx ex) (S754_zero sv))
        with (S754_finite sx mx ex) in Hs.
      rewrite (fle_not_fgt _ _ Hx) in Hs. discriminate.
  - destruct sv; [exfalso|reflexivity].
    destruct x as [sx|sx| |sx mx ex]; try discriminate Hx.
    + change (fadd F (S754_zero sx) (S754_infinity true))
        with (S754_infinity true) in Hs.
      rewrite (not_above_nonneg _ B HB) in Hs; [discriminate|].
      left. reflexivity.
    + destruct sx.
      * change (fadd F (S754_infinity true) (S754_infinity true))
          with (S754_infinity true) in Hs.
        rewrite (fle_not_fgt _ _ Hx) in Hs. discriminate.
      * destruct B as [sb|sb| |sb mb eb]; try destruct sb; discriminate.
    + change (fadd F (S754_finite sx mx ex) (S754_infinity true))
        with (S754_infinity true) in Hs.
      rewrite (not_above_nonneg _ B HB) in Hs; [discriminate|].
      left. reflexivity.
  - exfalso. destruct x, B; discriminate.
  - destruct sv; [exfalso|reflexivity].
    destruct x as [sx|sx| |sx mx ex]; try discriminate Hx.
    + change (fadd F (S754_zero sx) (S754_finite true mv ev))
        with (S754_finite true mv ev) in Hs.
      rewrite (not_above_nonneg _ B HB) in Hs; [discriminate|].
      left. reflexivity.
    + change (fadd F (S754_infinity sx) (S754_finite true mv ev))
        with (S754_infinity sx) in Hs.
      rewrite (fle_not_fgt _ _ Hx) in Hs. discriminate.
    + unfold fadd, SFadd in Hs. cbn [cond_Zopp] in Hs.
      set (ez := Z.min ex ev) in *.
      pose proof (shl_align_min mx ex ez ltac:(unfold ez; lia)) as Hax.
      set (ax := fst (shl_align mx ex ez)) in *.
      set (av := fst (shl_align mv ev ez)) in *.
      destruct (cond_Zopp sx (Zpos ax) + - Zpos av) as [|p|p] eqn:Hz;
        cbn [binary_normalize] in Hs.
      * rewrite (not_above_nonneg _ B HB) in Hs; [discriminate|].
        right. eexists. reflexivity.
      * destruct sx; cbn [cond_Zopp] in Hz; [lia|].
        unfold is_float in Hvx, HvB. cbn [valid_binary] in Hvx.
        assert (Hle : (F2R (Zpos p) ez <= F2R (Zpos mx) ex)%R).
        { rewrite <- Hax. apply F2R_le. lia. }
        destruct (binary_round_le (fprec F) (femax F) ltac:(lia)
                    false p ez mx ex Hvx Hle)
          as [Hr|(m & e & Hr & Hb & Hv)]; rewrite Hr in Hs.
        -- rewrite (not_above_nonneg _ B HB) in Hs; [discriminate|].
           right. eexists. reflexivity.
        -- destruct B as [sb|sb| |sb mb eb]; try destruct sb;
             try discriminate.
           cbn [valid_binary] in HvB.
           apply (F2R_of_fle (fprec F) (femax F)) in Hx; auto.
           apply (F2R_of_flt (fprec F) (femax F)) in Hs; auto.
           lra.
      * rewrite (not_above_nonneg _ B HB) in Hs; [discriminate|].
        left. apply binary_round_signed.
Qed.
End Bounce.

Lemma flt_fneg (v : float) : flt fzero (fneg v) = flt v fzero.
Proof. destruct v as [[]|[]| |[] m e]; reflexivity. Qed.

Lemma fneg_flt (v : float) : flt (fneg v) fzero = flt fzero v.
Proof. destruct v as [[]|[]| |[] m e]; reflexivity. Qed.

Lemma bounce_axis (F : format) (size : Z) (x v : float) :
  0 < fprec F < femax F -> 1 <= size ->
  is_float F x = true -> within F size x = true ->
  (flt (fadd F x v) fzero = true ->
   reflect_rule F size (fadd F x v) v = (fzero, fneg v)
   /\ flt fzero (fneg v) = true)
  /\ (fgt (fadd F x v) (of_int F (size - 1)) = true ->
      reflect_rule F size (fadd F x v) v = (of_int F (size - 1), fneg v)
      /\ flt (fneg v) fzero = true).
Proof.
  intros HF Hs Hx Hw. unfold within in Hw.
  apply andb_true_iff in Hw as [H0 H1].
  assert (HB : signed false (of_int F (size - 1)) = true)
    by (apply binary_normalize_nonneg; lia).
  split; intros H; unfold reflect_rule.
  - rewrite H. split; [reflexivity|].
    rewrite flt_fneg. apply (sum_below_zero F x v H0 H).
  - rewrite (fgt_nonneg_not_negative _ _ HB H), H. split; [reflexivity|].
    rewrite fneg_flt.
    apply (sum_above F HF x v (of_int F (size - 1)) Hx
             (of_int_is_float F HF (size - 1)) HB H1 H).
Qed.

(** X4.  A reflected velocity points back inside.  When a particle that is
    inside the bounds, at a position the format holds, steps below 0 on an
    axis, its velocity on that axis after the frame is strictly positive;
    when it steps above [axisSize - 1], strictly negative. *)
Theorem reflection_points_inward
    (F : format) (b : Bounds.t) (p : Particle.t) :
  0 < fprec F < femax F ->
  1 <= Bounds.width b -> 1 <= Bounds.height b ->
  is_float F (Vector2.x (Particle.position p)) = true ->
  is_float F (Vector2.y (Particle.position p)) = true ->
  in_bounds F b p = true ->
  let next := Particle.position (advanced F p) in
  let after := Particle.velocity (Particle.step F p b) in
  (flt (Vector2.x next) fzero = true -> flt fzero (Vector2.x after) = true)
  /\ (fgt (Vector2.x next) (of_int F (Bounds.width b - 1)) = true ->
      flt (Vector2.x after) fzero = true)
  /\ (flt (Vector2.y next) fzero = true -> flt fzero (Vector2.y after) = true)
  /\ (fgt (Vector2.y next) (of_int F (Bounds.height b - 1)) = true ->
      flt (Vector2.y after) fzero = true).
Proof.
  intros HF Hw Hh Hx Hy Hin next after. unfold next, after, advanced.
  cbn [Particle.position Vector2.add Vector2.x Vector2.y].
  rewrite step_velocity_x, step_velocity_y.
  unfold in_bounds in Hin. apply andb_true_iff in Hin as [Bx By].
  destruct (bounce_axis F (Bounds.width b) _
              (Vector2.x (Particle.velocity p)) HF Hw Hx Bx) as [Xl Xh].
  destruct (bounce_axis F (Bounds.height b) _
              (Vector2.y (Particle.velocity p)) HF Hh Hy By) as [Yl Yh].
  repeat split; intros H.
  - destruct (Xl H) as [-> Hv]. exact Hv.
  - destruct (Xh H) as [-> Hv]. exact Hv.
  - destruct (Yl H) as [-> Hv]. exact Hv.
  - destruct (Yh H) as [-> Hv]. exact Hv.
Qed.

Lemma reflection_points_inward_witness :
  0 < fprec binary64 < femax binary64
  /\ 1 <= Bounds.width window /\ 1 <= Bounds.height window
  /\ is_float binary64 (Vector2.x (Particle.position on_left_edge)) = true
  /\ is_float binary64 (Vector2.y (Particle.position on_left_edge)) = true
  /\ in_bounds binary64 window on_left_edge = true
  /\ flt (Vector2.x (Particle.position (advanced binary64 on_left_edge)))
         fzero = true
  /\ flt fzero (Vector2.x (Particle.velocity
                             (Particle.step binary64 on_left_edge window)))
     = true.
Proof.
  assert (H1 : 0 < fprec binary64 < femax binary64) by (split; reflexivity).
  assert (H2 : 1 <= Bounds.width window) by (vm_compute; discriminate).
  assert (H3 : 1 <= Bounds.height window) by (vm_compute; discriminate).
  assert (H4 : is_float binary64 (Vector2.x (Particle.position on_left_edge))
               = true) by (vm_compute; reflexivity).
  assert (H5 : is_float binary64 (Vector2.y (Particle.position on_left_edge))
               = true) by (vm_compute; reflexivity).
  assert (H6 : in_bounds binary64 window on_left_edge = true)
    by (vm_compute; reflexivity).
  assert (H7 : flt (Vector2.x (Particle.position
                                 (advanced binary64 on_left_edge)))
                   fzero = true) by (vm_compute; reflexivity).
  repeat (split; [assumption|]).
  destruct (reflection_points_inward binary64 window on_left_edge
              H1 H2 H3 H4 H5 H6) as (Hlow & _).
  apply Hlow, H7.
Defined.

(** X5.  A particle that a frame clamps is drawn on the border.  When the
    advanced position is below 0 on an axis, the pixel coordinate of the
    particle after the frame is 0 on that axis; when it is above
    [axisSize - 1], the coordinate is [axisSize - 1] exactly, for a size
    that the format holds. *)
Theorem clamped_particle_is_drawn_on_the_border
    (F : format) (b : Bounds.t) (p : Particle.t) :
  0 < fprec F < femax F ->
  1 <= Bounds.width b <= 2 ^ fprec F ->
  1 <= Bounds.height b <= 2 ^ fprec F ->
  let next := Particle.position (advanced F p) in
  let after := Particle.position (Particle.step F p b) in
  (flt (Vector2.x next) fzero = true -> py_int (Vector2.x after) = ok 0)
  /\ (fgt (Vector2.x next) (of_int F (Bounds.width b - 1)) = true ->
      py_int (Vector2.x after) = ok (Bounds.width b - 1))
  /\ (flt (Vector2.y next) fzero = true -> py_int (Vector2.y after) = ok 0)
  /\ (fgt (Vector2.y next) (of_int F (Bounds.height b - 1)) = true ->
      py_int (Vector2.y after) = ok (Bounds.height b - 1)).
Proof.
  intros HF Hw Hh next after. unfold next, after, advanced.
  cbn [Particle.position Vector2.add Vector2.x Vector2.y].
  rewrite step_position_x, step_position_y. unfold reflect_rule.
  assert (HB : forall size, 1 <= size ->
                 signed false (of_int F (size - 1)) = true)
    by (intros size Hs; apply binary_normalize_nonneg; lia).
  repeat split; intros H.
  - rewrite H. reflexivity.
  - rewrite (fgt_nonneg_not_negative _ _
               (HB (Bounds.width b) ltac:(lia)) H), H.
    apply (py_int_of_int F HF). lia.
  - rewrite H. reflexivity.
  - rewrite (fgt_nonneg_not_negative _ _
               (HB (Bounds.height b) ltac:(lia)) H), H.
    apply (py_int_of_int F HF). lia.
Qed.

Lemma clamped_particle_is_drawn_on_the_border_witness :
  0 < fprec binary32 < femax binary32
  /\ 1 <= Bounds.width window <= 2 ^ fprec binary32
  /\ 1 <= Bounds.height window <= 2 ^ fprec binary32
  /\ flt (Vector2.x (Particle.position (advanced binary32 on_left_edge)))
         fzero = true
  /\ py_int (Vector2.x (Particle.position
                          (Particle.step binary32 on_left_edge window)))
     = ok 0.
Proof.
  assert (H1 : 0 < fprec binary32 < femax binary32) by (split; reflexivity).
  assert (H2 : 1 <= Bounds.width window <= 2 ^ fprec binary32)
    by (split; vm_compute; discriminate).
  assert (H3 : 1 <= Bounds.height window <= 2 ^ fprec binary32)
    by (split; vm_compute; discriminate).
  assert (H4 : flt (Vector2.x (Particle.position
                                 (advanced binary32 on_left_edge)))
                   fzero = true) by (vm_compute; reflexivity).
  repeat (split; [assumption|]).
  destruct (clamped_particle_is_drawn_on_the_border binary32 window
              on_left_edge H1 H2 H3) as (Hlow & _).
  apply Hlow, H4.
Defined.

(** ** The image does not depend on the frame before *)

Lemma same_image_store (s1 s2 : Surface.t) (x y : Z) (c : Z * Z * Z) :
  same_image s1 s2 ->
  same_image (Surface.store s1 x y c) (Surface.store s2 x y c).
Proof.
  intros (Hw & Hh & Hp). repeat split; auto.
  intros i j. cbn [Surface.store Surface.pixel]. rewrite Hp. reflexivity.
Qed.

Lemma same_image_fill (s1 s2 : Surface.t) (c : Z * Z * Z) :
  Surface.w s1 = Surface.w s2 -> Surface.h s1 = Surface.h s2 ->
  same_image (Surface.fill s1 c) (Surface.fill s2 c).
Proof. intros Hw Hh. repeat split; auto. Qed.

Lemma same_image_inside (s1 s2 : Surface.t) (x y : Z) :
  same_image s1 s2 -> Surface.inside s1 x y = Surface.inside s2 x y.
Proof.
  intros (Hw & Hh & _). unfold Surface.inside. rewrite Hw, Hh. reflexivity.
Qed.

Lemma set_at_same_image (s1 s2 : Surface.t) (pos : Z * Z) (c : Z * Z * Z) :
  same_image s1 s2 ->
  same_render (Surface.set_at s1 pos c) (Surface.set_at s2 pos c).
Proof.
  intros H. destruct pos as [x y]. unfold Surface.set_at.
  rewrite (same_image_inside s1 s2 x y H).
  destruct (c_int x && c_int y); [|reflexivity].
  destruct (Surface.inside s2 x y); [|exact H].
  destruct (is_color c); [|reflexivity].
  apply same_image_store, H.
Qed.

Lemma draw_same_image (ps : list Particle.t) :
  forall s1 s2, same_image s1 s2 ->
  same_render (PygameRenderer.draw s1 ps) (PygameRenderer.draw s2 ps).
Proof.
  induction ps as [|p ps IH]; intros s1 s2 H; [exact H|].
  cbn [PygameRenderer.draw].
  destruct (PygameRenderer.pixel_of p) as [e|pos]; [reflexivity|].
  rewrite !bind_ok.
  pose proof (set_at_same_image s1 s2 pos
                (Color.as_tuple (Particle.color p)) H) as Hs.
  destruct (Surface.set_at s1 pos _) as [e1|o1],
           (Surface.set_at s2 pos _) as [e2|o2];
    cbn [same_render] in Hs; try contradiction.
  - exact Hs.
  - rewrite !bind_ok. apply IH, Hs.
Qed.

Lemma store_all_same_image (pos : list (Z * Z)) :
  forall (c : list (Z * Z * Z)) (s1 s2 : Surface.t),
  same_image s1 s2 ->
  same_image (Sample.store_all s1 pos c) (Sample.store_all s2 pos c).
Proof.
  induction pos as [|[i j] pos IH]; intros [|k c] s1 s2 H; try exact H.
  cbn [Sample.store_all]. apply IH, same_image_store, H.
Qed.

(** X6.  A frame's image does not depend on the image before it: on two
    screens of one size, whatever they show, rendering the same particles
    ends alike, with the same exception or the same image, pixel for
    pixel.  So does the direct buffer access of [sample.py]. *)
Theorem render_forgets_the_previous_frame
    (screen1 screen2 : Surface.t) (ps : list Particle.t)
    (st : Sample.state) :
  Surface.w screen1 = Surface.w screen2 ->
  Surface.h screen1 = Surface.h screen2 ->
  same_render (GameLoop.render screen1 ps) (GameLoop.render screen2 ps)
  /\ match Sample.draw screen1 st, Sample.draw screen2 st with
     | Some r1, Some r2 => same_render r1 r2
     | None, None => True
     | _, _ => False
     end.
Proof.
  intros Hw Hh. split.
  - apply draw_same_image, same_image_fill; assumption.
  - unfold Sample.draw.
    destruct (Sample.astype_int32 (Sample.P_X st)) as [xi|]; [|exact I].
    destruct (Sample.astype_int32 (Sample.P_Y st)) as [yi|]; [|exact I].
    unfold Sample.assign. cbn [Surface.fill Surface.w Surface.h].
    rewrite Hw, Hh.
    destruct (Sample.indices (Surface.w screen2) (Surface.h screen2) xi yi)
      as [e|pos]; [reflexivity|].
    rewrite !bind_ok. cbn [same_render].
    apply store_all_same_image, same_image_fill; assumption.
Qed.

Lemma render_forgets_the_previous_frame_witness :
  Surface.w small_screen = Surface.w (Surface.mk 10 10 (fun _ _ => black))
  /\ Surface.h small_screen = Surface.h (Surface.mk 10 10 (fun _ _ => black))
  /\ same_render
       (GameLoop.render small_screen [red_at_5_5; green_outside])
       (GameLoop.render (Surface.mk 10 10 (fun _ _ => black))
                        [red_at_5_5; green_outside]).
Proof.
  assert (H1 : Surface.w small_screen
               = Surface.w (Surface.mk 10 10 (fun _ _ => black)))
    by reflexivity.
  assert (H2 : Surface.h small_screen
               = Surface.h (Surface.mk 10 10 (fun _ _ => black)))
    by reflexivity.
  split; [exact H1|]. split; [exact H2|].
  apply (render_forgets_the_previous_frame small_screen
           (Surface.mk 10 10 (fun _ _ => black))
           [red_at_5_5; green_outside] (columns []) H1 H2).
Defined.

(** ** The direct buffer access stays inside the buffer *)

Lemma np_index_range (size i i' : Z) :
  Sample.np_index size i = ok i' -> 0 <= i' < size.
Proof.
  unfold Sample.np_index.
  destruct ((0 <=? i) && (i <? size)) eqn:H1.
  - intros H. injection H as <-.
    apply andb_true_iff in H1 as [Ha Hb].
    apply Z.leb_le in Ha. apply Z.ltb_lt in Hb. lia.
  - destruct ((- size <=? i) && (i <? 0)) eqn:H2; [|discriminate].
    intros H. injection H as <-.
    apply andb_true_iff in H2 as [Ha Hb].
    apply Z.leb_le in Ha. apply Z.ltb_lt in Hb. lia.
Qed.

Lemma indices_range (w h : Z) (xi : list Z) :
  forall (yi : list Z) (l : list (Z * Z)),
  Sample.indices w h xi yi = ok l ->
  Forall (fun pos => (0 <= fst pos < w) /\ (0 <= snd pos < h)) l.
Proof.
  induction xi as [|i xi IH]; intros [|j yi] l H;
    try (injection H as <-; constructor).
  cbn [Sample.indices] in H.
  destruct (Sample.np_index w i) as [e|i'] eqn:Hi; [discriminate|].
  rewrite bind_ok in H.
  destruct (Sample.np_index h j) as [e|j'] eqn:Hj; [discriminate|].
  rewrite bind_ok in H.
  destruct (Sample.indices w h xi yi) as [e|rest] eqn:Hr; [discriminate|].
  rewrite bind_ok in H. injection H as <-.
  constructor; [|apply (IH yi rest Hr)].
  split; [apply (np_index_range w i i' Hi)|apply (np_index_range h j j' Hj)].
Qed.

Lemma store_all_size (pos : list (Z * Z)) :
  forall (c : list (Z * Z * Z)) (arr : Surface.t),
  Surface.w (Sample.store_all arr pos c) = Surface.w arr
  /\ Surface.h (Sample.store_all arr pos c) = Surface.h arr.
Proof.
  induction pos as [|[i j] pos IH]; intros [|k c] arr; try (split; reflexivity).
  cbn [Sample.store_all]. destruct (IH c (Surface.store arr i j k)) as [-> ->].
  split; reflexivity.
Qed.

Lemma store_all_elsewhere (x y : Z) (pos : list (Z * Z)) :
  Forall (fun q => q <> (x, y)) pos ->
  forall (c : list (Z * Z * Z)) (arr : Surface.t),
  Surface.pixel (Sample.store_all arr pos c) x y = Surface.pixel arr x y.
Proof.
  induction 1 as [|[i j] pos Hq _ IH]; intros [|k c] arr; try reflexivity.
  cbn [Sample.store_all]. rewrite IH. cbn [Surface.store Surface.pixel].
  destruct (Z.eqb_spec x i) as [->|]; [|reflexivity].
  destruct (Z.eqb_spec y j) as [->|]; [congruence|reflexivity].
Qed.

(** X7.  The assignment [arr[xi, yi] = COLOR] of [sample.py] never stores
    outside the buffer: when it returns, the buffer has the size it had and
    every entry outside [[0, w - 1] x [0, h - 1]] is what it was, negative
    (wrapping) indices included. *)
Theorem direct_indexing_stays_in_the_buffer
    (arr out : Surface.t) (xi yi : list Z) (c : list (Z * Z * Z)) :
  Sample.assign arr xi yi c = ok out ->
  Surface.w out = Surface.w arr /\ Surface.h out = Surface.h arr
  /\ forall x y, Surface.inside arr x y = false ->
                 Surface.pixel out x y = Surface.pixel arr x y.
Proof.
  unfold Sample.assign. intros H.
  destruct (Sample.indices (Surface.w arr) (Surface.h arr) xi yi)
    as [e|pos] eqn:Hpos; [discriminate|].
  rewrite bind_ok in H. injection H as <-.
  destruct (store_all_size pos c arr) as [Hw Hh].
  split; [exact Hw|]. split; [exact Hh|].
  intros x y Hout. apply store_all_elsewhere.
  apply (Forall_impl _ (P := fun pos =>
           (0 <= fst pos < Surface.w arr) /\ (0 <= snd pos < Surface.h arr)));
    [|apply (indices_range _ _ xi yi pos Hpos)].
  intros [i j] Hij E. injection E as -> ->. cbn [fst snd] in Hij.
  apply (proj2 (inside_range arr x y)) in Hij. congruence.
Qed.

Lemma direct_indexing_stays_in_the_buffer_witness :
  exists out,
    Sample.assign small_screen [-1] [3] [(255, 0, 0)] = ok out
    /\ Surface.pixel out 9 3 = (255, 0, 0)
    /\ Surface.pixel out (-1) 3 = Surface.pixel small_screen (-1) 3.
Proof.
  assert (H : Sample.assign small_screen [-1] [3] [(255, 0, 0)]
              = ok (Surface.store small_screen 9 3 (255, 0, 0)))
    by reflexivity.
  exists (Surface.store small_screen 9 3 (255, 0, 0)).
  split; [exact H|]. split; [reflexivity|].
  destruct (direct_indexing_stays_in_the_buffer small_screen _
              [-1] [3] [(255, 0, 0)] H) as (_ & _ & Hout).
  apply Hout. reflexivity.
Defined.

(** ** Frames never raise *)

Section Safety.
Variable F : format.
Hypothesis format_ok : 0 < fprec F < femax F.

(** A position inside the bounds truncates to a pixel inside them. *)
Lemma within_pixel (size : Z) (x : float) :
  1 <= size <= 2 ^ fprec F ->
  is_float F x = true -> within F size x = true ->
  exists i, py_int x = ok i /\ 0 <= i <= size - 1.
Proof.
  intros Hs Hx Hw.
  destruct (within_real F format_ok size x Hs Hx Hw) as [Hf [H0 H1]].
  assert (Hi : exists i, py_int x = ok i).
  { destruct x as [s|s| |s m e]; try discriminate Hf; eexists; reflexivity. }
  destruct Hi as [i Hi]. exists i. split; [exact Hi|].
  destruct (py_int_truncated x i Hi) as ([Hlo _] & Hpos & _).
  specialize (Hpos H0). split; [exact Hpos|].
  apply le_IZR.
  rewrite (Rabs_pos_eq (IZR i)) in Hlo by (apply IZR_le; exact Hpos).
  rewrite (Rabs_pos_eq (B2R x)) in Hlo by exact H0.
  lra.
Qed.

(** A particle inside the bounds is one that [draw] accepts, and it lands
    on every screen that is at least as large as the bounds. *)
Lemma in_bounds_drawable (b : Bounds.t) (screen : Surface.t)
    (p : Particle.t) :
  1 <= Bounds.width b <= 2 ^ fprec F -> Bounds.width b <= 2 ^ 31 ->
  1 <= Bounds.height b <= 2 ^ fprec F -> Bounds.height b <= 2 ^ 31 ->
  representable F p = true -> in_bounds F b p = true ->
  paintable p = true ->
  drawable p
  /\ (Bounds.width b <= Surface.w screen ->
      Bounds.height b <= Surface.h screen -> lands_inside screen p).
Proof.
  intros Hw Hw' Hh Hh' Hr Hin Hc.
  unfold representable in Hr. rewrite !andb_true_iff in Hr.
  destruct Hr as [[[Rx Ry] _] _].
  unfold in_bounds in Hin. apply andb_true_iff in Hin as [Bx By].
  destruct (within_pixel _ _ Hw Rx Bx) as (i & Hi & Hir).
  destruct (within_pixel _ _ Hh Ry By) as (j & Hj & Hjr).
  assert (Hp : PygameRenderer.pixel_of p = ok (i, j)).
  { unfold PygameRenderer.pixel_of. rewrite Hi, bind_ok, Hj, bind_ok.
    reflexivity. }
  split.
  - exists i, j. split; [exact Hp|].
    split; [apply c_int_range; lia|]. split; [apply c_int_range; lia|].
    exact Hc.
  - intros Sw Sh. exists i, j. split; [exact Hp|].
    apply inside_range. lia.
Qed.
End Safety.

Lemma runnable_inv (F : format) (p : Particle.t) :
  runnable F p = true <->
  well_formed p = true /\ representable F p = true /\ paintable p = true.
Proof. unfold runnable. rewrite !andb_true_iff. tauto. Qed.

Section FramesNeverRaise.
Variable F : format.
Hypothesis format_ok : 0 < fprec F < femax F.

Lemma step_runnable (b : Bounds.t) (p : Particle.t) :
  runnable F p = true -> runnable F (Particle.step F p b) = true.
Proof.
  rewrite !runnable_inv. intros (Hw & Hr & Hc). split; [|split].
  - apply step_well_formed, Hw.
  - apply (step_representable F format_ok), Hr.
  - unfold paintable in *. rewrite step_color. exact Hc.
Qed.

Lemma tick_runnable (s : ParticleSystem.t) :
  Forall (fun p => runnable F p = true) (ParticleSystem.particles s) ->
  Forall (fun p => runnable F p = true)
         (ParticleSystem.particles (ParticleSimulation.tick F s)).
Proof.
  intros H. simpl. rewrite Forall_map.
  apply (Forall_impl _ (fun p => step_runnable _ p) H).
Qed.

Lemma draw_size (ps : list Particle.t) :
  forall s out, PygameRenderer.draw s ps = ok out ->
  Surface.w out = Surface.w s /\ Surface.h out = Surface.h s.
Proof.
  induction ps as [|p ps IH]; intros s out H.
  - injection H as <-. split; reflexivity.
  - destruct (draw_cons_inv _ _ _ _ H) as (pos & _ & H').
    destruct (IH _ _ H') as [-> ->]. rewrite placed_w, placed_h.
    split; reflexivity.
Qed.

(** After the tick every particle is one that the renderer accepts, and it
    lands on a screen that is at least as large as the bounds. *)
Lemma tick_drawable (s : ParticleSystem.t) (screen : Surface.t) :
  1 <= Bounds.width (ParticleSystem.bounds s) <= 2 ^ fprec F ->
  Bounds.width (ParticleSystem.bounds s) <= 2 ^ 31 ->
  1 <= Bounds.height (ParticleSystem.bounds s) <= 2 ^ fprec F ->
  Bounds.height (ParticleSystem.bounds s) <= 2 ^ 31 ->
  Forall (fun p => runnable F p = true) (ParticleSystem.particles s) ->
  Forall drawable (ParticleSystem.particles (ParticleSimulation.tick F s))
  /\ (Bounds.width (ParticleSystem.bounds s) <= Surface.w screen ->
      Bounds.height (ParticleSystem.bounds s) <= Surface.h screen ->
      Forall (lands_inside screen)
             (ParticleSystem.particles (ParticleSimulation.tick F s))).
Proof.
  intros Hw Hw' Hh Hh' Hr.
  assert (Hwf : Forall (fun p => well_formed p = true)
                  (ParticleSystem.particles s)).
  { apply (Forall_impl _ (P := fun p => runnable F p = true));
      [|exact Hr].
    intros p Hp. apply runnable_inv in Hp. tauto. }
  pose proof (tick_in_bounds F s ltac:(lia) ltac:(lia) Hwf) as Hin.
  pose proof (tick_runnable s Hr) as Hr'.
  rewrite Forall_forall in Hin, Hr'.
  split; [|intros Sw Sh]; apply Forall_forall; intros p Hp;
    specialize (Hin p Hp); specialize (Hr' p Hp);
    apply runnable_inv in Hr' as (_ & Hrep & Hc);
    destruct (in_bounds_drawable F format_ok (ParticleSystem.bounds s)
                screen p Hw Hw' Hh Hh' Hrep Hin Hc) as [Hd Hl]; auto.
Qed.

Lemma frame_ok (s : ParticleSystem.t) (screen : Surface.t) :
  1 <= Bounds.width (ParticleSystem.bounds s) <= 2 ^ fprec F ->
  Bounds.width (ParticleSystem.bounds s) <= 2 ^ 31 ->
  1 <= Bounds.height (ParticleSystem.bounds s) <= 2 ^ fprec F ->
  Bounds.height (ParticleSystem.bounds s) <= 2 ^ 31 ->
  Forall (fun p => runnable F p = true) (ParticleSystem.particles s) ->
  exists out,
    GameLoop.frame F (s, screen) = ok (ParticleSimulation.tick F s, out)
    /\ Surface.w out = Surface.w screen /\ Surface.h out = Surface.h screen.
Proof.
  intros Hw Hw' Hh Hh' Hr.
  destruct (tick_drawable s screen Hw Hw' Hh Hh' Hr) as [Hd _].
  destruct (draw_total _ Hd (PygameRenderer.clear screen)) as [out Hout].
  exists out. unfold GameLoop.frame, GameLoop.render. cbn [fst snd].
  rewrite Hout, bind_ok. split; [reflexivity|].
  apply draw_size in Hout. exact Hout.
Qed.

Lemma game_loop_run_frames (n : nat) :
  forall st, GameLoop.run F n st = frames (GameLoop.frame F) n st.
Proof.
  induction n as [|n IH]; intros st; [reflexivity|].
  cbn [GameLoop.run frames].
  destruct (GameLoop.frame F st) as [e|st']; [reflexivity|].
  rewrite bind_ok. apply IH.
Qed.

Lemma frames_ok (n : nat) :
  forall (s : ParticleSystem.t) (screen : Surface.t),
  1 <= Bounds.width (ParticleSystem.bounds s) <= 2 ^ fprec F ->
  Bounds.width (ParticleSystem.bounds s) <= 2 ^ 31 ->
  1 <= Bounds.height (ParticleSystem.bounds s) <= 2 ^ fprec F ->
  Bounds.height (ParticleSystem.bounds s) <= 2 ^ 31 ->
  Forall (fun p => runnable F p = true) (ParticleSystem.particles s) ->
  exists out,
    frames (GameLoop.frame F) n (s, screen)
    = inr (ParticleSimulation.run F n s, out).
Proof.
  induction n as [|n IH]; intros s screen Hw Hw' Hh Hh' Hr.
  - exists screen. reflexivity.
  - destruct (frame_ok s screen Hw Hw' Hh Hh' Hr) as (out & Hf & _).
    cbn [frames ParticleSimulation.run]. rewrite Hf.
    apply IH; try (rewrite tick_bounds; assumption).
    apply tick_runnable, Hr.
Qed.
End FramesNeverRaise.

(** A loop whose frames never fail does not fail. *)
Lemma while_running_total {St Err : Type} (frame : St -> Err + St)
    (batches : list (list pygame.event)) :
  forall st,
  (forall n, exists st', frames frame n st = inr st') ->
  exists st' running,
    while_running frame batches st = inr (st', running)
    /\ exists n, (n <= length batches)%nat /\ frames frame n st = inr st'
                 /\ (batches <> [] -> (1 <= n)%nat).
Proof.
  induction batches as [|events rest IH]; intros st H.
  - exists st, true. split; [reflexivity|].
    exists 0%nat. repeat split; auto. congruence.
  - destruct (H 1%nat) as [st1 H1]. cbn [frames] in H1.
    cbn [while_running].
    destruct (frame st) as [e|st1'] eqn:Hf; [discriminate|].
    injection H1 as <-.
    destruct (poll_events events true).
    + destruct (IH st1') as (st' & running & Hrun & n & Hn & Hfr & _).
      { intros n. specialize (H (S n)). cbn [frames] in H.
        rewrite Hf in H. exact H. }
      exists st', running. split; [exact Hrun|].
      exists (S n). cbn [frames length]. rewrite Hf.
      repeat split; auto; lia.
    + exists st1', false. split; [reflexivity|].
      exists 1%nat. cbn [frames length]. rewrite Hf.
      repeat split; auto; lia.
Qed.

Lemma run_in_bounds (F : format) (n : nat) (s : ParticleSystem.t) :
  1 <= Bounds.width (ParticleSystem.bounds s) ->
  1 <= Bounds.height (ParticleSystem.bounds s) ->
  Forall (fun p => well_formed p = true) (ParticleSystem.particles s) ->
  (1 <= n)%nat ->
  Forall (fun p => in_bounds F (ParticleSystem.bounds s) p = true)
         (ParticleSystem.particles (ParticleSimulation.run F n s)).
Proof.
  intros Hw Hh Hwf Hn. destruct n as [|n]; [lia|].
  rewrite run_succ.
  pose proof (tick_in_bounds F (ParticleSimulation.run F n s)) as H.
  rewrite run_bounds in H. apply H; auto.
  apply run_well_formed. exact Hwf.
Qed.

Lemma runnable_well_formed (F : format) (ps : list Particle.t) :
  Forall (fun p => runnable F p = true) ps ->
  Forall (fun p => well_formed p = true) ps.
Proof.
  intros H. apply (Forall_impl _ (P := fun p => runnable F p = true));
    [|exact H].
  intros p Hp. apply runnable_inv in Hp. tauto.
Qed.

(** X8.  The game loop of [sample_readable.py] never raises.  For bounds
    of at least one pixel that the format and a C [int] hold, and
    particles with no NaN position, finite velocities, coordinates that
    are values of the format and 8-bit colours, every frame returns,
    whatever the screen is and shows; so the [while running] loop returns
    for every sequence of events, and once a turn has run every particle
    is inside the bounds. *)
Theorem game_loop_never_raises
    (F : format) (s : ParticleSystem.t) (screen : Surface.t)
    (batches : list (list pygame.event)) :
  0 < fprec F < femax F ->
  1 <= Bounds.width (ParticleSystem.bounds s) <= 2 ^ fprec F ->
  Bounds.width (ParticleSystem.bounds s) <= 2 ^ 31 ->
  1 <= Bounds.height (ParticleSystem.bounds s) <= 2 ^ fprec F ->
  Bounds.height (ParticleSystem.bounds s) <= 2 ^ 31 ->
  Forall (fun p => runnable F p = true) (ParticleSystem.particles s) ->
  (forall n, exists out,
     GameLoop.run F n (s, screen) = ok (ParticleSimulation.run F n s, out))
  /\ exists s' out running,
       while_running (GameLoop.frame F) batches (s, screen)
       = inr (s', out, running)
       /\ (batches <> [] ->
           Forall (fun p => in_bounds F (ParticleSystem.bounds s) p = true)
                  (ParticleSystem.particles s')).
Proof.
  intros HF Hw Hw' Hh Hh' Hr.
  assert (Hframes : forall n, exists out,
             frames (GameLoop.frame F) n (s, screen)
             = inr (ParticleSimulation.run F n s, out))
    by (intros n; apply (frames_ok F HF n s screen); assumption).
  split.
  - intros n. rewrite game_loop_run_frames. apply Hframes.
  - destruct (while_running_total (GameLoop.frame F) batches (s, screen))
      as ([s' out] & running & Hrun & n & _ & Hn & Hpos).
    { intros n. destruct (Hframes n) as [out Hout]. eexists. exact Hout. }
    exists s', out, running. split; [exact Hrun|].
    intros Hne. destruct (Hframes n) as [out' Hout'].
    rewrite Hn in Hout'. injection Hout' as -> _.
    apply run_in_bounds; try lia; auto.
    apply (runnable_well_formed F), Hr.
Qed.

Lemma game_loop_never_raises_witness :
  0 < fprec binary64 < femax binary64
  /\ 1 <= Bounds.width window <= 2 ^ fprec binary64
  /\ Bounds.width window <= 2 ^ 31
  /\ 1 <= Bounds.height window <= 2 ^ fprec binary64
  /\ Bounds.height window <= 2 ^ 31
  /\ Forall (fun p => runnable binary64 p = true) [leaving_left; on_left_edge]
  /\ exists out,
       GameLoop.run binary64 2
         (ParticleSystem.mk [leaving_left; on_left_edge] window, small_screen)
       = ok (ParticleSimulation.run binary64 2
               (ParticleSystem.mk [leaving_left; on_left_edge] window), out).
Proof.
  assert (H1 : 0 < fprec binary64 < femax binary64) by (split; reflexivity).
  assert (H2 : 1 <= Bounds.width window <= 2 ^ fprec binary64)
    by (split; vm_compute; discriminate).
  assert (H3 : Bounds.width window <= 2 ^ 31) by (vm_compute; discriminate).
  assert (H4 : 1 <= Bounds.height window <= 2 ^ fprec binary64)
    by (split; vm_compute; discriminate).
  assert (H5 : Bounds.height window <= 2 ^ 31) by (vm_compute; discriminate).
  assert (H6 : Forall (fun p => runnable binary64 p = true)
                 [leaving_left; on_left_edge]) by (repeat constructor).
  repeat (split; [assumption|]).
  destruct (game_loop_never_raises binary64
              (ParticleSystem.mk [leaving_left; on_left_edge] window)
              small_screen [] H1 H2 H3 H4 H5 H6) as [Hrun _].
  apply Hrun.
Defined.

(** ** The frames of [sample.py] are the frames of the game loop *)

Section SampleFrames.
Variable F : format.
Hypothesis format_ok : 0 < fprec F < femax F.

Lemma sample_frame_game_loop (W H : Z) (ps : list Particle.t)
    (screen : Surface.t) :
  1 <= W <= 2 ^ fprec F -> 1 <= H <= 2 ^ fprec F ->
  W <= Surface.w screen <= 2 ^ 31 -> H <= Surface.h screen <= 2 ^ 31 ->
  Forall (fun p => runnable F p = true) ps ->
  exists out,
    GameLoop.frame F (ParticleSystem.mk ps (Bounds.mk W H), screen)
    = ok (ParticleSimulation.tick F (ParticleSystem.mk ps (Bounds.mk W H)),
          out)
    /\ sample_frame F W H (columns ps, screen)
       = inr (columns (ParticleSystem.particles
                         (ParticleSimulation.tick F
                            (ParticleSystem.mk ps (Bounds.mk W H)))), out)
    /\ Surface.w out = Surface.w screen /\ Surface.h out = Surface.h screen.
Proof.
  intros Hw Hh Sw Sh Hr.
  set (s := ParticleSystem.mk ps (Bounds.mk W H)).
  destruct (frame_ok F format_ok s screen) as (out & Hf & Hd);
    try (cbn [s ParticleSystem.bounds Bounds.width Bounds.height]; lia);
    [exact Hr|].
  exists out. split; [exact Hf|]. split; [|exact Hd].
  destruct (tick_drawable F format_ok s screen) as [Hdr Hl];
    try (cbn [s ParticleSystem.bounds Bounds.width Bounds.height]; lia);
    [exact Hr|].
  specialize (Hl ltac:(cbn; lia) ltac:(cbn; lia)).
  unfold sample_frame. cbn [fst snd]. rewrite update_columns.
  change (map (fun p => Particle.step F p (Bounds.mk W H)) ps)
    with (ParticleSystem.particles (ParticleSimulation.tick F s)).
  rewrite sample_draw_render by (auto; lia).
  unfold GameLoop.frame in Hf. cbn [fst snd] in Hf.
  destruct (GameLoop.render screen
              (ParticleSystem.particles (ParticleSimulation.tick F s)))
    as [e|out']; [discriminate|].
  rewrite bind_ok in Hf. injection Hf as ->. reflexivity.
Qed.

Lemma sample_frames_game_loop (W H : Z) (n : nat) :
  forall (ps : list Particle.t) (screen : Surface.t),
  1 <= W <= 2 ^ fprec F -> 1 <= H <= 2 ^ fprec F ->
  W <= Surface.w screen <= 2 ^ 31 -> H <= Surface.h screen <= 2 ^ 31 ->
  Forall (fun p => runnable F p = true) ps ->
  exists out,
    frames (GameLoop.frame F) n (ParticleSystem.mk ps (Bounds.mk W H), screen)
    = inr (ParticleSimulation.run F n (ParticleSystem.mk ps (Bounds.mk W H)),
           out)
    /\ frames (sample_frame F W H) n (columns ps, screen)
       = inr (columns (ParticleSystem.particles
                         (ParticleSimulation.run F n
                            (ParticleSystem.mk ps (Bounds.mk W H)))), out).
Proof.
  induction n as [|n IH]; intros ps screen Hw Hh Sw Sh Hr.
  - exists screen. split; reflexivity.
  - destruct (sample_frame_game_loop W H ps screen Hw Hh Sw Sh Hr)
      as (out & Hf & Hs & Dw & Dh).
    cbn [frames ParticleSimulation.run]. rewrite Hf, Hs.
    apply (IH (ParticleSystem.particles
                 (ParticleSimulation.tick F
                    (ParticleSystem.mk ps (Bounds.mk W H)))) out);
      try lia.
    apply (tick_runnable F format_ok (ParticleSystem.mk ps (Bounds.mk W H))).
    exact Hr.
Qed.
End SampleFrames.

(** X9.  Frame by frame, [sample.py] computes and renders what the game
    loop of [sample_readable.py] does, in one and the same float format:
    from the columns of a population that the loop can run on, on a
    screen at least as large as the bounds, [n] turns of the main loop of
    [sample.py] raise nothing, index nothing out of range and leave the
    columns and the image that [n] frames of the game loop leave. *)
Theorem sample_frames_are_game_loop_frames
    (F : format) (W H : Z) (ps : list Particle.t) (screen : Surface.t)
    (n : nat) :
  0 < fprec F < femax F ->
  1 <= W <= 2 ^ fprec F -> 1 <= H <= 2 ^ fprec F ->
  W <= Surface.w screen <= 2 ^ 31 -> H <= Surface.h screen <= 2 ^ 31 ->
  Forall (fun p => runnable F p = true) ps ->
  exists out,
    GameLoop.run F n (ParticleSystem.mk ps (Bounds.mk W H), screen)
    = ok (ParticleSimulation.run F n (ParticleSystem.mk ps (Bounds.mk W H)),
          out)
    /\ frames (sample_frame F W H) n (columns ps, screen)
       = inr (columns (ParticleSystem.particles
                         (ParticleSimulation.run F n
                            (ParticleSystem.mk ps (Bounds.mk W H)))), out).
Proof.
  intros HF Hw Hh Sw Sh Hr.
  destruct (sample_frames_game_loop F HF W H n ps screen Hw Hh Sw Sh Hr)
    as (out & Hg & Hs).
  exists out. rewrite game_loop_run_frames. split; assumption.
Qed.

Lemma sample_frames_are_game_loop_frames_witness :
  0 < fprec binary32 < femax binary32
  /\ 1 <= Sample.W <= 2 ^ fprec binary32
  /\ 1 <= Sample.H <= 2 ^ fprec binary32
  /\ Sample.W <= Surface.w window_screen <= 2 ^ 31
  /\ Sample.H <= Surface.h window_screen <= 2 ^ 31
  /\ Forall (fun p => runnable binary32 p = true) [slow_float32]
  /\ exists out,
       frames (sample_frame binary32 Sample.W Sample.H) 3
              (columns [slow_float32], window_screen)
       = inr (columns (ParticleSystem.particles
                         (ParticleSimulation.run binary32 3
                            (ParticleSystem.mk [slow_float32] window))),
              out).
Proof.
  assert (H1 : 0 < fprec binary32 < femax binary32) by (split; reflexivity).
  assert (H2 : 1 <= Sample.W <= 2 ^ fprec binary32)
    by (split; vm_compute; discriminate).
  assert (H3 : 1 <= Sample.H <= 2 ^ fprec binary32)
    by (split; vm_compute; discriminate).
  assert (H4 : Sample.W <= Surface.w window_screen <= 2 ^ 31)
    by (split; vm_compute; discriminate).
  assert (H5 : Sample.H <= Surface.h window_screen <= 2 ^ 31)
    by (split; vm_compute; discriminate).
  assert (H6 : Forall (fun p => runnable binary32 p = true) [slow_float32])
    by (repeat constructor).
  repeat (split; [assumption|]).
  destruct (sample_frames_are_game_loop_frames binary32 Sample.W Sample.H
              [slow_float32] window_screen 3 H1 H2 H3 H4 H5 H6)
    as (out & _ & Hs).
  exists out. exact Hs.
Defined.

(** ** The event loop *)

Lemma poll_events_false (events : list pygame.event) :
  poll_events events false = false.
Proof.
  unfold poll_events. induction events as [|e events IH]; [reflexivity|].
  cbn [fold_left]. destruct (pygame.type e =? pygame.QUIT); exact IH.
Qed.

Lemma poll_events_quit (events : list pygame.event) (running : bool) :
  Exists (fun e => pygame.type e = pygame.QUIT) events ->
  poll_events events running = false.
Proof.
  intros H. revert running.
  induction H as [e events He|e events _ IH]; intros running.
  - unfold poll_events. cbn [fold_left].
    rewrite (proj2 (Z.eqb_eq _ _) He). apply poll_events_false.
  - unfold poll_events. cbn [fold_left]. apply IH.
Qed.

Lemma poll_events_quiet (events : list pygame.event) :
  Forall (fun e => pygame.type e <> pygame.QUIT) events ->
  poll_events events true = true.
Proof.
  unfold poll_events. induction 1 as [|e events He _ IH]; [reflexivity|].
  cbn [fold_left]. rewrite (proj2 (Z.eqb_neq _ _) He). exact IH.
Qed.

(** X10.  The main loop of both programs runs the frame of the turn in
    which the quit event arrives, and no frame after it.  When the first
    batch of events that holds a [QUIT] is the one of turn [k + 1], the
    loop ends with [running] false after exactly [k + 1] frames (or with
    the first exception of these frames), and the later batches are never
    polled; without any [QUIT] it runs one frame per batch and is still
    running. *)
Theorem loop_runs_the_frame_of_the_quit_event
    {St Err : Type} (frame : St -> Err + St)
    (quiet : list (list pygame.event)) (quitting : list pygame.event)
    (later : list (list pygame.event)) (st : St) :
  Forall (Forall (fun e => pygame.type e <> pygame.QUIT)) quiet ->
  Exists (fun e => pygame.type e = pygame.QUIT) quitting ->
  while_running frame (quiet ++ quitting :: later) st
  = match frames frame (S (length quiet)) st with
    | inl e => inl e
    | inr st' => inr (st', false)
    end
  /\ while_running frame quiet st
     = match frames frame (length quiet) st with
       | inl e => inl e
       | inr st' => inr (st', true)
       end.
Proof.
  intros Hquiet Hquit. revert st.
  induction Hquiet as [|events quiet Hev _ IH]; intros st.
  - cbn [app while_running frames length].
    rewrite (poll_events_quit quitting true Hquit).
    destruct (frame st); split; reflexivity.
  - cbn [app while_running frames length].
    rewrite (poll_events_quiet events Hev).
    destruct (frame st) as [e|st']; [split; reflexivity|].
    apply IH.
Qed.

Lemma loop_runs_the_frame_of_the_quit_event_witness :
  Forall (Forall (fun e => pygame.type e <> pygame.QUIT)) [[]; [key_down]]
  /\ Exists (fun e => pygame.type e = pygame.QUIT) [key_down; quit; key_down]
  /\ while_running (GameLoop.frame binary64)
       ([[]; [key_down]] ++ [key_down; quit; key_down] :: [[]; [quit]])
       (ParticleSystem.mk [leaving_left] window, small_screen)
     = match frames (GameLoop.frame binary64) 3
               (ParticleSystem.mk [leaving_left] window, small_screen) with
       | inl e => inl e
       | inr st' => inr (st', false)
       end.
Proof.
  assert (H1 : Forall (Forall (fun e => pygame.type e <> pygame.QUIT))
                 [[]; [key_down]])
    by (repeat constructor; discriminate).
  assert (H2 : Exists (fun e => pygame.type e = pygame.QUIT)
                 [key_down; quit; key_down])
    by (apply Exists_cons_tl, Exists_cons_hd; reflexivity).
  split; [exact H1|]. split; [exact H2|].
  apply (loop_runs_the_frame_of_the_quit_event (GameLoop.frame binary64)
           [[]; [key_down]] [key_down; quit; key_down] [[]; [quit]]
           (ParticleSystem.mk [leaving_left] window, small_screen) H1 H2).
Defined.

(** ** The entry point of [sample_readable.py] *)

Section ValidOperations.
Variable F : format.
Hypothesis format_ok : 0 < fprec F < femax F.

Lemma fmul_is_float (a b : float) :
  is_float F a = true -> is_float F b = true ->
  is_float F (fmul F a b) = true.
Proof.
  unfold is_float, fmul. intros Ha Hb.
  destruct a as [sa|sa| |sa ma ea], b as [sb|sb| |sb mb eb];
    try reflexivity.
  cbn [SFmul valid_binary] in *.
  apply binary_round_aux_valid; try lia.
  apply mul_canonical; auto; lia.
Qed.

Lemma fsub_is_float (a b : float) :
  is_float F a = true -> is_float F b = true ->
  is_float F (fsub F a b) = true.
Proof.
  unfold is_float, fsub. intros Ha Hb.
  destruct a as [sa|sa| |sa ma ea], b as [sb|sb| |sb mb eb];
    try exact Ha; try exact Hb; try reflexivity;
    try (destruct sa, sb; reflexivity).
  unfold SFsub. apply binary_normalize_valid. lia.
Qed.

Lemma convert_is_float (a : float) : is_float F (convert F a) = true.
Proof.
  destruct a as [s|s| |s m e]; try reflexivity.
  apply binary_round_valid. lia.
Qed.
End ValidOperations.

Lemma fle_fabs_finite (v B : float) :
  is_finite B = true -> fle (fabs v) B = true -> is_finite v = true.
Proof.
  destruct v as [s|s| |s m e], B as [sb|sb| |sb mb eb];
    try discriminate; try reflexivity.
Qed.

Lemma fle_zero_not_nan (a : float) : fle fzero a = true -> is_nan a = false.
Proof. destruct a; try discriminate; reflexivity. Qed.

Lemma step_slow (F F' : format) (b : Bounds.t) (p : Particle.t) :
  slow F' (Particle.step F p b) = slow F' p.
Proof.
  unfold slow. rewrite step_velocity_x, step_velocity_y.
  rewrite !reflect_rule_speed. reflexivity.
Qed.

Lemma run_slow (F F' : format) (n : nat) :
  forall s,
  Forall (fun p => slow F' p = true) (ParticleSystem.particles s) ->
  Forall (fun p => slow F' p = true)
         (ParticleSystem.particles (ParticleSimulation.run F n s)).
Proof.
  induction n as [|n IH]; intros s H; [exact H|].
  cbn [ParticleSimulation.run]. apply IH. simpl. rewrite Forall_map.
  apply (Forall_impl _ (P := fun p => slow F' p = true)); [|exact H].
  intros p Hp. rewrite step_slow. exact Hp.
Qed.

Section MainFacts.
Context {rng : Type}.
Variable random : rng -> float * rng.
Variable randrange : Z -> rng -> Z * rng.
Hypothesis random_unit : forall g, unit_interval (fst (random g)) = true.
Hypothesis randrange_byte : forall g, 0 <= fst (randrange 256 g) < 256.

Lemma unit_interval_is_float (u : float) :
  unit_interval u = true -> is_float binary64 u = true.
Proof.
  unfold unit_interval. rewrite !andb_true_iff. tauto.
Qed.

Lemma random_particle_runnable (b : Bounds.t) (g : rng) :
  0 <= Bounds.width b <= 2 ^ 53 -> 0 <= Bounds.height b <= 2 ^ 53 ->
  exists p g',
    random_particle random randrange b g = ok (p, g')
    /\ runnable binary64 p = true /\ slow binary64 p = true.
Proof.
  intros Hw Hh.
  assert (HF : 0 < fprec binary64 < femax binary64) by (split; reflexivity).
  unfold random_particle.
  rewrite (float_of_int_ok (Bounds.width b)), (float_of_int_ok (Bounds.height b))
    by lia.
  pose proof (random_unit g) as U1.
  destruct (random g) as [u1 g1]. rewrite bind_ok. cbn [fst] in U1.
  pose proof (random_unit g1) as U2.
  destruct (random g1) as [u2 g2]. rewrite bind_ok. cbn [fst] in U2.
  pose proof (random_unit g2) as U3.
  destruct (random g2) as [u3 g3]. cbn [fst] in U3.
  pose proof (random_unit g3) as U4.
  destruct (random g3) as [u4 g4]. cbn [fst] in U4.
  pose proof (randrange_byte g4) as C1.
  destruct (randrange 256 g4) as [c1 g5]. cbn [fst] in C1.
  pose proof (randrange_byte g5) as C2.
  destruct (randrange 256 g5) as [c2 g6]. cbn [fst] in C2.
  pose proof (randrange_byte g6) as C3.
  destruct (randrange 256 g6) as [c3 g7]. cbn [fst] in C3.
  eexists. eexists. split; [reflexivity|].
  destruct (position_range_64 u1 (Bounds.width b) U1 Hw) as [X0 _].
  destruct (position_range_64 u2 (Bounds.height b) U2 Hh) as [Y0 _].
  pose proof (velocity_range_64 u3 U3) as VX.
  pose proof (velocity_range_64 u4 U4) as VY.
  assert (Hhalf : is_float binary64 (literal binary64 5 1) = true)
    by (rewrite literal_half_64; reflexivity).
  assert (H42 : is_float binary64 (literal binary64 42 1) = true)
    by (rewrite literal_42_64; reflexivity).
  assert (H21 : is_finite (literal binary64 21 1) = true)
    by (rewrite literal_21_64; reflexivity).
  split.
  - apply runnable_inv. split; [|split].
    + apply well_formed_inv. cbn [Particle.position Particle.velocity
                                  Vector2.x Vector2.y].
      repeat split.
      * apply fle_zero_not_nan, X0.
      * apply fle_zero_not_nan, Y0.
      * apply (fle_fabs_finite _ _ H21 VX).
      * apply (fle_fabs_finite _ _ H21 VY).
    + unfold representable.
      cbn [Particle.position Particle.velocity Vector2.x Vector2.y].
      rewrite !(fmul_is_float binary64 HF); auto;
        try (apply (fsub_is_float binary64 HF); auto);
        try (apply (of_int_is_float binary64 HF));
        apply unit_interval_is_float; assumption.
    + unfold paintable, is_color. cbn [Particle.color Color.as_tuple
                                       Color.r Color.g Color.b].
      rewrite !andb_true_iff, !Z.leb_le. lia.
  - unfold slow. cbn [Particle.velocity Vector2.x Vector2.y].
    rewrite VX, VY. reflexivity.
Qed.

Lemma random_particles_runnable (n : nat) (b : Bounds.t) :
  0 <= Bounds.width b <= 2 ^ 53 -> 0 <= Bounds.height b <= 2 ^ 53 ->
  forall g, exists ps g',
    random_particles random randrange n b g = ok (ps, g')
    /\ length ps = n
    /\ Forall (fun p => runnable binary64 p = true) ps
    /\ Forall (fun p => slow binary64 p = true) ps.
Proof.
  intros Hw Hh. induction n as [|n IH]; intros g; cbn [random_particles].
  - exists [], g. repeat split; constructor.
  - destruct (random_particle_runnable b g Hw Hh) as (p & g1 & -> & Hr & Hs).
    rewrite bind_ok. cbn [fst snd].
    destruct (IH g1) as (ps & g2 & -> & Hl & Hrs & Hss).
    rewrite bind_ok. cbn [fst snd]. exists (p :: ps), g2.
    split; [reflexivity|]. split; [simpl; congruence|].
    split; constructor; assumption.
Qed.
End MainFacts.

(** X11.  [main()] of [sample_readable.py] raises no exception, whatever
    the draws of [random.random()] in [[0, 1)] and of
    [random.randrange(256)] in [[0, 255]], the memory of the window and
    the events.  It builds 50,000 particles, every turn of the game loop
    returns, the count and the speed bound of 2.1 hold at the end, and
    once a turn has run every particle is inside the 960 by 540
    window. *)
Theorem main_never_raises
    {rng : Type} (random : rng -> float * rng)
    (randrange : Z -> rng -> Z * rng) (g : rng)
    (memory : Z -> Z -> Z * Z * Z) (batches : list (list pygame.event)) :
  (forall g', unit_interval (fst (random g')) = true) ->
  (forall g', 0 <= fst (randrange 256 g') < 256) ->
  exists s screen running,
    main random randrange g memory batches = ok (s, screen, running)
    /\ Z.of_nat (length (ParticleSystem.particles s)) = 50000
    /\ Forall (fun p => slow binary64 p = true) (ParticleSystem.particles s)
    /\ (batches <> [] ->
        Forall (fun p => in_bounds binary64 (Bounds.mk 960 540) p = true)
               (ParticleSystem.particles s)).
Proof.
  intros Hu Hb.
  assert (HF : 0 < fprec binary64 < femax binary64) by (split; reflexivity).
  assert (Hw : 0 <= 960 <= 2 ^ 53) by (split; vm_compute; discriminate).
  assert (Hh : 0 <= 540 <= 2 ^ 53) by (split; vm_compute; discriminate).
  assert (Hw1 : 1 <= 960 <= 2 ^ fprec binary64)
    by (split; vm_compute; discriminate).
  assert (Hh1 : 1 <= 540 <= 2 ^ fprec binary64)
    by (split; vm_compute; discriminate).
  assert (Hw2 : 960 <= 2 ^ 31) by (vm_compute; discriminate).
  assert (Hh2 : 540 <= 2 ^ 31) by (vm_compute; discriminate).
  unfold main, build_system.
  destruct (random_particles_runnable random randrange Hu Hb
              (Z.to_nat 50000) (Bounds.mk 960 540) Hw Hh g)
    as (ps & g' & -> & Hl & Hr & Hs).
  rewrite !bind_ok. cbn [fst snd].
  set (s0 := ParticleSystem.mk ps (Bounds.mk 960 540)).
  set (screen := Surface.mk 960 540 memory).
  assert (Hframes : forall n, exists st',
             frames (GameLoop.frame binary64) n (s0, screen) = inr st'
             /\ fst st' = ParticleSimulation.run binary64 n s0).
  { intros n.
    destruct (frames_ok binary64 HF n s0 screen Hw1 Hw2 Hh1 Hh2 Hr)
      as [out Hout].
    eexists. split; [exact Hout|reflexivity]. }
  destruct (while_running_total (GameLoop.frame binary64) batches
              (s0, screen))
    as ([s' out] & running & Hrun & n & _ & Hn & Hpos).
  { intros n. destruct (Hframes n) as (st' & Hst & _). eauto. }
  exists s', out, running. split; [exact Hrun|].
  destruct (Hframes n) as (st' & Hst & Hfst).
  rewrite Hn in Hst. injection Hst as <-. cbn [fst] in Hfst. subst s'.
  split; [|split].
  - rewrite run_length. cbn [s0 ParticleSystem.particles]. rewrite Hl.
    apply Z2Nat.id. discriminate.
  - apply run_slow. exact Hs.
  - intros Hne.
    apply (run_in_bounds binary64 n s0); try (cbn; lia).
    + apply (runnable_well_formed binary64), Hr.
    + apply Hpos, Hne.
Qed.

Lemma main_never_raises_witness :
  (forall g', unit_interval (fst (constant_random high_draw g')) = true)
  /\ (forall g', 0 <= fst (constant_randrange 7 256 g') < 256)
  /\ exists s screen running,
       main (constant_random high_draw) (constant_randrange 7) tt
            (fun _ _ => black) [[key_down]; [quit]]
       = ok (s, screen, running)
       /\ Z.of_nat (length (ParticleSystem.particles s)) = 50000.
Proof.
  assert (H1 : forall g' : unit,
             unit_interval (fst (constant_random high_draw g')) = true)
    by (intros g'; vm_compute; reflexivity).
  assert (H2 : forall g' : unit,
             0 <= fst (constant_randrange 7 256 g') < 256)
    by (intros g'; cbn; lia).
  split; [exact H1|]. split; [exact H2|].
  destruct (main_never_raises (constant_random high_draw)
              (constant_randrange 7) tt (fun _ _ => black)
              [[key_down]; [quit]] H1 H2)
    as (s & screen & running & Hm & Hl & _).
  exists s, screen, running. split; assumption.
Defined.

(** ** The colours of [sample.py] *)

(** The largest binary64 value below 1. *)
Lemma unit_interval_below_one (u : float) :
  unit_interval u = true ->
  u = S754_finite false 9007199254740991 (-53)
  \/ fits binary64 u (F2R 9007199254740990 (-53)).
Proof.
  intros Hu. destruct (unit_interval_fits u Hu) as ((Hf & Hv & _) & H0 & Hm).
  destruct (fle_zero_cases u H0 Hf) as [[s ->]|(m & e & ->)].
  - right. repeat split; auto. simpl. unfold F2R.
    pose proof (bpow_pos (-53)). lra.
  - cbn [mag] in Hm. unfold is_float in Hv. cbn [valid_binary] in Hv.
    apply bounded_inv in Hv as [Hc _]. cbn [fprec femax binary64] in Hc.
    pose proof (F2R_digits (Zpos m) e ltac:(lia)) as [Hlo Hhi].
    pose proof (Zdigits2_bounds (Zpos m) ltac:(lia)) as [_ Hmd].
    pose proof (Zdigits2_pos (Zpos m) ltac:(lia)) as Hdpos.
    set (d := Zdigits2 (Zpos m)) in *.
    assert (Hde : d + e <= 0).
    { assert (d - 1 + e < 0); [|lia].
      apply bpow_lt_inv. change (bpow 0) with 1%R. lra. }
    unfold fexp, emin in Hc.
    destruct (Z.eq_dec (d + e) 0) as [E0|Hne].
    + assert (He : e = -53) by lia. assert (Hd : d = 53) by lia.
      subst e. rewrite Hd in Hmd.
      change (2 ^ 53) with 9007199254740992 in Hmd.
      destruct (Z.eq_dec (Zpos m) 9007199254740991) as [Em|Hm'].
      * left. injection Em as ->. reflexivity.
      * right. repeat split; auto.
        -- unfold is_float. cbn [valid_binary]. apply bounded_inv.
           fold d. unfold fexp, emin. cbn [fprec femax binary64]. lia.
        -- cbn [mag]. apply F2R_le. lia.
    + right. repeat split; auto.
      * unfold is_float. cbn [valid_binary]. apply bounded_inv.
        fold d. unfold fexp, emin. cbn [fprec femax binary64]. lia.
      * cbn [mag].
        pose proof (bpow_le (d + e) (-1) ltac:(lia)) as Hb.
        pose proof (F2R_pow2 52 (-53) ltac:(lia)) as Hp.
        change (-53 + 52) with (-1) in Hp.
        pose proof (F2R_le (2 ^ 52) 9007199254740990 (-53)
                      ltac:(vm_compute; discriminate)) as Hq.
        lra.
Qed.

(** A draw of [[0, 1)] times 255 truncates to a byte below 255. *)
Lemma scaled_channel (u : float) :
  unit_interval u = true ->
  exists c, uint8 (fmul binary64 u (of_int binary64 255)) = Some c
            /\ 0 <= c <= 254.
Proof.
  intros Hu. destruct (unit_interval_below_one u Hu) as [->|Hfit].
  - exists 254. split; [vm_compute; reflexivity|lia].
  - destruct (unit_interval_fits u Hu) as ((Hf & _) & H0 & _).
    change (of_int binary64 255)
      with (S754_finite false 8972014882652160 (-45)).
    set (w := S754_finite false 8972014882652160 (-45)).
    assert (Hw : fits binary64 w 255).
    { repeat split; try reflexivity. cbn [mag w].
      change 8972014882652160 with (255 * 2 ^ 45).
      rewrite F2R_shift by lia. unfold F2R.
      change (bpow (-45 + 45)) with 1%R. lra. }
    assert (Hx : fits binary64 (fmul binary64 u w)
                   (F2R 8972014882652159 (-45))).
    { apply (fmul_fits 53 1024 ltac:(lia) ltac:(lia) u w
               (F2R 9007199254740990 (-53)) 255 8972014882652159 (-45));
        auto; try reflexivity.
      replace (-45) with (-53 + 8) by lia.
      rewrite <- (F2R_shift 8972014882652159 (-53) 8) by lia.
      unfold F2R. pose proof (bpow_pos (-53)) as Hb.
      change (8972014882652159 * 2 ^ 8) with 2296835809958952704.
      nra. }
    assert (Hnn : fle fzero (fmul binary64 u w) = true).
    { apply (fmul_nonneg 53 1024); auto. }
    destruct Hx as (Hfx & _ & Hmx).
    assert (Hi : exists i, py_int (fmul binary64 u w) = ok i).
    { destruct (fmul binary64 u w) as [s|s| |s m e];
        try discriminate Hfx; eexists; reflexivity. }
    destruct Hi as [i Hi].
    destruct (py_int_truncated _ i Hi) as ([Hlo _] & Hpos & _).
    rewrite (fle_zero_B2R _ Hnn Hfx) in Hlo, Hpos.
    pose proof (mag_nonneg (fmul binary64 u w)) as Hm0.
    specialize (Hpos Hm0).
    rewrite (Rabs_pos_eq (IZR i)) in Hlo by (apply IZR_le; exact Hpos).
    rewrite (Rabs_pos_eq (mag _)) in Hlo by exact Hm0.
    assert (Hlt : i < 255).
    { apply lt_IZR.
      assert (F2R 8972014882652159 (-45) < 255)%R; [|lra].
      assert (E : F2R 8972014882652160 (-45) = 255%R).
      { change 8972014882652160 with (255 * 2 ^ 45).
        rewrite F2R_shift by lia. unfold F2R.
        change (bpow (-45 + 45)) with 1%R. lra. }
      rewrite <- E. unfold F2R. pose proof (bpow_pos (-45)). nra. }
    exists i. split; [|lia].
    unfold uint8, truncate. rewrite Hi. unfold ok.
    replace ((0 <=? i) && (i <=? 255)) with true; [reflexivity|].
    symmetry. apply andb_true_iff. split; apply Z.leb_le; lia.
Qed.

Lemma init_color_bytes (row : float * float * float) :
  unit_row row = true ->
  exists c, init_color row = Some c /\ channels_up_to 254 c = true.
Proof.
  destruct row as [[r g] b]. unfold unit_row. rewrite !andb_true_iff.
  intros [[Hr Hg] Hb]. unfold init_color.
  destruct (scaled_channel r Hr) as (r' & -> & Hr').
  destruct (scaled_channel g Hg) as (g' & -> & Hg').
  destruct (scaled_channel b Hb) as (b' & -> & Hb').
  exists (r', g', b'). split; [reflexivity|].
  unfold channels_up_to. rewrite !andb_true_iff, !Z.leb_le. lia.
Qed.

Lemma channels_is_color (c : Z * Z * Z) :
  channels_up_to 254 c = true -> is_color c = true.
Proof.
  destruct c as [[r g] b]. unfold channels_up_to, is_color.
  rewrite !andb_true_iff, !Z.leb_le. lia.
Qed.

(** X12.  The colours that [sample.py] draws never hold the value 255: for
    rows of draws in [[0, 1)], the conversion of [rand * 255] to [uint8] is
    defined for every entry, keeps the number of rows, and every channel
    is between 0 and 254.  (The [randrange(256)] of [sample_readable.py]
    reaches 255.) *)
Theorem sample_colors_stay_below_255 (rows : list (float * float * float)) :
  Forall (fun row => unit_row row = true) rows ->
  exists colors,
    init_colors rows = Some colors
    /\ length colors = length rows
    /\ Forall (fun c => channels_up_to 254 c = true) colors.
Proof.
  induction 1 as [|row rows Hrow _ (colors & IH & Hl & Hc)].
  - exists []. repeat split. constructor.
  - destruct (init_color_bytes row Hrow) as (c & Hcol & Hb).
    exists (c :: colors). cbn [init_colors]. rewrite Hcol, IH.
    split; [reflexivity|]. split; [simpl; congruence|].
    constructor; assumption.
Qed.

Lemma sample_colors_stay_below_255_witness :
  Forall (fun row => unit_row row = true)
         [(high_draw, fzero, literal binary64 5 1)]
  /\ exists colors,
       init_colors [(high_draw, fzero, literal binary64 5 1)] = Some colors
       /\ length colors = 1%nat
       /\ Forall (fun c => channels_up_to 254 c = true) colors.
Proof.
  assert (H : Forall (fun row => unit_row row = true)
                [(high_draw, fzero, literal binary64 5 1)])
    by (repeat constructor).
  split; [exact H|].
  apply (sample_colors_stay_below_255 _ H).
Defined.

(** ** [sample.py] from its first line to the end of its loop *)

Lemma columns_particles_of (px : list float) :
  forall (py vx vy : list float) (c : list (Z * Z * Z)),
  length py = length px -> length vx = length px ->
  length vy = length px -> length c = length px ->
  columns (particles_of px py vx vy c) = Sample.mk px py vx vy c.
Proof.
  induction px as [|x px IH];
    intros [|y py] [|u vx] [|v vy] [|[[r g] b] c] H1 H2 H3 H4;
    try discriminate; [reflexivity|].
  simpl in H1, H2, H3, H4.
  specialize (IH py vx vy c ltac:(lia) ltac:(lia) ltac:(lia) ltac:(lia)).
  unfold columns in *. cbn [particles_of map]. injection IH as -> -> -> -> ->.
  reflexivity.
Qed.

Lemma particles_of_runnable (F : format) (px : list float) :
  forall (py vx vy : list float) (c : list (Z * Z * Z)),
  Forall (fun x => is_nan x = false /\ is_float F x = true) px ->
  Forall (fun y => is_nan y = false /\ is_float F y = true) py ->
  Forall (fun u => is_finite u = true /\ is_float F u = true) vx ->
  Forall (fun v => is_finite v = true /\ is_float F v = true) vy ->
  Forall (fun k => is_color k = true) c ->
  Forall (fun p => runnable F p = true) (particles_of px py vx vy c).
Proof.
  induction px as [|x px IH];
    intros [|y py] [|u vx] [|v vy] [|[[r g] b] c] Hx Hy Hu Hv Hc;
    try constructor.
  - inversion Hx as [|? ? [X1 X2] _]. inversion Hy as [|? ? [Y1 Y2] _].
    inversion Hu as [|? ? [U1 U2] _]. inversion Hv as [|? ? [V1 V2] _].
    inversion Hc as [|? ? C1 _]. subst.
    apply runnable_inv. split; [|split].
    + apply well_formed_inv. cbn. auto.
    + unfold representable. cbn. rewrite X2, Y2, U2, V2. reflexivity.
    + exact C1.
  - inversion Hx; inversion Hy; inversion Hu; inversion Hv; inversion Hc;
      subst. apply IH; assumption.
Qed.

Lemma init_position_values (size : Z) (r : list float) :
  0 <= size <= 2 ^ 24 ->
  Forall (fun u => unit_interval u = true) r ->
  Forall (fun x => is_nan x = false /\ is_float binary32 x = true)
         (Sample.init_position binary32 size r).
Proof.
  intros Hs H. unfold Sample.init_position. rewrite Forall_map.
  apply (Forall_impl _ (P := fun u => unit_interval u = true)); [|exact H].
  intros u Hu. destruct (position_range_32 u size Hu Hs) as [H0 _].
  split; [apply fle_zero_not_nan, H0|].
  apply fmul_is_float; [split; reflexivity| |].
  - apply convert_is_float. split; reflexivity.
  - apply of_int_is_float. split; reflexivity.
Qed.

Lemma init_velocity_values (r : list float) :
  Forall (fun u => unit_interval u = true) r ->
  Forall (fun v => is_finite v = true /\ is_float binary32 v = true)
         (Sample.init_velocity binary32 r).
Proof.
  intros H. unfold Sample.init_velocity. rewrite Forall_map.
  apply (Forall_impl _ (P := fun u => unit_interval u = true)); [|exact H].
  intros u Hu. split.
  - apply (fle_fabs_finite _ (convert binary32 (literal binary64 21 1))).
    + rewrite literal_21_32. reflexivity.
    + apply velocity_range_32, Hu.
  - assert (HF : 0 < fprec binary32 < femax binary32)
      by (split; reflexivity).
    apply (fmul_is_float binary32 HF);
      [apply (fsub_is_float binary32 HF)|];
      apply (convert_is_float binary32 HF).
Qed.

Lemma init_colors_paintable (rows : list (float * float * float)) :
  Forall (fun row => unit_row row = true) rows ->
  exists colors,
    init_colors rows = Some colors
    /\ length colors = length rows
    /\ Forall (fun c => is_color c = true) colors.
Proof.
  induction 1 as [|row rows Hrow _ (colors & IH & Hl & Hc)].
  - exists []. repeat split. constructor.
  - destruct (init_color_bytes row Hrow) as (c & Hcol & Hb).
    exists (c :: colors). cbn [init_colors]. rewrite Hcol, IH.
    split; [reflexivity|]. split; [simpl; congruence|].
    constructor; [apply channels_is_color, Hb|assumption].
Qed.

(** X13.  [sample.py] never faults.  For five arrays of draws in [[0, 1)]
    of one length, the initial state is defined, and the main loop, on the
    960 by 540 window, returns for every sequence of events: no index is
    out of range, no conversion to [int32] or [uint8] is undefined.  The
    five columns keep one length, and once a turn has run every position
    is inside [[0, 959] x [0, 539]]. *)
Theorem sample_program_never_faults
    (rx ry rvx rvy : list float) (rows : list (float * float * float))
    (memory : Z -> Z -> Z * Z * Z) (batches : list (list pygame.event)) :
  length ry = length rx -> length rvx = length rx ->
  length rvy = length rx -> length rows = length rx ->
  Forall (fun u => unit_interval u = true) rx ->
  Forall (fun u => unit_interval u = true) ry ->
  Forall (fun u => unit_interval u = true) rvx ->
  Forall (fun u => unit_interval u = true) rvy ->
  Forall (fun row => unit_row row = true) rows ->
  exists st0 st screen running,
    sample_init rx ry rvx rvy rows = Some st0
    /\ while_running (sample_frame binary32 Sample.W Sample.H) batches
         (st0, Surface.mk Sample.W Sample.H memory)
       = inr (st, screen, running)
    /\ aligned st
    /\ length (Sample.P_X st) = length rx
    /\ (batches <> [] ->
        Forall (fun x => within binary32 Sample.W x = true) (Sample.P_X st)
        /\ Forall (fun y => within binary32 Sample.H y = true)
                  (Sample.P_Y st)).
Proof.
  intros L1 L2 L3 L4 Ux Uy Uvx Uvy Urows.
  assert (HF : 0 < fprec binary32 < femax binary32) by (split; reflexivity).
  assert (HW : 0 <= Sample.W <= 2 ^ 24) by (split; vm_compute; discriminate).
  assert (HH : 0 <= Sample.H <= 2 ^ 24) by (split; vm_compute; discriminate).
  destruct (init_colors_paintable rows Urows) as (colors & Hcol & Lc & Hc).
  unfold sample_init. rewrite Hcol.
  set (px := Sample.init_position binary32 Sample.W rx).
  set (py := Sample.init_position binary32 Sample.H ry).
  set (vx := Sample.init_velocity binary32 rvx).
  set (vy := Sample.init_velocity binary32 rvy).
  assert (Lpx : length px = length rx) by apply length_map.
  assert (Lpy : length py = length px)
    by (unfold py, Sample.init_position; rewrite length_map; lia).
  assert (Lvx : length vx = length px)
    by (unfold vx, Sample.init_velocity; rewrite length_map; lia).
  assert (Lvy : length vy = length px)
    by (unfold vy, Sample.init_velocity; rewrite length_map; lia).
  set (ps := particles_of px py vx vy colors).
  assert (Hcols : Sample.mk px py vx vy colors = columns ps)
    by (symmetry; apply columns_particles_of; lia).
  assert (Hr : Forall (fun p => runnable binary32 p = true) ps).
  { apply particles_of_runnable; auto.
    - apply init_position_values; assumption.
    - apply init_position_values; assumption.
    - apply init_velocity_values; assumption.
    - apply init_velocity_values; assumption. }
  assert (Lps : length ps = length rx).
  { pose proof (f_equal (fun st => length (Sample.P_X st)) Hcols) as E.
    unfold columns in E. cbn [Sample.P_X] in E. rewrite length_map in E.
    lia. }
  set (s0 := ParticleSystem.mk ps (Bounds.mk Sample.W Sample.H)).
  set (screen := Surface.mk Sample.W Sample.H memory).
  assert (Hframes : forall n, exists out,
             frames (sample_frame binary32 Sample.W Sample.H) n
                    (columns ps, screen)
             = inr (columns (ParticleSystem.particles
                               (ParticleSimulation.run binary32 n s0)), out)).
  { intros n.
    destruct (sample_frames_game_loop binary32 HF Sample.W Sample.H n ps
                screen) as (out & _ & Hs); auto;
      try (split; vm_compute; discriminate).
    exists out. exact Hs. }
  exists (Sample.mk px py vx vy colors). rewrite Hcols.
  destruct (while_running_total
              (sample_frame binary32 Sample.W Sample.H) batches
              (columns ps, screen))
    as ([st out] & running & Hrun & n & _ & Hn & Hpos).
  { intros n. destruct (Hframes n) as [out Hout]. eauto. }
  exists st, out, running. split; [reflexivity|]. split; [exact Hrun|].
  destruct (Hframes n) as [out' Hout']. rewrite Hn in Hout'.
  injection Hout' as -> _.
  pose proof (run_length binary32 n s0) as Hlen.
  cbn [s0 ParticleSystem.particles] in Hlen.
  split; [|split].
  - unfold aligned, columns.
    cbn [Sample.P_X Sample.P_Y Sample.V_X Sample.V_Y Sample.COLOR].
    rewrite !length_map. auto.
  - unfold columns. cbn [Sample.P_X]. rewrite length_map. lia.
  - intros Hne.
    pose proof (run_in_bounds binary32 n s0
                  ltac:(vm_compute; discriminate)
                  ltac:(vm_compute; discriminate)
                  (runnable_well_formed binary32 ps Hr) (Hpos Hne)) as Hin.
    unfold columns. cbn [Sample.P_X Sample.P_Y]. rewrite !Forall_map.
    split; apply (Forall_impl _ (P := fun p =>
                    in_bounds binary32 (ParticleSystem.bounds s0) p = true));
      try exact Hin; intros p Hp; unfold in_bounds in Hp;
      apply andb_true_iff in Hp; apply Hp.
Qed.

Lemma sample_program_never_faults_witness :
  length [fzero; high_draw] = length [high_draw; fzero]
  /\ length [high_draw; high_draw] = length [high_draw; fzero]
  /\ length [fzero; fzero] = length [high_draw; fzero]
  /\ length [(high_draw, fzero, fzero); (fzero, high_draw, fzero)]
     = length [high_draw; fzero]
  /\ Forall (fun u => unit_interval u = true) [high_draw; fzero]
  /\ Forall (fun u => unit_interval u = true) [fzero; high_draw]
  /\ Forall (fun u => unit_interval u = true) [high_draw; high_draw]
  /\ Forall (fun u => unit_interval u = true) [fzero; fzero]
  /\ Forall (fun row => unit_row row = true)
            [(high_draw, fzero, fzero); (fzero, high_draw, fzero)]
  /\ exists st0 st screen running,
       sample_init [high_draw; fzero] [fzero; high_draw]
                   [high_draw; high_draw] [fzero; fzero]
                   [(high_draw, fzero, fzero); (fzero, high_draw, fzero)]
       = Some st0
       /\ while_running (sample_frame binary32 Sample.W Sample.H)
            [[key_down]; [quit]]
            (st0, Surface.mk Sample.W Sample.H (fun _ _ => black))
          = inr (st, screen, running)
       /\ length (Sample.P_X st) = 2%nat.
Proof.
  assert (U1 : Forall (fun u => unit_interval u = true) [high_draw; fzero])
    by (repeat constructor).
  assert (U2 : Forall (fun u => unit_interval u = true) [fzero; high_draw])
    by (repeat constructor).
  assert (U3 : Forall (fun u => unit_interval u = true)
                 [high_draw; high_draw]) by (repeat constructor).
  assert (U4 : Forall (fun u => unit_interval u = true) [fzero; fzero])
    by (repeat constructor).
  assert (U5 : Forall (fun row => unit_row row = true)
                 [(high_draw, fzero, fzero); (fzero, high_draw, fzero)])
    by (repeat constructor).
  repeat (split; [reflexivity|]).
  repeat (split; [assumption|]).
  destruct (sample_program_never_faults
              [high_draw; fzero] [fzero; high_draw] [high_draw; high_draw]
              [fzero; fzero]
              [(high_draw, fzero, fzero); (fzero, high_draw, fzero)]
              (fun _ _ => black) [[key_down]; [quit]]
              eq_refl eq_refl eq_refl eq_refl U1 U2 U3 U4 U5)
    as (st0 & st & screen & running & H0 & Hrun & _ & Hl & _).
  exists st0, st, screen, running. repeat split; assumption.
Defined.

(** X14.  Inside the bounds the motion is uniform: when the advanced
    position [position + velocity] is inside the bounds on both axes, the
    frame leaves the particle at that position with the velocity and the
    colour it had.  The sizes are those that the float format holds
    exactly, from 1 to [2 ^ fprec F]. *)
Theorem step_inside_is_uniform_motion
    (F : format) (b : Bounds.t) (p : Particle.t) :
  0 < fprec F < femax F ->
  1 <= Bounds.width b <= 2 ^ fprec F ->
  1 <= Bounds.height b <= 2 ^ fprec F ->
  in_bounds F b (advanced F p) = true ->
  Particle.step F p b = advanced F p.
Proof.
  intros HF Hw Hh. unfold in_bounds, within, advanced.
  cbn [Particle.position Vector2.add Vector2.x Vector2.y].
  rewrite !andb_true_iff. intros [[X0 X1] [Y0 Y1]].
  assert (Hlow : forall a, fle fzero a = true -> flt a fzero = false).
  { intros a Ha. apply fle_not_fgt in Ha. exact Ha. }
  unfold Particle.step, Bounds.clamp_and_reflect, Vector2.add.
  cbn [Vector2.x Vector2.y].
  rewrite (Hlow _ X0), (Hlow _ Y0).
  rewrite (fle_not_fgt _ _ X1), (fle_not_fgt _ _ Y1).
  destruct p as [[x y] [vx vy] c]. reflexivity.
Qed.

Lemma step_inside_is_uniform_motion_witness :
  0 < fprec binary64 < femax binary64
  /\ 1 <= Bounds.width window <= 2 ^ fprec binary64
  /\ 1 <= Bounds.height window <= 2 ^ fprec binary64
  /\ in_bounds binary64 window (advanced binary64 cruising) = true
  /\ Particle.step binary64 cruising window
     = Particle.mk (Vector2.mk (of_int binary64 13) (of_int binary64 18))
                   (Particle.velocity cruising) (Particle.color cruising).
Proof.
  assert (H0 : 0 < fprec binary64 < femax binary64) by (split; reflexivity).
  assert (H1 : 1 <= Bounds.width window <= 2 ^ fprec binary64)
    by (split; vm_compute; discriminate).
  assert (H2 : 1 <= Bounds.height window <= 2 ^ fprec binary64)
    by (split; vm_compute; discriminate).
  assert (H3 : in_bounds binary64 window (advanced binary64 cruising) = true)
    by (vm_compute; reflexivity).
  split; [exact H0|]. split; [exact H1|]. split; [exact H2|].
  split; [exact H3|].
  rewrite (step_inside_is_uniform_motion binary64 window cruising
             H0 H1 H2 H3).
  vm_compute. reflexivity.
Defined.

(** ** The order of the particles *)

Lemma lands_dec (x y : Z) (q : Particle.t) :
  {PygameRenderer.pixel_of q = ok (x, y)}
  + {PygameRenderer.pixel_of q <> ok (x, y)}.
Proof.
  destruct (PygameRenderer.pixel_of q) as [e|[i j]].
  - right. discriminate.
  - destruct (Z.eq_dec i x) as [->|Hi]; [|right; unfold ok; congruence].
    destruct (Z.eq_dec j y) as [->|Hj]; [|right; unfold ok; congruence].
    left. reflexivity.
Qed.

(** A pixel of the surface that some particle lands on shows the colour of
    one of the particles that land on it. *)
Lemma draw_lander (x y : Z) (ps : list Particle.t) :
  forall s out,
  PygameRenderer.draw s ps = ok out ->
  Surface.inside s x y = true ->
  Exists (fun p => PygameRenderer.pixel_of p = ok (x, y)) ps ->
  exists p, In p ps /\ PygameRenderer.pixel_of p = ok (x, y)
            /\ Surface.pixel out x y = Color.as_tuple (Particle.color p).
Proof.
  induction ps as [|q ps IH]; intros s out H Hin Hex.
  - inversion Hex.
  - destruct (draw_cons_inv _ _ _ _ H) as (pos & Hpos & H').
    destruct (Exists_dec (fun p => PygameRenderer.pixel_of p = ok (x, y)) ps
                (lands_dec x y)) as [Hrest|Hnone].
    + destruct (IH _ _ H') as (p & Hp & Hl & Hc); auto.
      * rewrite placed_inside. exact Hin.
      * exists p. split; [right; exact Hp|]. auto.
    + inversion Hex as [? ? Hq|? ? Hrest]; subst; [|contradiction].
      exists q. split; [left; reflexivity|]. split; [exact Hq|].
      rewrite Hq in Hpos. injection Hpos as <-.
      rewrite (draw_untouched x y ps) with (s := placed s (x, y)
                 (Color.as_tuple (Particle.color q))) (out := out); auto.
      * apply placed_same, Hin.
      * apply Forall_Exists_neg. exact Hnone.
Qed.

(** X15.  The image does not depend on the order in which the particles
    are drawn, as long as particles that share a pixel share their
    colour: rendering a permutation of the particles gives the same image,
    pixel for pixel. *)
Theorem image_does_not_depend_on_draw_order
    (screen : Surface.t) (ps ps' : list Particle.t) :
  Permutation ps ps' ->
  Forall drawable ps ->
  (forall p q, In p ps -> In q ps ->
               PygameRenderer.pixel_of p = PygameRenderer.pixel_of q ->
               Particle.color p = Particle.color q) ->
  exists out out',
    GameLoop.render screen ps = ok out
    /\ GameLoop.render screen ps' = ok out'
    /\ same_image out out'.
Proof.
  intros Hperm Hd Hcol.
  assert (Hd' : Forall drawable ps')
    by (apply (Permutation_Forall Hperm), Hd).
  unfold GameLoop.render.
  destruct (draw_total ps Hd (PygameRenderer.clear screen)) as [out Hout].
  destruct (draw_total ps' Hd' (PygameRenderer.clear screen))
    as [out' Hout'].
  exists out, out'. split; [exact Hout|]. split; [exact Hout'|].
  destruct (draw_size _ _ _ Hout) as [Hw Hh].
  destruct (draw_size _ _ _ Hout') as [Hw' Hh'].
  split; [congruence|]. split; [congruence|].
  intros x y.
  destruct (Surface.inside (PygameRenderer.clear screen) x y) eqn:Hin.
  - destruct (Exists_dec (fun p => PygameRenderer.pixel_of p = ok (x, y)) ps
                (lands_dec x y)) as [Hex|Hnone].
    + assert (Hex' : Exists (fun p => PygameRenderer.pixel_of p = ok (x, y))
                       ps')
        by (apply (Permutation_Exists Hperm), Hex).
      destruct (draw_lander x y ps _ _ Hout Hin Hex)
        as (p & Hp & Hl & ->).
      destruct (draw_lander x y ps' _ _ Hout' Hin Hex')
        as (q & Hq & Hl' & ->).
      rewrite (Hcol p q); auto; [|congruence].
      apply (Permutation_in _ (Permutation_sym Hperm)), Hq.
    + assert (Hnone' : ~ Exists (fun p => PygameRenderer.pixel_of p
                                          = ok (x, y)) ps').
      { intros H. apply Hnone.
        apply (Permutation_Exists (Permutation_sym Hperm)), H. }
      rewrite (draw_untouched x y ps (proj2 (Forall_Exists_neg _ _) Hnone)
                 _ _ Hout).
      rewrite (draw_untouched x y ps' (proj2 (Forall_Exists_neg _ _) Hnone')
                 _ _ Hout').
      reflexivity.
  - rewrite (draw_unclipped x y ps _ _ Hout Hin).
    rewrite (draw_unclipped x y ps' _ _ Hout' Hin). reflexivity.
Qed.

Lemma image_does_not_depend_on_draw_order_witness :
  Permutation [red_at_5_5; green_outside] [green_outside; red_at_5_5]
  /\ Forall drawable [red_at_5_5; green_outside]
  /\ (forall p q, In p [red_at_5_5; green_outside] ->
                  In q [red_at_5_5; green_outside] ->
                  PygameRenderer.pixel_of p = PygameRenderer.pixel_of q ->
                  Particle.color p = Particle.color q)
  /\ exists out out',
       GameLoop.render small_screen [red_at_5_5; green_outside] = ok out
       /\ GameLoop.render small_screen [green_outside; red_at_5_5] = ok out'
       /\ same_image out out'.
Proof.
  assert (H1 : Permutation [red_at_5_5; green_outside]
                           [green_outside; red_at_5_5])
    by apply perm_swap.
  assert (H2 : Forall drawable [red_at_5_5; green_outside]).
  { repeat constructor.
    - exists 5, 5. repeat split; vm_compute; reflexivity.
    - exists (-3), 12. repeat split; vm_compute; reflexivity. }
  assert (H3 : forall p q, In p [red_at_5_5; green_outside] ->
                           In q [red_at_5_5; green_outside] ->
                           PygameRenderer.pixel_of p
                           = PygameRenderer.pixel_of q ->
                           Particle.color p = Particle.color q).
  { intros p q [<-|[<-|[]]] [<-|[<-|[]]] H; try reflexivity;
      vm_compute in H; discriminate H. }
  split; [exact H1|]. split; [exact H2|]. split; [exact H3|].
  apply (image_does_not_depend_on_draw_order small_screen _ _ H1 H2 H3).
Defined.

(** ** A NaN position *)

Lemma step_nan_x (F : format) (b : Bounds.t) (p : Particle.t) :
  is_nan (Vector2.x (Particle.position p)) = true ->
  Vector2.x (Particle.position (Particle.step F p b)) = S754_nan.
Proof.
  intros H. rewrite step_position_x.
  destruct (Vector2.x (Particle.position p)); try discriminate H.
  assert (Hsum : forall v, fadd F S754_nan v = S754_nan)
    by (intros []; reflexivity).
  assert (Hgt : forall B, fgt S754_nan B = false)
    by (intros []; reflexivity).
  rewrite Hsum. unfold reflect_rule. rewrite Hgt. reflexivity.
Qed.

Lemma astype_int32_nan (a : list float) :
  Exists (fun p => is_nan p = true) a -> Sample.astype_int32 a = None.
Proof.
  induction 1 as [p a Hp|p a _ IH]; cbn [Sample.astype_int32].
  - destruct p; try discriminate Hp. reflexivity.
  - rewrite IH. destruct (Sample.int32 p); reflexivity.
Qed.

(** X16.  A NaN position is never repaired and stops the program.  A
    particle whose [x] is NaN has a NaN [x] after [Particle.step]: neither
    test of the reflector fires.  The frame of the game loop then raises
    [ValueError] at [int()], after having drawn the particles before it;
    in [sample.py] the conversion to [int32] is undefined. *)
Theorem nan_position_stops_the_frame
    (F : format) (b : Bounds.t) (screen : Surface.t)
    (before after : list Particle.t) (p : Particle.t) :
  0 < fprec F < femax F ->
  1 <= Bounds.width b <= 2 ^ fprec F -> Bounds.width b <= 2 ^ 31 ->
  1 <= Bounds.height b <= 2 ^ fprec F -> Bounds.height b <= 2 ^ 31 ->
  Forall (fun q => runnable F q = true) before ->
  is_nan (Vector2.x (Particle.position p)) = true ->
  is_nan (Vector2.x (Particle.position (Particle.step F p b))) = true
  /\ GameLoop.frame F (ParticleSystem.mk (before ++ p :: after) b, screen)
     = raise ValueError
  /\ sample_frame F (Bounds.width b) (Bounds.height b)
       (columns (before ++ p :: after), screen)
     = inl Undefined.
Proof.
  intros HF Hw Hw' Hh Hh' Hr Hnan.
  pose proof (step_nan_x F b p Hnan) as Hx.
  split; [rewrite Hx; reflexivity|]. split.
  - unfold GameLoop.frame, GameLoop.render. cbn [fst snd].
    change (ParticleSystem.particles
              (ParticleSimulation.tick F
                 (ParticleSystem.mk (before ++ p :: after) b)))
      with (map (fun q => Particle.step F q b) (before ++ p :: after)).
    rewrite map_app. cbn [map]. rewrite draw_app.
    destruct (tick_drawable F HF (ParticleSystem.mk before b) screen
                Hw Hw' Hh Hh' Hr) as [Hd _].
    destruct (draw_total _ Hd (PygameRenderer.clear screen)) as [s1 Hs1].
    change (ParticleSystem.particles
              (ParticleSimulation.tick F (ParticleSystem.mk before b)))
      with (map (fun q => Particle.step F q b) before) in Hs1.
    rewrite Hs1, bind_ok. cbn [PygameRenderer.draw].
    unfold PygameRenderer.pixel_of. rewrite Hx. reflexivity.
  - unfold sample_frame. cbn [fst snd].
    destruct b as [W H]. cbn [Bounds.width Bounds.height].
    rewrite update_columns. unfold Sample.draw, columns. cbn [Sample.P_X].
    rewrite astype_int32_nan; [reflexivity|].
    rewrite map_map, map_app. cbn [map].
    apply Exists_app. right. left. rewrite Hx. reflexivity.
Qed.

Lemma nan_position_stops_the_frame_witness :
  0 < fprec binary64 < femax binary64
  /\ 1 <= Bounds.width window <= 2 ^ fprec binary64
  /\ Bounds.width window <= 2 ^ 31
  /\ 1 <= Bounds.height window <= 2 ^ fprec binary64
  /\ Bounds.height window <= 2 ^ 31
  /\ Forall (fun q => runnable binary64 q = true) [leaving_left]
  /\ is_nan (Vector2.x (Particle.position lost)) = true
  /\ GameLoop.frame binary64
       (ParticleSystem.mk ([leaving_left] ++ lost :: [on_left_edge]) window,
        small_screen)
     = raise ValueError.
Proof.
  assert (H1 : 0 < fprec binary64 < femax binary64) by (split; reflexivity).
  assert (H2 : 1 <= Bounds.width window <= 2 ^ fprec binary64)
    by (split; vm_compute; discriminate).
  assert (H3 : Bounds.width window <= 2 ^ 31) by (vm_compute; discriminate).
  assert (H4 : 1 <= Bounds.height window <= 2 ^ fprec binary64)
    by (split; vm_compute; discriminate).
  assert (H5 : Bounds.height window <= 2 ^ 31) by (vm_compute; discriminate).
  assert (H6 : Forall (fun q => runnable binary64 q = true) [leaving_left])
    by (repeat constructor).
  assert (H7 : is_nan (Vector2.x (Particle.position lost)) = true)
    by reflexivity.
  repeat (split; [assumption|]).
  apply (nan_position_stops_the_frame binary64 window small_screen
           [leaving_left] [on_left_edge] lost H1 H2 H3 H4 H5 H6 H7).
Defined.

(** ** Bounds beyond the floats *)

Section Overflow.
Variables prec emax : Z.
Hypothesis prec_pos : 0 < prec.
Hypothesis prec_lt_emax : prec < emax.

(** A value whose canonical exponent is beyond the format rounds to an
    infinity. *)
Lemma binary_round_aux_overflow (sx : bool) (mx : positive) (ex : Z) :
  ex <= fexp prec emax (Zdigits2 (Zpos mx) + ex) ->
  emax - prec < fexp prec emax (Zdigits2 (Zpos mx) + ex) ->
  binary_round_aux prec emax sx (Zpos mx) ex loc_Exact = S754_infinity sx.
Proof.
  intros Hpre Hbig.
  destruct (shr_fexp_exact prec emax (Zpos mx) ex ltac:(lia) Hpre)
    as (mrs1 & Hs1 & Hm1 & _).
  unfold binary_round_aux. rewrite Hs1. cbv iota beta.
  set (e' := fexp prec emax (Zdigits2 (Zpos mx) + ex)) in *.
  set (n := e' - ex) in *.
  pose proof (Zdigits2_bounds (Zpos mx) ltac:(lia)) as [Hlo Hhi].
  pose proof (Zdigits2_pos (Zpos mx) ltac:(lia)) as Hd.
  assert (Hn : 0 <= n < Zdigits2 (Zpos mx))
    by (unfold n, e', fexp, emin in *; lia).
  pose proof (Z.pow_pos_nonneg 2 n ltac:(lia) ltac:(lia)) as Hn2.
  pose proof (Zdigits2_shiftr (Zpos mx) n ltac:(lia) Hn) as Hds.
  rewrite <- Hm1 in Hds.
  assert (Hq : 0 < shr_m mrs1).
  { destruct (Z_le_gt_dec (shr_m mrs1) 0) as [Hle|]; [|lia].
    assert (Hz : shr_m mrs1 = 0).
    { pose proof (Z.div_pos (Zpos mx) (2 ^ n) ltac:(lia) Hn2). lia. }
    rewrite Hz in Hds. change (Zdigits2 0) with 0 in Hds. lia. }
  pose proof (round_nearest_even_bounds (shr_m mrs1)
                (loc_of_shr_record mrs1)) as [Hr _].
  set (m'' := round_nearest_even (shr_m mrs1) (loc_of_shr_record mrs1)) in *.
  pose proof (Zdigits2_mono (shr_m mrs1) m'' Hq ltac:(lia)) as Hmono.
  assert (Hpre2 : e' <= fexp prec emax (Zdigits2 m'' + e')).
  { assert (H : Zdigits2 (Zpos mx) + ex <= Zdigits2 m'' + e')
      by (unfold n in *; lia).
    apply (fexp_mono prec emax) in H. fold e' in H. exact H. }
  destruct (shr_fexp_canonical prec emax ltac:(lia) m'' e' ltac:(lia)
              (fexp_ge_emin prec emax _) Hpre2)
    as (mrs2 & mf & Hs2 & Hm2 & _).
  rewrite Hs2. cbv iota beta. rewrite Hm2.
  replace (fexp prec emax (Zdigits2 m'' + e') <=? emax - prec) with false;
    [reflexivity|].
  symmetry. apply Z.leb_gt. lia.
Qed.

(** An integer of magnitude [2 ^ emax] or more has no finite float. *)
Lemma binary_round_int_overflow (s : bool) (n : positive) :
  2 ^ emax <= Zpos n ->
  binary_round prec emax s n 0 = S754_infinity s.
Proof.
  intros Hn.
  pose proof (Zdigits2_bounds (Zpos n) ltac:(lia)) as [Hlo Hhi].
  pose proof (Zdigits2_pos (Zpos n) ltac:(lia)) as Hpos.
  assert (Hd : emax < Zdigits2 (Zpos n)).
  { apply (Z.pow_lt_mono_r_iff 2); lia. }
  assert (Hf : emax - prec < fexp prec emax (Zdigits2 (Zpos n) + 0))
    by (unfold fexp; lia).
  unfold binary_round.
  destruct (shl_align_spec n 0 (fexp prec emax (Zpos (digits2_pos n) + 0)))
    as [[Hlt _]|[_ ->]].
  - cbn [Zdigits2] in Hf. lia.
  - apply binary_round_aux_overflow; [|exact Hf]. lia.
Qed.
End Overflow.

Lemma float_of_int_overflow (n : Z) :
  2 ^ 1024 <= Z.abs n -> float_of_int n = raise OverflowError.
Proof.
  intros H. unfold float_of_int, of_int.
  destruct n as [|p|p]; cbn [binary_normalize].
  - exfalso. revert H. vm_compute. intros H. apply H. reflexivity.
  - rewrite (binary_round_int_overflow 53 1024 ltac:(lia) ltac:(lia));
      [reflexivity|exact H].
  - rewrite (binary_round_int_overflow 53 1024 ltac:(lia) ltac:(lia));
      [reflexivity|exact H].
Qed.

Lemma float_of_int_exn (n : Z) (e : exn) :
  float_of_int n = inl e -> e = OverflowError.
Proof.
  unfold float_of_int. destruct (is_finite (of_int binary64 n)).
  - discriminate.
  - intros H. injection H as <-. reflexivity.
Qed.

(** X17.  Bounds beyond the floats stop construction, but only when a
    particle is built.  With a width or a height of magnitude [2 ^ 1024]
    or more, [build_system] raises [OverflowError] (the conversion of the
    bound in [random() * width]) as soon as [count] is at least 1; with a
    [count] of 0 or less it builds the empty system, whatever the bounds
    are, and leaves the generator as it was. *)
Theorem huge_bounds_stop_construction
    {rng : Type} (random : rng -> float * rng)
    (randrange : Z -> rng -> Z * rng)
    (count : Z) (b : Bounds.t) (g : rng) :
  2 ^ 1024 <= Z.abs (Bounds.width b) \/ 2 ^ 1024 <= Z.abs (Bounds.height b) ->
  (1 <= count ->
   build_system random randrange count b g = raise OverflowError)
  /\ (count <= 0 ->
      build_system random randrange count b g
      = ok (ParticleSystem.mk [] b, g)).
Proof.
  intros Hbig. split; intros Hc; unfold build_system.
  - destruct (Z.to_nat count) as [|k] eqn:Hk; [lia|].
    cbn [random_particles].
    assert (Hp : random_particle random randrange b g = raise OverflowError).
    { unfold random_particle. destruct (random g) as [u1 g1].
      destruct (float_of_int (Bounds.width b)) as [e|w] eqn:Hw.
      - rewrite (float_of_int_exn _ _ Hw). reflexivity.
      - rewrite bind_ok. destruct (random g1) as [u2 g2].
        destruct Hbig as [Hbig|Hbig].
        + rewrite (float_of_int_overflow _ Hbig) in Hw. discriminate.
        + rewrite (float_of_int_overflow _ Hbig). reflexivity. }
    rewrite Hp. reflexivity.
  - replace (Z.to_nat count) with 0%nat by lia. reflexivity.
Qed.

Lemma huge_bounds_stop_construction_witness :
  (2 ^ 1024 <= Z.abs (Bounds.width (Bounds.mk 960 (- 2 ^ 1030)))
   \/ 2 ^ 1024 <= Z.abs (Bounds.height (Bounds.mk 960 (- 2 ^ 1030))))
  /\ (1 <= 3 ->
      build_system (constant_random high_draw) (constant_randrange 7)
                   3 (Bounds.mk 960 (- 2 ^ 1030)) tt
      = raise OverflowError).
Proof.
  assert (H : 2 ^ 1024 <= Z.abs (Bounds.width (Bounds.mk 960 (- 2 ^ 1030)))
              \/ 2 ^ 1024
                 <= Z.abs (Bounds.height (Bounds.mk 960 (- 2 ^ 1030))))
    by (right; vm_compute; discriminate).
  split; [exact H|].
  apply (huge_bounds_stop_construction (constant_random high_draw)
           (constant_randrange 7) 3 (Bounds.mk 960 (- 2 ^ 1030)) tt H).
Defined.
